(** * dht-crawler: a shallow embedding of the DHT node

    The Go sources are embedded as Rocq functions.  Go maps are finite maps
    ([gmap]), slices are lists, [int] values that are lengths or indices are
    [nat], other [int] values are [Z].  A Go panic (failed type assertion, nil
    dereference, index out of range) is the [Panic] outcome of the [result]
    monad; mutable receivers become explicit state passing. *)

From stdpp Require Import gmap strings list fin_maps pretty.
From Stdlib Require Import ZArith Ascii.

Local Set Warnings "-register-all".
Local Open Scope string_scope.
Local Open Scope list_scope.

(** ** Outcomes of Go code that may panic *)

Inductive result (A : Type) : Type :=
  | Ok (a : A)
  | Panic (msg : string)
  | OutOfFuel.
Arguments Ok {A} a.
Arguments Panic {A} msg.
Arguments OutOfFuel {A}.

(** [OutOfFuel] is not an outcome of the program: it marks a loop of the
    embedding that was given too small a bound. *)

#[global] Instance result_ret : MRet result := @Ok.
#[global] Instance result_bind : MBind result := λ A B f r,
  match r with
  | Ok a => f a
  | Panic msg => Panic msg
  | OutOfFuel => OutOfFuel
  end.

Definition is_Ok {A} (r : result A) : Prop := ∃ a, r = Ok a.
Definition is_Panic {A} (r : result A) : Prop := ∃ msg, r = Panic msg.

(** ** Dynamically typed values: what the bencode decoder hands to the
    handlers ([int], [string], [[]interface{}], [map[string]interface{}]) *)

Inductive bval : Type :=
  | BInt (z : Z)
  | BStr (s : string)
  | BList (l : list bval)
  | BDict (d : gmap string bval).

Abbreviation payload := (gmap string bval).

(** [v.(string)] on the result of a map index: the single-value form panics
    when the key is absent (nil interface) or holds another type. *)
Definition assert_string (v : option bval) : result string :=
  match v with
  | Some (BStr s) => Ok s
  | _ => Panic "interface conversion: interface {} is not string"
  end.

Definition assert_int (v : option bval) : result Z :=
  match v with
  | Some (BInt z) => Ok z
  | _ => Panic "interface conversion: interface {} is not int"
  end.

(** [args, _ := v.(map[string]interface{})]: the comma-ok form yields the zero
    value (a nil map, which reads as the empty map) on failure. *)
Definition assert_map_ok (v : option bval) : payload * bool :=
  match v with
  | Some (BDict d) => (d, true)
  | _ => (∅, false)
  end.

(** ** net.UDPAddr *)

Module net.

(** [net.IP] is a byte slice; the node runs on [udp4], so four octets. *)
Abbreviation IP := (list N).

Record UDPAddr := { IP_ : IP; Port : Z }.

(** [IP.String()]: dotted decimal for a four byte address. *)
Definition IP_String (ip : IP) : string :=
  match ip with
  | [] => "<nil>"
  | [a; b; c; d] =>
      pretty a +:+ "." +:+ pretty b +:+ "." +:+ pretty c +:+ "." +:+ pretty d
  | _ => "?" +:+ String.concat "" (pretty <$> ip)
  end.

(** [UDPAddr.String()]: host and port joined by a colon. *)
Definition String_ (a : UDPAddr) : string :=
  (match IP_ a with [] => "" | ip => IP_String ip end) +:+ ":" +:+ pretty (Port a).

End net.

(** ** KRPC payloads (the message structs and their [ToPayload]) *)

Definition generalError : Z := 201.
Definition serverError : Z := 202.
Definition protocolError : Z := 203.
Definition unknownError : Z := 204.

Definition DHTQueryType := string.
Definition DHTQueryTypePing : DHTQueryType := "ping".
Definition DHTQueryTypeFindNode : DHTQueryType := "find_node".
Definition DHTQueryTypeGetPeers : DHTQueryType := "get_peers".
Definition DHTQueryTypeAnnouncePeer : DHTQueryType := "announce_peer".

Record DHTQuery := {
  q_TransactionID : string;
  QueryType : DHTQueryType;
  q_Arguments : payload
}.

Record DHTErrorResponse := {
  e_TransactionID : string;
  ErrorCode : Z;
  ErrorMessage : string
}.

Record DHTQueryResponse := {
  r_TransactionID : string;
  r_Arguments : payload
}.

Definition NewDHTQuery (transID : string) (queryType : DHTQueryType)
    (args : payload) : DHTQuery :=
  {| q_TransactionID := transID; QueryType := queryType; q_Arguments := args |}.

Definition NewDHTErrorResponse (transID : string) (errCode : Z)
    (errMsg : string) : DHTErrorResponse :=
  {| e_TransactionID := transID; ErrorCode := errCode; ErrorMessage := errMsg |}.

Definition NewDHTQueryResponse (transID : string) (args : payload)
    : DHTQueryResponse :=
  {| r_TransactionID := transID; r_Arguments := args |}.

(** The [DHTPayload] interface. *)
Class DHTPayload (A : Type) := ToPayload : A → payload.

#[global] Instance DHTQuery_ToPayload : DHTPayload DHTQuery := λ q,
  <["t" := BStr (q_TransactionID q)]>
  (<["y" := BStr "q"]>
  (<["q" := BStr (QueryType q)]>
  (<["a" := BDict (q_Arguments q)]> ∅))).

#[global] Instance DHTErrorResponse_ToPayload : DHTPayload DHTErrorResponse := λ r,
  <["t" := BStr (e_TransactionID r)]>
  (<["y" := BStr "e"]>
  (<["e" := BList [BInt (ErrorCode r); BStr (ErrorMessage r)]]> ∅)).

#[global] Instance DHTQueryResponse_ToPayload : DHTPayload DHTQueryResponse := λ r,
  <["t" := BStr (r_TransactionID r)]>
  (<["y" := BStr "r"]>
  (<["e" := BDict (r_Arguments r)]> ∅)).

(** [NewDHTQueryFromPayload]: [a] is read with the comma-ok form, [t] and [q]
    with the panicking form. *)
Definition NewDHTQueryFromPayload (p : payload) : result DHTQuery :=
  let args := (assert_map_ok (p !! "a")).1 in
  t ← assert_string (p !! "t");
  q ← assert_string (p !! "q");
  Ok {| q_TransactionID := t; QueryType := q; q_Arguments := args |}.

(** ** Token manager *)

Record token := { data : string; createTime : Z }.

Module tokenManager.

(** The embedded [syncedMap] (a map with a lock, whose source file is not
    among the sources) holds the token of each remote IP string. *)
Record t := {
  table : gmap string token;
  expiredAfter : Z
}.

(** The zero value that [tk, _ := v.(token)] leaves when [v] is nil. *)
Definition zero_token : token := {| data := ""; createTime := 0 |}.

Definition newTokenManager (expiredAfter : Z) : t :=
  {| table := ∅; expiredAfter := expiredAfter |}.

(** [token]: [now] is the clock and [rnd] the next [randomString(5)]. *)
Definition token_ (now : Z) (rnd : string) (tm : t) (addr : net.UDPAddr)
    : string * t :=
  let v := table tm !! net.IP_String (net.IP_ addr) in
  let tk := default zero_token v in
  if negb (bool_decide (is_Some v)) || bool_decide (now - createTime tk > expiredAfter tm)%Z
  then
    let tk := {| data := rnd; createTime := now |} in
    (data tk,
     {| table := <[net.IP_String (net.IP_ addr) := tk]> (table tm);
        expiredAfter := expiredAfter tm |})
  else (data tk, tm).

(** [check] returns whether the token is valid. *)
Definition check (tm : t) (addr : net.UDPAddr) (tokenString : string)
    : bool * t :=
  let key := net.IP_String (net.IP_ addr) in
  let v := table tm !! key in
  let ok := bool_decide (is_Some v) in
  let tk := default zero_token v in
  let tm :=
    if ok
    then {| table := base.delete key (table tm); expiredAfter := expiredAfter tm |}
    else tm in
  (ok && bool_decide (tokenString = data tk), tm).

End tokenManager.

(** ** Bitmap *)

Module bitmap.

(** Modelled from the spec: the bitmap type, whose source file is not among
    the sources.  A fixed-length bit vector indexed from the most
    significant bit. *)
Abbreviation t := (list bool).

(** Modelled from the spec: the [Size] field of a bitmap, its length in
    bits. *)
Definition Size (b : t) : nat := length b.

(** Modelled from the spec: [newBitmap(size)], all bits zero. *)
Definition newBitmap (size : nat) : t := replicate size false.

(** Modelled from the spec: [Bit(i)] reads bit [i] (0 is the most significant
    one); the spec gives no reading past the size, taken here as 0. *)
Definition Bit (b : t) (index : nat) : nat :=
  if default false (b !! index) then 1 else 0.

(** Modelled from the spec: [Set(i)] turns bit [i] to 1. *)
Definition Set_ (b : t) (index : nat) : t := <[index := true]> b.

(** Modelled from the spec: [newBitmapFrom(parent, p)] is a bitmap of [p]
    bits with the top [p] bits of the parent, the rest zero. *)
Definition newBitmapFrom (other : t) (size : nat) : t :=
  take size other ++ replicate (size - length other) false.

(** Modelled from the spec: [Xor] returns a bitmap of the same size. *)
Definition Xor (b other : t) : t := zip_with xorb b other.

(** Modelled from the spec: the comparison loop of [Compare], from bit [i]
    on for [n] bits: the first differing bit decides. *)
Fixpoint Compare_from (b other : t) (i n : nat) : Z :=
  match n with
  | O => 0
  | S n' =>
      match Nat.compare (Bit b i) (Bit other i) with
      | Gt => 1
      | Lt => -1
      | Eq => Compare_from b other (S i) n'
      end
  end.

(** Modelled from the spec: [Compare(other, p)] is the sign of the unsigned
    difference of the top [p] bits. *)
Definition Compare (b other : t) (prefixLen : nat) : Z :=
  Compare_from b other 0 prefixLen.

(** Modelled from the spec: the bits of a stored byte, most significant
    first. *)
Definition byte_bits (c : ascii) : list bool :=
  let 'Ascii b0 b1 b2 b3 b4 b5 b6 b7 := c in [b7; b6; b5; b4; b3; b2; b1; b0].

(** Modelled from the spec: the byte that stores up to eight bits, most
    significant first. *)
Definition bits_byte (l : list bool) : ascii :=
  Ascii (nth 7 l false) (nth 6 l false) (nth 5 l false) (nth 4 l false)
        (nth 3 l false) (nth 2 l false) (nth 1 l false) (nth 0 l false).

(** Modelled from the spec: [newBitmapFromString] takes the bytes of the
    string as the big-endian storage of the bits. *)
Fixpoint newBitmapFromString (s : string) : t :=
  match s with
  | EmptyString => []
  | String c s' => byte_bits c ++ newBitmapFromString s'
  end.

(** Modelled from the spec: the bytes that store the bits, eight bits at a
    time. *)
Fixpoint RawString_go (n : nat) (b : t) : string :=
  match n with
  | O => ""
  | S n' =>
      match b with
      | [] => ""
      | _ => String (bits_byte (take 8 b)) (RawString_go n' (drop 8 b))
      end
  end.

(** Modelled from the spec: [RawString], the bytes that store the bits. *)
Definition RawString (b : t) : string := RawString_go (length b) b.

(** Modelled from the spec: [String], the text under which the bucket cache
    files a prefix; the spec only says that the cache is keyed by prefix, and
    the text is taken to write each bit as 0 or 1. *)
Definition String_ (b : t) : string :=
  String.concat "" ((λ x : bool, if x then "1" else "0") <$> b).

End bitmap.

(** maxPrefixLength is the length of DHT node. *)
Definition maxPrefixLength : nat := 160.

(** ** Compact endpoint encoding *)

(** Modelled from the spec: [encodeCompactIPPortInfo], whose source file is
    not among the sources: four address bytes followed by the port in two
    big-endian bytes; anything but an IPv4 address with a port in 0..65535 is
    rejected (the error is [None]). *)
Definition encodeCompactIPPortInfo (ip : net.IP) (port : Z) : option string :=
  match ip with
  | [a; b; c; d] =>
      if bool_decide (0 ≤ port ≤ 65535)%Z && forallb (λ x, x <? 256)%N ip then
        Some (String.string_of_list_ascii
                ((ascii_of_N <$> ip) ++
                 [ascii_of_N (Z.to_N (port / 256)); ascii_of_N (Z.to_N (port mod 256))]))
      else None
  | _ => None
  end.

(** ** Nodes *)

Module Node.

(** The [node] struct behind the [Node] interface; [id] is a pointer and
    may be nil. *)
Record t := {
  id : option bitmap.t;
  address : net.UDPAddr;
  lastActiveTime : Z
}.

Definition NewNode (now : Z) (id : string) (address : net.UDPAddr) : t :=
  {| id := Some (bitmap.newBitmapFromString id);
     address := address;
     lastActiveTime := now |}.

Definition ID (n : t) : option bitmap.t := id n.

(** A method called on a nil [*bitmap] dereferences it. *)
Definition deref (b : option bitmap.t) : result bitmap.t :=
  match b with
  | Some b => Ok b
  | None => Panic "invalid memory address or nil pointer dereference"
  end.

Definition IDRawString (n : t) : result string :=
  b ← deref (id n); Ok (bitmap.RawString b).

Definition Address (n : t) : net.UDPAddr := address n.

Definition LastActiveTime (n : t) : Z := lastActiveTime n.

(** The error of the encoder is dropped, leaving the empty string. *)
Definition CompactIPPortInfo (n : t) : string :=
  default "" (encodeCompactIPPortInfo (net.IP_ (address n)) (net.Port (address n))).

Definition CompactNodeInfo (n : t) : result string :=
  raw ← IDRawString n; Ok (raw +:+ CompactIPPortInfo n).

End Node.

(** ** The top-k heap *)

Record heapItem := { distance : bitmap.t; value : Node.t }.

Abbreviation topKHeap := (list heapItem).

Definition index_out_of_range {A} : result A := Panic "index out of range".

(** Go's runtime on a 64-bit platform: [make] of a slice panics with
    [makeslice: cap out of range] when the capacity is negative or when the
    elements of the slice would take more than [maxAlloc] bytes.  An [int]
    has 64 bits, so that a capacity which an addition has wrapped is
    negative.  Within these bounds the allocation is taken to succeed: a
    process that the operating system refuses the memory is ended without a
    panic, which is not an outcome of the embedding. *)
Definition maxAlloc : Z := 2 ^ 48.

Definition makeslice_fits (elemSize cap : Z) : bool :=
  bool_decide (0 ≤ cap ∧ cap * elemSize ≤ maxAlloc)%Z.

Module topKHeap_.

Definition Len (kHeap : topKHeap) : nat := length kHeap.

Definition Less (kHeap : topKHeap) (i j : nat) : result bool :=
  match kHeap !! i, kHeap !! j with
  | Some a, Some b =>
      Ok (bool_decide (bitmap.Compare (distance a) (distance b) maxPrefixLength = 1%Z))
  | _, _ => index_out_of_range
  end.

Definition Swap (kHeap : topKHeap) (i j : nat) : result topKHeap :=
  match kHeap !! i, kHeap !! j with
  | Some a, Some b => Ok (<[j := a]> (<[i := b]> kHeap))
  | _, _ => index_out_of_range
  end.

Definition Push (kHeap : topKHeap) (x : heapItem) : topKHeap := kHeap ++ [x].

Definition Pop (kHeap : topKHeap) : result (heapItem * topKHeap) :=
  let n := length kHeap in
  if bool_decide (n = 0) then index_out_of_range else
  match kHeap !! (n - 1) with
  | Some x => Ok (x, take (n - 1) kHeap)
  | None => index_out_of_range
  end.

End topKHeap_.

(** Go's [container/heap], instantiated at [topKHeap]. *)
Module heap.

(** [up]: the loop runs at most once per level above [j]. *)
Fixpoint up (fuel : nat) (h : topKHeap) (j : nat) : result topKHeap :=
  match fuel with
  | O => OutOfFuel
  | S fuel' =>
      let i := (j - 1) / 2 in (* parent; for j = 0 Go's division gives 0 too *)
      if bool_decide (i = j) then Ok h else
      lt ← topKHeap_.Less h j i;
      if negb (lt : bool) then Ok h else
      h' ← topKHeap_.Swap h i j;
      up fuel' h' i
  end.

(** [down]: the boolean that Go's [down] returns is not used by [Pop]. *)
Fixpoint down (fuel : nat) (h : topKHeap) (i n : nat) : result topKHeap :=
  match fuel with
  | O => OutOfFuel
  | S fuel' =>
      let j1 := 2 * i + 1 in
      if bool_decide (n ≤ j1)%nat then Ok h else
      let j2 := j1 + 1 in
      lt21 ← ((if bool_decide (j2 < n)%nat then topKHeap_.Less h j2 j1 else Ok false)
              : result bool);
      let j := if (lt21 : bool) then j2 else j1 in
      lt ← topKHeap_.Less h j i;
      if negb (lt : bool) then Ok h else
      h' ← topKHeap_.Swap h i j;
      down fuel' h' j n
  end.

Definition Push (h : topKHeap) (x : heapItem) : result topKHeap :=
  let h := topKHeap_.Push h x in
  up (S (topKHeap_.Len h)) h (topKHeap_.Len h - 1).

Definition Pop (h : topKHeap) : result (heapItem * topKHeap) :=
  if bool_decide (topKHeap_.Len h = 0) then index_out_of_range else
  let n := topKHeap_.Len h - 1 in
  h ← topKHeap_.Swap h 0 n;
  h ← down (S n) h 0 n;
  topKHeap_.Pop h.

End heap.

(** One iteration of the loop of [getTopK]. *)
Definition getTopK_step (id : bitmap.t) (k : Z) (topkHeap : topKHeap)
    (value : Node.t) : result topKHeap :=
  nid ← Node.deref (Node.ID value);
  let distance_ := bitmap.Xor id nid in
  if bool_decide (Z.of_nat (topKHeap_.Len topkHeap) = k) then
    if bool_decide (topKHeap_.Len topkHeap = 0) then index_out_of_range else
    match topkHeap !! (topKHeap_.Len topkHeap - 1) with
    | Some last =>
        if bool_decide (bitmap.Compare (distance last) distance_ maxPrefixLength = 1%Z)
        then
          let item := {| distance := distance_; value := value |} in
          h ← heap.Push topkHeap item;
          '(_, h) ← heap.Pop h;
          Ok h
        else Ok topkHeap
    | None => index_out_of_range
    end
  else
    let item := {| distance := distance_; value := value |} in
    heap.Push topkHeap item.

Fixpoint getTopK_loop (id : bitmap.t) (k : Z) (topkHeap : topKHeap)
    (queue : list Node.t) : result topKHeap :=
  match queue with
  | [] => Ok topkHeap
  | value :: queue' =>
      h ← getTopK_step id k topkHeap value;
      getTopK_loop id k h queue'
  end.

(** The final loop fills [tops] from its last index down with successive
    pops. *)
Fixpoint getTopK_drain (n : nat) (topkHeap : topKHeap) (tops : list Node.t)
    : result (list Node.t) :=
  match n with
  | O => Ok tops
  | S n' =>
      '(x, h) ← heap.Pop topkHeap;
      getTopK_drain n' h (value x :: tops)
  end.

(** getTopK solves the top-k problem with heap.  The heap is a slice of
    pointers (8 bytes each) made with capacity [k+1]; for the largest [int]
    the sum wraps to a negative capacity, and as an integer it is beyond
    what [make] accepts, so that the test below panics in both readings. *)
Definition getTopK (queue : list Node.t) (id : bitmap.t) (k : Z)
    : result (list Node.t) :=
  if negb (makeslice_fits 8 (k + 1)) then Panic "makeslice: cap out of range" else
  topkHeap ← getTopK_loop id k [] queue;
  getTopK_drain (topKHeap_.Len topkHeap) topkHeap [].

(** What the spec asks of the neighbour search, in its words: the [k] nodes of
    smallest XOR distance to [id], in ascending order of distance. *)
Definition closer (id : bitmap.t) (a b : bitmap.t) : bool :=
  bool_decide (bitmap.Compare (bitmap.Xor id a) (bitmap.Xor id b) maxPrefixLength ≠ 1%Z).

Fixpoint insert_by_distance (id : bitmap.t) (x : Node.t) (l : list Node.t)
    : list Node.t :=
  match l with
  | [] => [x]
  | y :: l' =>
      if closer id (default [] (Node.id x)) (default [] (Node.id y))
      then x :: y :: l'
      else y :: insert_by_distance id x l'
  end.

Definition k_smallest_by_distance (queue : list Node.t) (id : bitmap.t) (k : nat)
    : list Node.t :=
  take k (foldr (insert_by_distance id) [] queue).

(** ** Blacklist *)

Module blackList.

(** Modelled from the spec: the blacklist, whose source file is not among
    the sources.  A bounded mapping from [(ip, port)] to the insertion time,
    kept here oldest first; when the size has reached [maxSize] the oldest
    entry is evicted; port -1 stands for every port of the IP. *)
Record t := {
  list_ : list ((string * Z) * Z);
  maxSize : Z
}.

(** Modelled from the spec: the empty blacklist of a given bound. *)
Definition newBlackList (size : Z) : t := {| list_ := []; maxSize := size |}.

(** Modelled from the spec: whether the exact entry exists. *)
Definition has (bl : t) (ip : string) (port : Z) : bool :=
  bool_decide ((ip, port) ∈ (list_ bl).*1).

(** Modelled from the spec: [insert(ip, port)] files the entry with the
    present time; a new entry evicts the oldest one when the size has
    reached the bound. *)
Definition insert (now : Z) (bl : t) (ip : string) (port : Z) : t :=
  let others := filter (λ e, e.1 ≠ (ip, port)) (list_ bl) in
  let kept :=
    if has bl ip port then others
    else if bool_decide (maxSize bl ≤ Z.of_nat (length others))%Z then drop 1 others
    else others in
  {| list_ := kept ++ [((ip, port), now)]; maxSize := maxSize bl |}.

(** Modelled from the spec: [delete(ip, port)] removes the exact entry. *)
Definition delete (bl : t) (ip : string) (port : Z) : t :=
  {| list_ := filter (λ e, e.1 ≠ (ip, port)) (list_ bl); maxSize := maxSize bl |}.

(** Modelled from the spec: [in(ip, port)] is true if the exact entry
    exists, or the wildcard entry for the IP. *)
Definition in_ (bl : t) (ip : string) (port : Z) : bool :=
  has bl ip port || has bl ip (-1).

End blackList.

(** ** Keyed deque *)

Module keyedDeque.

Section deque.
Context {V : Type} (key : V → string).

(** Modelled from the spec: the keyed deque behind the node lists of the
    buckets, the peer lists and the bucket cache; its source file is not
    among the sources.  An ordered list whose elements can be found by key;
    every caller files an element under a key computed from the element
    itself, so the key is a function [key] of the element.  [Len] is the
    number of elements. *)
Definition Len (d : list V) : nat := length d.

(** Modelled from the spec: [HasKey], whether an element is filed under the
    key. *)
Definition HasKey (d : list V) (k : string) : bool :=
  bool_decide (k ∈ key <$> d).

(** Modelled from the spec: [Get], the element filed under the key. *)
Definition Get (d : list V) (k : string) : option V :=
  List.find (λ v, bool_decide (key v = k)) d.

(** Modelled from the spec: [Delete] removes the element filed under the
    key. *)
Definition Delete (d : list V) (k : string) : list V :=
  filter (λ v, key v ≠ k) d.

(** Modelled from the spec: [Push(key, val)] replaces the element filed under
    the key and puts the new one at the back (the peer index drops its front
    to forget the oldest peer). *)
Definition Push (d : list V) (k : string) (val : V) : list V :=
  Delete d k ++ [val].

(** Modelled from the spec: [PushBack(val)] appends. *)
Definition PushBack (d : list V) (val : V) : list V := d ++ [val].

(** Modelled from the spec: [Remove(Front())]. *)
Definition RemoveFront (d : list V) : list V := drop 1 d.

(** Modelled from the spec: [Remove(Back())], with the removed value. *)
Definition RemoveBack (d : list V) : option (V * list V) :=
  match last d with
  | Some v => Some (v, take (length d - 1) d)
  | None => None
  end.
End deque.

End keyedDeque.

(** The key under which the callers file a node: its raw id. *)
Definition node_key (n : Node.t) : string :=
  match Node.id n with
  | Some b => bitmap.RawString b
  | None => ""
  end.

(** ** Peers *)

Record Peer := { p_ip : net.IP; p_port : Z; p_token : string }.

Definition NewPeer (ip : net.IP) (port : Z) (token : string) : Peer :=
  {| p_ip := ip; p_port := port; p_token := token |}.

Definition Peer_CompactIPPortInfo (p : Peer) : string :=
  default "" (encodeCompactIPPortInfo (p_ip p) (p_port p)).

Module peersManager.

Abbreviation t := (gmap string (list Peer)).

(** Insert adds a peer into peersManager. *)
Definition Insert (K : Z) (pm : t) (infoHash : string) (peer : Peer) : t :=
  let queue := default [] (pm !! infoHash) in
  let queue :=
    keyedDeque.Push Peer_CompactIPPortInfo queue (Peer_CompactIPPortInfo peer) peer in
  let queue :=
    if bool_decide (Z.of_nat (keyedDeque.Len queue) > K)%Z
    then keyedDeque.RemoveFront queue else queue in
  <[infoHash := queue]> pm.

(** GetPeers returns size-length peers who announces having infoHash.  The
    result is a slice of interface values (16 bytes each) made with capacity
    [size]. *)
Definition GetPeers (pm : t) (infoHash : string) (size : Z) : result (list Peer) :=
  if negb (makeslice_fits 16 size) then Panic "makeslice: cap out of range" else
  match pm !! infoHash with
  | None => Ok []
  | Some peers =>
      if bool_decide (Z.of_nat (length peers) > size)%Z
      then Ok (drop (length peers - Z.to_nat size) peers)
      else Ok peers
  end.

End peersManager.

(** ** K-buckets *)

Record kbucket := {
  nodes : list Node.t;
  candidates : list Node.t;
  lastChanged : Z;
  prefix : bitmap.t
}.

Module kbucket_.

Definition newKBucket (now : Z) (prefix : bitmap.t) : kbucket :=
  {| nodes := []; candidates := []; lastChanged := now; prefix := prefix |}.

Definition UpdateTimestamp (now : Z) (bucket : kbucket) : kbucket :=
  {| nodes := nodes bucket; candidates := candidates bucket;
     lastChanged := now; prefix := prefix bucket |}.

Definition set_nodes (bucket : kbucket) (l : list Node.t) : kbucket :=
  {| nodes := l; candidates := candidates bucket;
     lastChanged := lastChanged bucket; prefix := prefix bucket |}.

Definition set_candidates (bucket : kbucket) (l : list Node.t) : kbucket :=
  {| nodes := nodes bucket; candidates := l;
     lastChanged := lastChanged bucket; prefix := prefix bucket |}.

Definition set_prefix (bucket : kbucket) (p : bitmap.t) : kbucket :=
  {| nodes := nodes bucket; candidates := candidates bucket;
     lastChanged := lastChanged bucket; prefix := p |}.

(** Insert inserts node to the bucket. It returns whether the node is new
    in the bucket. *)
Definition Insert (now : Z) (bucket : kbucket) (no : Node.t)
    : result (bool * kbucket) :=
  raw ← Node.IDRawString no;
  let isNew := negb (keyedDeque.HasKey node_key (nodes bucket) raw) in
  let bucket := set_nodes bucket (keyedDeque.Push node_key (nodes bucket) raw no) in
  Ok (isNew, UpdateTimestamp now bucket).

(** The loop of [Replace]: put [no] before the first node that was active
    later, or at the back. *)
Fixpoint insert_sorted (no : Node.t) (l : list Node.t) : list Node.t :=
  match l with
  | [] => [no]
  | e :: l' =>
      if bool_decide (Node.LastActiveTime no < Node.LastActiveTime e)%Z
      then no :: e :: l'
      else e :: insert_sorted no l'
  end.

(** Replace removes node, then put bucket.candidates.Back() to the right
    place of bucket.nodes. *)
Definition Replace (now : Z) (bucket : kbucket) (no : Node.t) : result kbucket :=
  raw ← Node.IDRawString no;
  let bucket := set_nodes bucket (keyedDeque.Delete node_key (nodes bucket) raw) in
  let bucket := UpdateTimestamp now bucket in
  match keyedDeque.RemoveBack (candidates bucket) with
  | None => Ok bucket
  | Some (no, rest) =>
      let bucket := set_candidates bucket rest in
      Ok (set_nodes bucket (insert_sorted no (nodes bucket)))
  end.

End kbucket_.

(** ** Routing table tree *)

(** routingTableNode represents routing table tree node: the two child
    pointers and the bucket pointer, each of which may be nil. *)
Inductive routingTableNode : Type :=
  | TableNode (child0 child1 : option routingTableNode) (bucket : option kbucket).

Definition nil_dereference {A} : result A :=
  Panic "invalid memory address or nil pointer dereference".

Module routingTableNode_.

Definition newRoutingTableNode (now : Z) (prefix : bitmap.t) : routingTableNode :=
  TableNode None None (Some (kbucket_.newKBucket now prefix)).

(** Child returns routingTableNode's left or right child. *)
Definition Child (tableNode : routingTableNode) (index : nat)
    : option routingTableNode :=
  let 'TableNode c0 c1 _ := tableNode in
  match index with
  | 0 => c0
  | 1 => c1
  | _ => None
  end.

Definition SetChild (tableNode : routingTableNode) (index : nat)
    (c : option routingTableNode) : routingTableNode :=
  let 'TableNode c0 c1 b := tableNode in
  match index with
  | 0 => TableNode c c1 b
  | 1 => TableNode c0 c b
  | _ => tableNode
  end.

Definition KBucket (tableNode : routingTableNode) : option kbucket :=
  let 'TableNode _ _ b := tableNode in b.

Definition SetKBucket (tableNode : routingTableNode) (bucket : option kbucket)
    : routingTableNode :=
  let 'TableNode c0 c1 _ := tableNode in TableNode c0 c1 bucket.

(** Field access through a bucket pointer. *)
Definition bucket_deref (b : option kbucket) : result kbucket :=
  match b with
  | Some b => Ok b
  | None => nil_dereference
  end.

(** [nd.ID().Bit(i)] *)
Definition ID_Bit (nd : Node.t) (i : nat) : result nat :=
  b ← Node.deref (Node.ID nd); Ok (bitmap.Bit b i).

(** The two loops of [Split] that hand the nodes (or the candidates) of the
    bucket to the child chosen by bit [prefixLen] of their id. *)
Fixpoint distribute (prefixLen : nat) (l : list Node.t) (c0 c1 : list Node.t)
    : result (list Node.t * list Node.t) :=
  match l with
  | [] => Ok (c0, c1)
  | nd :: l' =>
      b ← ID_Bit nd prefixLen;
      match b with
      | 0 => distribute prefixLen l' (keyedDeque.PushBack c0 nd) c1
      | _ => distribute prefixLen l' c0 (keyedDeque.PushBack c1 nd)
      end
  end.

(** Split splits current routingTableNode and sets it's two children. *)
Definition Split (now : Z) (tableNode : routingTableNode) : result routingTableNode :=
  bucket ← bucket_deref (KBucket tableNode);
  let prefixLen := bitmap.Size (prefix bucket) in
  if bool_decide (prefixLen = maxPrefixLength) then Ok tableNode else
  let b0 := kbucket_.newKBucket now (bitmap.newBitmapFrom (prefix bucket) (prefixLen + 1)) in
  let b1 := kbucket_.newKBucket now (bitmap.newBitmapFrom (prefix bucket) (prefixLen + 1)) in
  let b1 := kbucket_.set_prefix b1 (bitmap.Set_ (prefix b1) prefixLen) in
  '(n0, n1) ← distribute prefixLen (nodes bucket) (nodes b0) (nodes b1);
  '(k0, k1) ← distribute prefixLen (candidates bucket) (candidates b0) (candidates b1);
  let b0 := kbucket_.UpdateTimestamp now
              (kbucket_.set_candidates (kbucket_.set_nodes b0 n0) k0) in
  let b1 := kbucket_.UpdateTimestamp now
              (kbucket_.set_candidates (kbucket_.set_nodes b1 n1) k1) in
  Ok (TableNode (Some (TableNode None None (Some b0)))
                (Some (TableNode None None (Some b1)))
                (Some bucket)).

End routingTableNode_.

(** ** Routing table *)

(** routingTable implements the routing table in DHT protocol.
    [cachedNodes] is the [syncedMap] from address strings to nodes;
    [cachedKBuckets] holds pointers to buckets of the tree, each represented
    by the prefix that identifies it; [freshed] records the buckets for which
    [Insert] started a [Fresh] goroutine. *)
Record routingTable := {
  k : Z;
  root : routingTableNode;
  cachedNodes : gmap string Node.t;
  cachedKBuckets : list bitmap.t;
  clearQueue : list Node.t;
  freshed : list bitmap.t
}.

Module routingTable_.

Import routingTableNode_.

Definition set_root (rt : routingTable) (r : routingTableNode) : routingTable :=
  {| k := k rt; root := r; cachedNodes := cachedNodes rt;
     cachedKBuckets := cachedKBuckets rt; clearQueue := clearQueue rt;
     freshed := freshed rt |}.

Definition set_cachedNodes (rt : routingTable) (m : gmap string Node.t)
    : routingTable :=
  {| k := k rt; root := root rt; cachedNodes := m;
     cachedKBuckets := cachedKBuckets rt; clearQueue := clearQueue rt;
     freshed := freshed rt |}.

Definition set_cachedKBuckets (rt : routingTable) (l : list bitmap.t)
    : routingTable :=
  {| k := k rt; root := root rt; cachedNodes := cachedNodes rt;
     cachedKBuckets := l; clearQueue := clearQueue rt;
     freshed := freshed rt |}.

Definition add_freshed (rt : routingTable) (p : bitmap.t) : routingTable :=
  {| k := k rt; root := root rt; cachedNodes := cachedNodes rt;
     cachedKBuckets := cachedKBuckets rt; clearQueue := clearQueue rt;
     freshed := freshed rt ++ [p] |}.

(** [rt.cachedKBuckets.Push(bucket.prefix.String(), bucket)] *)
Definition cache_bucket (rt : routingTable) (bucket : kbucket) : routingTable :=
  set_cachedKBuckets rt
    (keyedDeque.Push bitmap.String_ (cachedKBuckets rt)
       (bitmap.String_ (prefix bucket)) (prefix bucket)).

Definition newRoutingTable (now : Z) (k : Z) : routingTable :=
  let root := newRoutingTableNode now (bitmap.newBitmap 0) in
  {| k := k; root := root; cachedNodes := ∅;
     cachedKBuckets := [bitmap.newBitmap 0]; clearQueue := []; freshed := [] |}.

(** The loop of [Insert].  [iters] counts the iterations left, [prefixLen]
    is the loop variable and [root] the tree node the loop stands on; the
    result is that tree node after the updates made below it, the table
    with its caches updated, and the value returned from inside the loop
    ([None] when the loop ran to its bound). *)
Fixpoint Insert_loop (iters : nat) (now : Z) (nd : Node.t) (prefixLen : nat)
    (root : routingTableNode) (rt : routingTable)
    : result (routingTableNode * routingTable * option bool) :=
  match iters with
  | O => Ok (root, rt, None)
  | S iters' =>
      bit ← ID_Bit nd (prefixLen - 1);
      match Child root bit with
      | Some next =>
          (* If next is not the leaf. *)
          '(next', rt, r) ← Insert_loop iters' now nd (S prefixLen) next rt;
          Ok (SetChild root bit (Some next'), rt, r)
      | None =>
          bucket ← bucket_deref (KBucket root);
          id ← Node.deref (Node.ID nd);
          if bool_decide (Z.of_nat (keyedDeque.Len (nodes bucket)) < k rt)%Z
             || keyedDeque.HasKey node_key (nodes bucket) (bitmap.RawString id)
          then
            '(isNew, bucket) ← kbucket_.Insert now bucket nd;
            let rt := set_cachedNodes rt
                        (<[net.String_ (Node.Address nd) := nd]> (cachedNodes rt)) in
            let rt := cache_bucket rt bucket in
            Ok (SetKBucket root (Some bucket), rt, Some isNew)
          else if bool_decide (bitmap.Compare (prefix bucket) id (prefixLen - 1) = 0%Z)
          then
            (* If node has the same prefix with bucket, split it. *)
            root ← Split now root;
            bucket ← bucket_deref (KBucket root);
            let rt := set_cachedKBuckets rt
                        (keyedDeque.Delete bitmap.String_ (cachedKBuckets rt)
                           (bitmap.String_ (prefix bucket))) in
            let root := SetKBucket root None in
            match Child root 0, Child root 1 with
            | Some c0, Some c1 =>
                b0 ← bucket_deref (KBucket c0);
                let rt := cache_bucket rt b0 in
                b1 ← bucket_deref (KBucket c1);
                let rt := cache_bucket rt b1 in
                match Child root bit with
                | Some next =>
                    '(next', rt, r) ← Insert_loop iters' now nd (S prefixLen) next rt;
                    Ok (SetChild root bit (Some next'), rt, r)
                | None => nil_dereference
                end
            | _, _ => nil_dereference
            end
          else
            (* Finally, store node as a candidate and fresh the bucket. *)
            let cands := keyedDeque.PushBack (candidates bucket) nd in
            let cands :=
              if bool_decide (Z.of_nat (keyedDeque.Len cands) > k rt)%Z
              then keyedDeque.RemoveFront cands else cands in
            let bucket := kbucket_.set_candidates bucket cands in
            Ok (SetKBucket root (Some bucket), add_freshed rt (prefix bucket), Some false)
      end
  end.

(** Insert adds a node to routing table. It returns whether the node is new
    in the routingtable. *)
Definition Insert (bl : blackList.t) (MaxNodes : Z) (now : Z)
    (rt : routingTable) (nd : Node.t) : result (bool * routingTable) :=
  if blackList.in_ bl (net.IP_String (net.IP_ (Node.Address nd)))
       (net.Port (Node.Address nd))
     || bool_decide (MaxNodes ≤ Z.of_nat (size (cachedNodes rt)))%Z
  then Ok (false, rt)
  else
    '(root', rt, r) ← Insert_loop maxPrefixLength now nd 1 (root rt) rt;
    Ok (default false r, set_root rt root').

(** The loop of [GetNodeKBucktByID]: the node found, with the path (child
    indices from the root) of the tree node whose bucket holds it. *)
Fixpoint GetNodeKBucktByID_loop (iters : nat) (id : bitmap.t) (prefixLen : nat)
    (root : routingTableNode) : result (option (Node.t * list nat)) :=
  match iters with
  | O => Ok None
  | S iters' =>
      let bit := bitmap.Bit id (prefixLen - 1) in
      match Child root bit with
      | None =>
          bucket ← bucket_deref (KBucket root);
          match keyedDeque.Get node_key (nodes bucket) (bitmap.RawString id) with
          | None => Ok None
          | Some nd => Ok (Some (nd, []))
          end
      | Some next =>
          r ← GetNodeKBucktByID_loop iters' id (S prefixLen) next;
          match r with
          | Some (nd, path) => Ok (Some (nd, bit :: path))
          | None => Ok None
          end
      end
  end.

(** GetNodeKBucktById returns node whose id is `id` and the bucket it
    belongs to. *)
Definition GetNodeKBucktByID (rt : routingTable) (id : option bitmap.t)
    : result (option (Node.t * list nat)) :=
  id ← Node.deref id;
  GetNodeKBucktByID_loop maxPrefixLength id 1 (root rt).

(** The tree node at a path. *)
Fixpoint node_at_path (path : list nat) (tn : routingTableNode)
    : option routingTableNode :=
  match path with
  | [] => Some tn
  | i :: path' => Child tn i ≫= node_at_path path'
  end.

(** A method call on the tree node reached through a path. *)
Fixpoint update_node (path : list nat)
    (f : routingTableNode → result routingTableNode)
    (tn : routingTableNode) : result routingTableNode :=
  match path with
  | [] => f tn
  | i :: path' =>
      match Child tn i with
      | Some c => c' ← update_node path' f c; Ok (SetChild tn i (Some c'))
      | None => nil_dereference
      end
  end.

(** A method call that updates the bucket reached through a path. *)
Definition update_bucket (path : list nat) (f : kbucket → result kbucket)
    (tn : routingTableNode) : result routingTableNode :=
  update_node path
    (λ tn, bucket ← bucket_deref (KBucket tn);
           bucket ← f bucket;
           Ok (SetKBucket tn (Some bucket))) tn.

(** GetNodeByAddress finds node by address. *)
Definition GetNodeByAddress (rt : routingTable) (address : string)
    : option Node.t :=
  cachedNodes rt !! address.

(** Remove deletes the node whose id is `id`. *)
Definition Remove (now : Z) (rt : routingTable) (id : option bitmap.t)
    : result routingTable :=
  found ← GetNodeKBucktByID rt id;
  match found with
  | Some (nd, path) =>
      root' ← update_bucket path (λ bucket, kbucket_.Replace now bucket nd) (root rt);
      let rt := set_root rt root' in
      let rt := set_cachedNodes rt
                  (base.delete (net.String_ (Node.Address nd)) (cachedNodes rt)) in
      match node_at_path path root' ≫= KBucket with
      | Some bucket => Ok (cache_bucket rt bucket)
      | None => nil_dereference
      end
  | None => Ok rt
  end.

(** Remove deletes the node whose address is `ip:port`. *)
Definition RemoveByAddr (now : Z) (rt : routingTable) (address : string)
    : result routingTable :=
  match cachedNodes rt !! address with
  | Some v => Remove now rt (Node.ID v)
  | None => Ok rt
  end.

(** GetNeighbors returns the size-length nodes closest to id.  The order in
    which Go ranges over the map is not specified; the embedding takes the
    order of [map_to_list]. *)
Definition GetNeighbors (rt : routingTable) (id : bitmap.t) (size : Z)
    : result (list Node.t) :=
  getTopK (snd <$> map_to_list (cachedNodes rt)) id size.

Fixpoint CompactNodeInfos (l : list Node.t) : result (list string) :=
  match l with
  | [] => Ok []
  | no :: l' =>
      info ← Node.CompactNodeInfo no;
      infos ← CompactNodeInfos l';
      Ok (info :: infos)
  end.

(** GetNeighborIds return the size-length compact node info closest to id. *)
Definition GetNeighborCompactInfos (rt : routingTable) (id : bitmap.t) (size : Z)
    : result (list string) :=
  neighbors ← GetNeighbors rt id size;
  CompactNodeInfos neighbors.

(** Len returns the number of nodes in table. *)
Definition Len (rt : routingTable) : nat := size (cachedNodes rt).

End routingTable_.

(** ** Queries and transactions *)

(** Query represents the query data included queried node and query-formed
    data. *)
Record Query := { q_Node : Node.t; q_Data : DHTQuery }.

(** Transaction implements transaction.  The [Response] channel carries no
    data; the signals received on it are an input of [query] below. *)
Record Transaction := { t_Query : Query; t_ID : string }.

(** Modelled from the spec: the bytes of [int2bytes], least significant
    first into the front of [acc], at most [n] of them. *)
Fixpoint int2bytes_go (n : nat) (val : N) (acc : list ascii) : list ascii :=
  match n with
  | O => acc
  | S n' =>
      if (val =? 0)%N then acc
      else int2bytes_go n' (val / 256)%N (ascii_of_N (val mod 256) :: acc)
  end.

(** Modelled from the spec: [int2bytes], whose source file is not among the
    sources: the big-endian bytes of the counter at their minimum width, one
    zero byte for zero. *)
Definition int2bytes (val : N) : string :=
  match int2bytes_go 8 val [] with
  | [] => String.String Ascii.zero ""
  | l => String.string_of_list_ascii l
  end.

Record transactionManager := {
  transactions : gmap string Transaction;
  index : gmap string Transaction;
  cursor : N;
  maxCursor : N;
  queryChan : list Query
}.

(** ** The DHT node *)

Definition StandardMode : Z := 0.
Definition CrawlMode : Z := 1.

(** The UDP socket: the datagrams written so far (as payloads, before their
    encoding), and for the writes to come whether each one fails. *)
Record UDPConn := {
  written : list (net.UDPAddr * payload);
  failures : list bool
}.

(** A call of one of the callbacks of the configuration. *)
Inductive hookCall : Type :=
  | GetPeersCall (infoHash ip : string) (port : Z)
  | AnnouncePeerCall (infoHash ip : string) (port : Z).

(** The [DHT] struct with the fields of its configuration that the embedded
    code reads. *)
Record DHT := {
  K : Z;
  MaxNodes : Z;
  Mode : Z;
  Try : Z;
  OnGetPeers : bool;      (* whether the callback is set *)
  OnAnnouncePeer : bool;
  node : Node.t;
  conn : UDPConn;
  routingTable_of : routingTable;
  transactionManager_of : transactionManager;
  peersManager_of : gmap string (list Peer);
  tokenManager_of : tokenManager.t;
  blackList_of : blackList.t;
  hookCalls : list hookCall
}.

Module DHT_.

Definition set_conn (dht : DHT) (c : UDPConn) : DHT :=
  {| K := K dht; MaxNodes := MaxNodes dht; Mode := Mode dht; Try := Try dht;
     OnGetPeers := OnGetPeers dht; OnAnnouncePeer := OnAnnouncePeer dht;
     node := node dht; conn := c; routingTable_of := routingTable_of dht;
     transactionManager_of := transactionManager_of dht;
     peersManager_of := peersManager_of dht;
     tokenManager_of := tokenManager_of dht;
     blackList_of := blackList_of dht; hookCalls := hookCalls dht |}.

Definition set_routingTable (dht : DHT) (rt : routingTable) : DHT :=
  {| K := K dht; MaxNodes := MaxNodes dht; Mode := Mode dht; Try := Try dht;
     OnGetPeers := OnGetPeers dht; OnAnnouncePeer := OnAnnouncePeer dht;
     node := node dht; conn := conn dht; routingTable_of := rt;
     transactionManager_of := transactionManager_of dht;
     peersManager_of := peersManager_of dht;
     tokenManager_of := tokenManager_of dht;
     blackList_of := blackList_of dht; hookCalls := hookCalls dht |}.

Definition set_transactionManager (dht : DHT) (tm : transactionManager) : DHT :=
  {| K := K dht; MaxNodes := MaxNodes dht; Mode := Mode dht; Try := Try dht;
     OnGetPeers := OnGetPeers dht; OnAnnouncePeer := OnAnnouncePeer dht;
     node := node dht; conn := conn dht; routingTable_of := routingTable_of dht;
     transactionManager_of := tm;
     peersManager_of := peersManager_of dht;
     tokenManager_of := tokenManager_of dht;
     blackList_of := blackList_of dht; hookCalls := hookCalls dht |}.

Definition set_peersManager (dht : DHT) (pm : gmap string (list Peer)) : DHT :=
  {| K := K dht; MaxNodes := MaxNodes dht; Mode := Mode dht; Try := Try dht;
     OnGetPeers := OnGetPeers dht; OnAnnouncePeer := OnAnnouncePeer dht;
     node := node dht; conn := conn dht; routingTable_of := routingTable_of dht;
     transactionManager_of := transactionManager_of dht;
     peersManager_of := pm;
     tokenManager_of := tokenManager_of dht;
     blackList_of := blackList_of dht; hookCalls := hookCalls dht |}.

Definition set_tokenManager (dht : DHT) (tm : tokenManager.t) : DHT :=
  {| K := K dht; MaxNodes := MaxNodes dht; Mode := Mode dht; Try := Try dht;
     OnGetPeers := OnGetPeers dht; OnAnnouncePeer := OnAnnouncePeer dht;
     node := node dht; conn := conn dht; routingTable_of := routingTable_of dht;
     transactionManager_of := transactionManager_of dht;
     peersManager_of := peersManager_of dht;
     tokenManager_of := tm;
     blackList_of := blackList_of dht; hookCalls := hookCalls dht |}.

Definition set_blackList (dht : DHT) (bl : blackList.t) : DHT :=
  {| K := K dht; MaxNodes := MaxNodes dht; Mode := Mode dht; Try := Try dht;
     OnGetPeers := OnGetPeers dht; OnAnnouncePeer := OnAnnouncePeer dht;
     node := node dht; conn := conn dht; routingTable_of := routingTable_of dht;
     transactionManager_of := transactionManager_of dht;
     peersManager_of := peersManager_of dht;
     tokenManager_of := tokenManager_of dht;
     blackList_of := bl; hookCalls := hookCalls dht |}.

Definition call_hook (dht : DHT) (c : hookCall) : DHT :=
  {| K := K dht; MaxNodes := MaxNodes dht; Mode := Mode dht; Try := Try dht;
     OnGetPeers := OnGetPeers dht; OnAnnouncePeer := OnAnnouncePeer dht;
     node := node dht; conn := conn dht; routingTable_of := routingTable_of dht;
     transactionManager_of := transactionManager_of dht;
     peersManager_of := peersManager_of dht;
     tokenManager_of := tokenManager_of dht;
     blackList_of := blackList_of dht; hookCalls := hookCalls dht ++ [c] |}.

(** Modelled from the spec: the mode tests of the [DHT] struct, whose source
    file is not among the sources. *)
Definition IsStandardMode (dht : DHT) : bool := bool_decide (Mode dht = StandardMode).

(** Modelled from the spec: the other mode test. *)
Definition IsCrawlMode (dht : DHT) : bool := bool_decide (Mode dht = CrawlMode).

(** Modelled from the spec: [id(target)] of the [DHT] struct: in crawl mode
    the first 15 bytes of the local id followed by the last 5 bytes of the
    target; in standard mode the local id. *)
Definition id (dht : DHT) (target : string) : result string :=
  raw ← Node.IDRawString (node dht);
  if IsStandardMode dht then Ok raw
  else Ok (String.substring 0 15 raw +:+
           String.substring (String.length target - 5) 5 target).

End DHT_.

(** send sends data to the udp.  The result tells whether the write failed. *)
Definition send `{DHTPayload A} (now : Z) (dht : DHT) (addr : net.UDPAddr) (q : A)
    : bool * DHT :=
  match failures (conn dht) with
  | true :: rest =>
      let dht := DHT_.set_conn dht {| written := written (conn dht); failures := rest |} in
      (true,
       DHT_.set_blackList dht
         (blackList.insert now (blackList_of dht) (net.IP_String (net.IP_ addr)) (-1)))
  | _ =>
      (false,
       DHT_.set_conn dht
         {| written := written (conn dht) ++ [(addr, ToPayload q)];
            failures := drop 1 (failures (conn dht)) |})
  end.

(** ** Parsing of decoded messages *)

(** ParseKey parses the key in dict data. `t` is type of the keyed value.
    It's one of "int", "string", "map", "list".  The error is [Some] of its
    message. *)
Definition ParseKey (data : payload) (key : string) (t : string)
    : result (option string) :=
  match data !! key with
  | None => Ok (Some "lack of key")
  | Some val =>
      ok ← (if bool_decide (t = "string") then
              Ok (match val with BStr _ => true | _ => false end)
            else if bool_decide (t = "int") then
              Ok (match val with BInt _ => true | _ => false end)
            else if bool_decide (t = "map") then
              Ok (match val with BDict _ => true | _ => false end)
            else if bool_decide (t = "list") then
              Ok (match val with BList _ => true | _ => false end)
            else Panic "invalid type" : result bool);
      if (ok : bool) then Ok None else Ok (Some "invalid key type")
  end.

(** ParseKeys parses keys. It just wraps ParseKey. *)
Fixpoint ParseKeys (data : payload) (pairs : list (string * string))
    : result (option string) :=
  match pairs with
  | [] => Ok None
  | (key, t) :: pairs' =>
      err ← ParseKey data key t;
      match err with
      | Some e => Ok (Some e)
      | None => ParseKeys data pairs'
      end
  end.

(** parseMessage parses the basic data received from udp. *)
Definition parseMessage (data : bval) : result (option payload) :=
  match data with
  | BDict response =>
      err ← ParseKeys response [("t", "string"); ("y", "string")];
      match err with
      | Some _ => Ok None
      | None => Ok (Some response)
      end
  | _ => Ok None
  end.

(** ** Handling of requests *)

Definition send_error (now : Z) (dht : DHT) (addr : net.UDPAddr)
    (transID : string) (errCode : Z) (errMsg : string) : DHT :=
  (send now dht addr (NewDHTErrorResponse transID errCode errMsg)).2.

Definition send_response (now : Z) (dht : DHT) (addr : net.UDPAddr)
    (transID : string) (args : payload) : DHT :=
  (send now dht addr (NewDHTQueryResponse transID args)).2.

(** The [switch] of [handleRequest].  The boolean tells whether control falls
    out of the switch ([true]) or the handler returns from inside it. *)
Definition handleRequest_switch (now : Z) (rnd : string) (dht : DHT)
    (addr : net.UDPAddr) (q : DHTQuery) (id : string) : result (bool * DHT) :=
  let t := q_TransactionID q in
  let ip := net.IP_String (net.IP_ addr) in
  if bool_decide (QueryType q = DHTQueryTypePing) then
    idr ← DHT_.id dht id;
    Ok (true, send_response now dht addr t {[ "id" := BStr idr ]})
  else if bool_decide (QueryType q = DHTQueryTypeFindNode) then
    if DHT_.IsStandardMode dht then
      err ← ParseKey (q_Arguments q) "target" "string";
      match err with
      | Some e => Ok (false, send_error now dht addr t protocolError e)
      | None =>
          target ← assert_string (q_Arguments q !! "target");
          if bool_decide (String.length target ≠ 20) then
            Ok (false, send_error now dht addr t protocolError "invalid target")
          else
            let targetID := bitmap.newBitmapFromString target in
            found ← routingTable_.GetNodeKBucktByID (routingTable_of dht) (Some targetID);
            nodes ← match found with
                    | Some (no, _) => Node.CompactNodeInfo no
                    | None =>
                        infos ← routingTable_.GetNeighborCompactInfos
                                  (routingTable_of dht) targetID (K dht);
                        Ok (String.concat "" infos)
                    end;
            idr ← DHT_.id dht target;
            Ok (true, send_response now dht addr t
                        (<["id" := BStr idr]> {[ "nodes" := BStr nodes ]}))
      end
    else Ok (true, dht)
  else if bool_decide (QueryType q = DHTQueryTypeGetPeers) then
    err ← ParseKey (q_Arguments q) "info_hash" "string";
    match err with
    | Some e => Ok (false, send_error now dht addr t protocolError e)
    | None =>
        infoHash ← assert_string (q_Arguments q !! "info_hash");
        if bool_decide (String.length infoHash ≠ 20) then
          Ok (false, send_error now dht addr t protocolError "invalid info_hash")
        else
          dht ←
            (if DHT_.IsCrawlMode dht then
               idr ← DHT_.id dht infoHash;
               let '(tk, tm) := tokenManager.token_ now rnd (tokenManager_of dht) addr in
               let dht := DHT_.set_tokenManager dht tm in
               Ok (send_response now dht addr t
                     (<["id" := BStr idr]>
                      (<["token" := BStr tk]> {[ "nodes" := BStr "" ]})))
             else
               peers ← peersManager.GetPeers (peersManager_of dht) infoHash (K dht);
               if bool_decide (0 < length peers)%nat then
                 let values := (λ p, BStr (Peer_CompactIPPortInfo p)) <$> peers in
                 idr ← DHT_.id dht infoHash;
                 let '(tk, tm) := tokenManager.token_ now rnd (tokenManager_of dht) addr in
                 let dht := DHT_.set_tokenManager dht tm in
                 Ok (send_response now dht addr t
                       (<["id" := BStr idr]>
                        (<["values" := BList values]> {[ "token" := BStr tk ]})))
               else
                 idr ← DHT_.id dht infoHash;
                 let '(tk, tm) := tokenManager.token_ now rnd (tokenManager_of dht) addr in
                 let dht := DHT_.set_tokenManager dht tm in
                 infos ← routingTable_.GetNeighborCompactInfos (routingTable_of dht)
                           (bitmap.newBitmapFromString infoHash) (K dht);
                 Ok (send_response now dht addr t
                       (<["id" := BStr idr]>
                        (<["token" := BStr tk]>
                         {[ "nodes" := BStr (String.concat "" infos) ]})))
             : result DHT);
          let dht :=
            if OnGetPeers dht
            then DHT_.call_hook dht (GetPeersCall infoHash ip (net.Port addr))
            else dht in
          Ok (true, dht)
    end
  else if bool_decide (QueryType q = DHTQueryTypeAnnouncePeer) then
    err ← ParseKeys (q_Arguments q)
            [("info_hash", "string"); ("port", "int"); ("token", "string")];
    match err with
    | Some e => Ok (false, send_error now dht addr t protocolError e)
    | None =>
        infoHash ← assert_string (q_Arguments q !! "info_hash");
        port ← assert_int (q_Arguments q !! "port");
        token ← assert_string (q_Arguments q !! "token");
        let '(valid, tm) := tokenManager.check (tokenManager_of dht) addr token in
        let dht := DHT_.set_tokenManager dht tm in
        if negb valid then Ok (false, dht) else
        port ← match q_Arguments q !! "implied_port" with
               | Some impliedPort =>
                   impliedPort ← assert_int (Some impliedPort);
                   if bool_decide (impliedPort ≠ 0%Z) then Ok (net.Port addr) else Ok port
               | None => Ok port
               end;
        dht ←
          (if DHT_.IsStandardMode dht then
             let dht := DHT_.set_peersManager dht
                          (peersManager.Insert (K dht) (peersManager_of dht) infoHash
                             (NewPeer (net.IP_ addr) port token)) in
             idr ← DHT_.id dht id;
             Ok (send_response now dht addr t {[ "id" := BStr idr ]})
           else Ok dht : result DHT);
        let dht :=
          if OnAnnouncePeer dht
          then DHT_.call_hook dht (AnnouncePeerCall infoHash ip port)
          else dht in
        Ok (true, dht)
    end
  else Ok (false, dht).

(** handleRequest handles the requests received from udp. *)
Definition handleRequest (now : Z) (rnd : string) (dht : DHT)
    (addr : net.UDPAddr) (payload : payload) : result (bool * DHT) :=
  q ← NewDHTQueryFromPayload payload;
  err ← ParseKeys payload [("q", "string"); ("a", "map")];
  match err with
  | Some e => Ok (false, send_error now dht addr (q_TransactionID q) protocolError e)
  | None =>
  err ← ParseKey (q_Arguments q) "id" "string";
  match err with
  | Some e => Ok (false, send_error now dht addr (q_TransactionID q) protocolError e)
  | None =>
  id ← assert_string (q_Arguments q !! "id");
  self ← Node.IDRawString (node dht);
  if bool_decide (id = self) then Ok (false, dht) else
  if bool_decide (String.length id ≠ 20) then
    Ok (false, send_error now dht addr (q_TransactionID q) protocolError "invalid id")
  else
  differs ← match routingTable_.GetNodeByAddress (routingTable_of dht)
                    (net.String_ addr) with
            | Some no => raw ← Node.IDRawString no; Ok (bool_decide (raw ≠ id))
            | None => Ok false
            end;
  if (differs : bool) then
    let dht := DHT_.set_blackList dht
                 (blackList.insert now (blackList_of dht)
                    (net.IP_String (net.IP_ addr)) (net.Port addr)) in
    rt ← routingTable_.RemoveByAddr now (routingTable_of dht) (net.String_ addr);
    let dht := DHT_.set_routingTable dht rt in
    Ok (false, send_error now dht addr (q_TransactionID q) protocolError "invalid id")
  else
  '(continue, dht) ← handleRequest_switch now rnd dht addr q id;
  if (continue : bool) then
    let no := Node.NewNode now id addr in
    '(_, rt) ← routingTable_.Insert (blackList_of dht) (MaxNodes dht) now
                 (routingTable_of dht) no;
    Ok (true, DHT_.set_routingTable dht rt)
  else Ok (false, dht)
  end
  end.

(** ** Transaction manager *)

(** What a query driver sees while it waits after a send: the response
    signal, or the 15 second timer. *)
Inductive signal : Type :=
  | Responded
  | TimedOut.

Module transactionManager_.

Definition set_maps (tm : transactionManager)
    (ts ix : gmap string Transaction) : transactionManager :=
  {| transactions := ts; index := ix; cursor := cursor tm;
     maxCursor := maxCursor tm; queryChan := queryChan tm |}.

Definition set_queryChan (tm : transactionManager) (c : list Query)
    : transactionManager :=
  {| transactions := transactions tm; index := index tm; cursor := cursor tm;
     maxCursor := maxCursor tm; queryChan := c |}.

(** newTransactionManager returns new transactionManager pointer. *)
Definition newTransactionManager (maxCursor : N) : transactionManager :=
  {| transactions := ∅; index := ∅; cursor := 0; maxCursor := maxCursor;
     queryChan := [] |}.

(** genTransID generates a transaction id and returns it.  The cursor is a
    [uint64]. *)
Definition genTransID (tm : transactionManager)
    : result (string * transactionManager) :=
  if (maxCursor tm =? 0)%N then Panic "integer divide by zero" else
  let c := (((cursor tm + 1) mod 2 ^ 64) mod maxCursor tm)%N in
  Ok (int2bytes c,
      {| transactions := transactions tm; index := index tm; cursor := c;
         maxCursor := maxCursor tm; queryChan := queryChan tm |}).

(** newTransaction creates a new transaction. *)
Definition newTransaction (id : string) (q : Query) : Transaction :=
  {| t_Query := q; t_ID := id |}.

(** genIndexKey generates an indexed key which consists of queryType and
    address. *)
Definition genIndexKey (queryType : DHTQueryType) (address : string) : string :=
  queryType +:+ ":" +:+ address.

(** genIndexKeyByTrans generates an indexed key by a transaction. *)
Definition genIndexKeyByTrans (trans : Transaction) : string :=
  genIndexKey (QueryType (q_Data (t_Query trans)))
    (net.String_ (Node.Address (q_Node (t_Query trans)))).

(** insert adds a transaction to transactionManager. *)
Definition insert (tm : transactionManager) (trans : Transaction)
    : transactionManager :=
  set_maps tm
    (<[t_ID trans := trans]> (transactions tm))
    (<[genIndexKeyByTrans trans := trans]> (index tm)).

(** delete removes a transaction from transactionManager. *)
Definition delete (tm : transactionManager) (transID : string)
    : transactionManager :=
  match transactions tm !! transID with
  | None => tm
  | Some trans =>
      set_maps tm
        (base.delete (t_ID trans) (transactions tm))
        (base.delete (genIndexKeyByTrans trans) (index tm))
  end.

(** len returns how many transactions are requesting now. *)
Definition len (tm : transactionManager) : nat := size (transactions tm).

(** transaction returns a transaction. keyType should be one of 0, 1 which
    represents transId and index each. *)
Definition transaction (tm : transactionManager) (key : string) (keyType : Z)
    : option Transaction :=
  let sm := if bool_decide (keyType = 1%Z) then index tm else transactions tm in
  sm !! key.

Definition getByTransID (tm : transactionManager) (transID : string)
    : option Transaction := transaction tm transID 0.

Definition getByIndex (tm : transactionManager) (index : string)
    : option Transaction := transaction tm index 1.

(** transaction gets the proper transaction with whose id is transId and
    address is addr. *)
Definition filterOne (tm : transactionManager) (transID : string)
    (addr : net.UDPAddr) : option Transaction :=
  match getByTransID tm transID with
  | Some trans =>
      if bool_decide (net.String_ (Node.Address (q_Node (t_Query trans)))
                      ≠ net.String_ addr)
      then None else Some trans
  | None => None
  end.

(** The loop of [query].  [n] counts the attempts left and [waits] holds
    what each [select] to come receives (a timer once the list is used
    up).  The [break] in the response case leaves the [select]; the
    [break] after a failed send leaves the loop. *)
Fixpoint query_loop (n : nat) (now : Z) (dht : DHT) (q : Query)
    (waits : list signal) (success : bool) : bool * DHT :=
  match n with
  | O => (success, dht)
  | S n' =>
      let '(err, dht) := send now dht (Node.Address (q_Node q)) (q_Data q) in
      if (err : bool) then (success, dht)
      else
        match waits with
        | Responded :: waits' => query_loop n' now dht q waits' true
        | TimedOut :: waits' => query_loop n' now dht q waits' success
        | [] => query_loop n' now dht q [] success
        end
  end.

(** query sends the query-formed data to udp and wait for the response.
    When timeout, it will retry `try - 1` times, which means it will query
    `try` times totally. *)
Definition query (now : Z) (dht : DHT) (q : Query) (try : Z)
    (waits : list signal) : result DHT :=
  let transID := q_TransactionID (q_Data q) in
  let trans := newTransaction transID q in
  let dht := DHT_.set_transactionManager dht
               (insert (transactionManager_of dht) trans) in
  let '(success, dht) := query_loop (Z.to_nat try) now dht q waits false in
  dht ←
    (if negb success && bool_decide (is_Some (Node.ID (q_Node q))) then
       let dht := DHT_.set_blackList dht
                    (blackList.insert now (blackList_of dht)
                       (net.IP_String (net.IP_ (Node.Address (q_Node q))))
                       (net.Port (Node.Address (q_Node q)))) in
       rt ← routingTable_.RemoveByAddr now (routingTable_of dht)
              (net.String_ (Node.Address (q_Node q)));
       Ok (DHT_.set_routingTable dht rt)
     else Ok dht : result DHT);
  (* the deferred call *)
  Ok (DHT_.set_transactionManager dht
        (delete (transactionManager_of dht) (t_ID trans))).

(** sendQuery send query-formed data to the chan.  The channel holds up to
    1024 queries and [run] receives from it for as long as it runs, so a
    send on it waits at most until [run] has taken a query: the queue is
    kept as a list and the send goes through. *)
Definition sendQuery (dht : DHT) (no : Node.t) (queryType : DHTQueryType)
    (a : payload) : result DHT :=
  let tm := transactionManager_of dht in
  (* If the target is self, then stop. *)
  self ← match Node.ID no with
         | Some _ =>
             raw ← Node.IDRawString no;
             own ← Node.IDRawString (node dht);
             Ok (bool_decide (raw = own))
         | None => Ok false
         end;
  if (self : bool)
     || bool_decide (is_Some (getByIndex tm
                                (genIndexKey queryType (net.String_ (Node.Address no)))))
     || blackList.in_ (blackList_of dht)
          (net.IP_String (net.IP_ (Node.Address no))) (net.Port (Node.Address no))
  then Ok dht
  else
    '(transID, tm) ← genTransID tm;
    Ok (DHT_.set_transactionManager dht
          (set_queryChan tm
             (queryChan tm ++ [{| q_Node := no;
                                  q_Data := NewDHTQuery transID queryType a |}]))).

(** [run] takes the next query from the channel and starts [query] on it,
    which begins by inserting the transaction. *)
Definition start_query (tm : transactionManager) : transactionManager :=
  match queryChan tm with
  | [] => tm
  | q :: rest =>
      insert (set_queryChan tm rest)
        (newTransaction (q_TransactionID (q_Data q)) q)
  end.

End transactionManager_.

(** *** Live transactions *)

(** Two transactions filed under different ids and addressed to the same
    remote address have different query types. *)
Definition live_distinct (tm : transactionManager) : Prop :=
  ∀ id1 id2 t1 t2,
    id1 ≠ id2 →
    transactions tm !! id1 = Some t1 →
    transactions tm !! id2 = Some t2 →
    Node.Address (q_Node (t_Query t1)) = Node.Address (q_Node (t_Query t2)) →
    QueryType (q_Data (t_Query t1)) ≠ QueryType (q_Data (t_Query t2)).

(** The managers built from the empty one by [sendQuery], by the start of
    the queued queries and by [delete], in any order. *)
Inductive tm_reachable : transactionManager → Prop :=
  | tmr_new maxCursor :
      tm_reachable (transactionManager_.newTransactionManager maxCursor)
  | tmr_sendQuery dht no queryType a dht' :
      tm_reachable (transactionManager_of dht) →
      transactionManager_.sendQuery dht no queryType a = Ok dht' →
      tm_reachable (transactionManager_of dht')
  | tmr_start tm :
      tm_reachable tm →
      tm_reachable (transactionManager_.start_query tm)
  | tmr_delete tm transID :
      tm_reachable tm →
      tm_reachable (transactionManager_.delete tm transID).

(** The same, when every query that [sendQuery] puts on the channel is
    started before the next call of [sendQuery]. *)
Inductive tm_reachable_serial : transactionManager → Prop :=
  | tms_new maxCursor :
      tm_reachable_serial (transactionManager_.newTransactionManager maxCursor)
  | tms_sendQuery dht no queryType a dht' :
      tm_reachable_serial (transactionManager_of dht) →
      transactionManager_.sendQuery dht no queryType a = Ok dht' →
      tm_reachable_serial
        (transactionManager_.start_query (transactionManager_of dht'))
  | tms_delete tm transID :
      tm_reachable_serial tm →
      tm_reachable_serial (transactionManager_.delete tm transID).

(** What holds of the two maps when queries are started one at a time. *)
Definition tm_indexed (tm : transactionManager) : Prop :=
  queryChan tm = [] ∧
  ∀ id t, transactions tm !! id = Some t →
    t_ID t = id ∧ index tm !! transactionManager_.genIndexKeyByTrans t = Some t.

(** ** The prefix invariant of the routing table *)

(** The branch taken for a bit of the id. *)
Definition branch (bit : nat) : bool :=
  match bit with
  | O => false
  | _ => true
  end.

(** The node has an id, and the id has the bits of [p] as its first bits. *)
Definition shares_prefix (p : bitmap.t) (nd : Node.t) : Prop :=
  ∃ i, Node.id nd = Some i ∧
       ∀ j, (j < bitmap.Size p)%nat → bitmap.Bit i j = bitmap.Bit p j.

(** A bucket of the tree node reached from the root by the branches [path]:
    its prefix is the path, and its nodes and candidates share it. *)
Definition bucket_ok (path : bitmap.t) (b : kbucket) : Prop :=
  prefix b = path ∧
  Forall (shares_prefix path) (nodes b) ∧
  Forall (shares_prefix path) (candidates b).

(** Every bucket of the tree is as above, and a tree node whose bucket has
    been released has both children. *)
Fixpoint tree_ok (path : bitmap.t) (tn : routingTableNode) : Prop :=
  let 'TableNode c0 c1 b := tn in
  match b with
  | Some b => bucket_ok path b
  | None => is_Some c0 ∧ is_Some c1
  end ∧
  match c0 with Some c => tree_ok (path ++ [false]) c | None => True end ∧
  match c1 with Some c => tree_ok (path ++ [true]) c | None => True end.

(** The node cache files every node under its own address, and every cached
    node has an id. *)
Definition cache_ok (m : gmap string Node.t) : Prop :=
  ∀ a n, m !! a = Some n →
    is_Some (Node.id n) ∧ net.String_ (Node.Address n) = a.

Definition rt_ok (rt : routingTable) : Prop :=
  tree_ok [] (root rt) ∧ cache_ok (cachedNodes rt).

(** The bucket of the tree node at [p] holds [nd], and is sound. *)
Definition holds_at (root : routingTableNode) (p : list nat) (nd : Node.t) : Prop :=
  ∃ tn b q, routingTable_.node_at_path p root = Some tn ∧
            routingTableNode_.KBucket tn = Some b ∧
            nd ∈ nodes b ∧ bucket_ok q b.

(** The buckets of the leaves (the tree nodes without children). *)
Inductive leaf_bucket : routingTableNode → kbucket → Prop :=
  | leaf_here b :
      leaf_bucket (TableNode None None (Some b)) b
  | leaf_child0 c0 c1 b bk :
      leaf_bucket c0 bk → leaf_bucket (TableNode (Some c0) c1 b) bk
  | leaf_child1 c0 c1 b bk :
      leaf_bucket c1 bk → leaf_bucket (TableNode c0 (Some c1) b) bk.

(** The tables that [Insert], [Remove], [RemoveByAddr] and [Split] (on any
    tree node) build from the empty table, whatever the blacklist, the node
    limit and the clock are at each call. *)
Inductive reachable : routingTable → Prop :=
  | reach_new now k :
      reachable (routingTable_.newRoutingTable now k)
  | reach_Insert rt bl MaxNodes now nd isNew rt' :
      reachable rt →
      routingTable_.Insert bl MaxNodes now rt nd = Ok (isNew, rt') →
      reachable rt'
  | reach_Remove rt now id rt' :
      reachable rt →
      routingTable_.Remove now rt id = Ok rt' →
      reachable rt'
  | reach_RemoveByAddr rt now address rt' :
      reachable rt →
      routingTable_.RemoveByAddr now rt address = Ok rt' →
      reachable rt'
  | reach_Split rt now path root' :
      reachable rt →
      routingTable_.update_node path (routingTableNode_.Split now) (root rt) = Ok root' →
      reachable (routingTable_.set_root rt root').

(** ** Concrete inputs used in the examples below *)

Definition tm_example : tokenManager.t :=
  {| tokenManager.table := {[ "192.0.2.7" := {| data := "abcde"; createTime := 5 |} ]};
     tokenManager.expiredAfter := 600 |}.

Definition addr_example : net.UDPAddr :=
  {| net.IP_ := [192; 0; 2; 7]%N; net.Port := 6881 |}.

(** A 160 bit id whose last byte is [n] and whose other bytes are zero. *)
Definition id_of_byte (n : N) : bitmap.t :=
  replicate 152 false ++ bitmap.byte_bits (ascii_of_N n).

Definition node_at (n : N) (port : Z) : Node.t :=
  {| Node.id := Some (id_of_byte n);
     Node.address := {| net.IP_ := [192; 0; 2; n]%N; net.Port := port |};
     Node.lastActiveTime := 0 |}.

(** A node in standard mode with the defaults of [NewStandardConfig], nothing
    learnt yet and no write failure ahead. *)
Definition dht_example : DHT :=
  {| K := 8; MaxNodes := 5000; Mode := StandardMode; Try := 2;
     OnGetPeers := false; OnAnnouncePeer := false;
     node := node_at 9 6880;
     conn := {| written := []; failures := [] |};
     routingTable_of := routingTable_.newRoutingTable 0 8;
     transactionManager_of := transactionManager_.newTransactionManager 4294967295;
     peersManager_of := ∅;
     tokenManager_of := tokenManager.newTokenManager 600;
     blackList_of := blackList.newBlackList 65536;
     hookCalls := [] |}.

(** The state after two [ping] calls of [sendQuery] for the same node, made
    before the first of the two queries is started. *)
Definition ping_query (transID : string) : Query :=
  {| q_Node := node_at 7 6881;
     q_Data := NewDHTQuery transID DHTQueryTypePing ∅ |}.

Definition tm_two_queued : transactionManager :=
  {| transactions := ∅; index := ∅; cursor := 2; maxCursor := 4294967295;
     queryChan := [ping_query (int2bytes 1); ping_query (int2bytes 2)] |}.

Definition tm_one_queued : transactionManager :=
  {| transactions := ∅; index := ∅; cursor := 1; maxCursor := 4294967295;
     queryChan := [ping_query (int2bytes 1)] |}.

(** The two transactions that are live once both queued queries are
    started. *)
Definition ping_transaction (n : N) : Transaction :=
  transactionManager_.newTransaction (int2bytes n) (ping_query (int2bytes n)).

(** Request payloads, as [parseMessage] lets them through: [t] and [y] are
    strings. *)
Definition id_a : string := "aaaaaaaaaaaaaaaaaaaa".
Definition id_b : string := "bbbbbbbbbbbbbbbbbbbb".

Definition request (q : bval) (a : bval) : payload :=
  <["t" := BStr "aa"]> (<["y" := BStr "q"]> (<["q" := q]> {[ "a" := a ]})).

(** [a] is an integer. *)
Definition payload_bad_a : payload := request (BStr "ping") (BInt 0).

(** [q] is absent. *)
Definition payload_no_q : payload :=
  <["t" := BStr "aa"]> (<["y" := BStr "q"]> {[ "a" := BDict {[ "id" := BStr id_a ]} ]}).

(** [q] is an integer. *)
Definition payload_q_int : payload := request (BInt 1) (BDict {[ "id" := BStr id_a ]}).

(** An [announce_peer] with a valid token whose [implied_port] is a string. *)
Definition payload_implied_port_string : payload :=
  request (BStr "announce_peer")
    (BDict (<["id" := BStr id_a]>
            (<["info_hash" := BStr id_b]>
            (<["port" := BInt 6881]>
            (<["token" := BStr "abcde"]>
            {[ "implied_port" := BStr "1" ]}))))).

Definition dht_with_token : DHT := DHT_.set_tokenManager dht_example tm_example.

(** The state after the error reply to [payload_bad_a]. *)
Definition dht_replied_203 : DHT :=
  DHT_.set_conn dht_example
    {| written := [(addr_example,
                    ToPayload (NewDHTErrorResponse "aa" 203 "invalid key type"))];
       failures := [] |}.

(** The state once [addr_example] has sent a [ping] under the id [id_a]. *)
Definition ping_from (id : string) : payload :=
  request (BStr "ping") (BDict {[ "id" := BStr id ]}).


(** A table with buckets of two nodes, after three nodes whose ids start
    with the bits 0, 1 and 01: the third one splits the root. *)
Definition id_of_first_byte (n : N) : bitmap.t :=
  bitmap.byte_bits (ascii_of_N n) ++ replicate 152 false.

Definition node_first (n : N) : Node.t :=
  {| Node.id := Some (id_of_first_byte n);
     Node.address := {| net.IP_ := [198; 51; 100; n]%N; net.Port := 6881 |};
     Node.lastActiveTime := 0 |}.

Definition insert_all (rt : routingTable) (nds : list Node.t) : routingTable :=
  foldl (λ rt nd,
           match routingTable_.Insert (blackList.newBlackList 8) 5000 0 rt nd with
           | Ok (_, rt') => rt'
           | _ => rt
           end) rt nds.

Definition rt_split : routingTable :=
  insert_all (routingTable_.newRoutingTable 0 2)
    [node_first 0; node_first 128; node_first 64].

Definition bucket_left : kbucket :=
  {| nodes := [node_first 0; node_first 64]; candidates := [];
     lastChanged := 0; prefix := [false] |}.

Definition bucket_right : kbucket :=
  {| nodes := [node_first 128]; candidates := [];
     lastChanged := 0; prefix := [true] |}.

(** Three cached nodes at XOR distances 5, 1 and 3 from the zero id. *)
Definition node_id_at (i n : N) : Node.t :=
  {| Node.id := Some (id_of_byte i);
     Node.address := {| net.IP_ := [192; 0; 2; n]%N; net.Port := 6881 |};
     Node.lastActiveTime := 0 |}.

Definition rt_three : routingTable :=
  insert_all (routingTable_.newRoutingTable 0 8)
    [node_id_at 5 3; node_id_at 1 5; node_id_at 3 1].



(** ** Further embedded code *)

(** One round of the loop of [tokenManager.clear]: the keys of the expired
    tokens are collected, then deleted.  The embedded [syncedMap] is not
    among the sources: its [Iter] is taken to visit every entry and its
    [DeleteMulti] to delete every collected key.  [now] stands for the
    clock readings of the round, taken as one instant. *)
Definition tokenManager_clear_round (now : Z) (tm : tokenManager.t)
    : tokenManager.t :=
  let keys :=
    (filter (λ item : string * token,
               (now - createTime item.2 > tokenManager.expiredAfter tm)%Z)
            (map_to_list (tokenManager.table tm))).*1 in
  {| tokenManager.table := foldr base.delete (tokenManager.table tm) keys;
     tokenManager.expiredAfter := tokenManager.expiredAfter tm |}.

(** The type name under which [ParseKey] accepts a decoded value. *)
Definition type_name (v : bval) : string :=
  match v with
  | BInt _ => "int"
  | BStr _ => "string"
  | BList _ => "list"
  | BDict _ => "map"
  end.

(** The type names that the [switch] of [ParseKey] knows. *)
Definition known_type (t : string) : Prop :=
  t ∈ ["string"; "int"; "map"; "list"].

(** The key of the pair is bound to a value of the type of the pair. *)
Definition has_key_of_type (data : payload) (pair : string * string) : Prop :=
  ∃ v, data !! pair.1 = Some v ∧ type_name v = pair.2.

(** The peer index after a sequence of [Insert] calls on the empty one. *)
Definition pm_after (K : Z) (ops : list (string * Peer)) : peersManager.t :=
  foldl (λ pm op, peersManager.Insert K pm op.1 op.2) ∅ ops.

(** No peer list is longer than [K], and none files two peers under the
    same compact endpoint. *)
Definition peers_bounded (K : Z) (pm : peersManager.t) : Prop :=
  ∀ h l, pm !! h = Some l →
    (Z.of_nat (length l) ≤ K)%Z ∧ NoDup (Peer_CompactIPPortInfo <$> l).

(** Bit [i] of the id of a node. *)
Definition node_bit (i : nat) (nd : Node.t) : nat :=
  bitmap.Bit (default [] (Node.id nd)) i.

(** No bucket of the tree holds a candidate. *)
Fixpoint no_candidates (tn : routingTableNode) : Prop :=
  let 'TableNode c0 c1 b := tn in
  match b with Some b => candidates b = [] | None => True end ∧
  match c0 with Some c => no_candidates c | None => True end ∧
  match c1 with Some c => no_candidates c | None => True end.

(** An [announce_peer] with the token of [tm_example] and an
    [implied_port] of 1, and a request of a type that is not a KRPC query. *)
Definition payload_announce : payload :=
  request (BStr "announce_peer")
    (BDict (<["id" := BStr id_a]>
            (<["info_hash" := BStr id_b]>
            (<["port" := BInt 1234]>
            (<["token" := BStr "abcde"]>
            {[ "implied_port" := BInt 1 ]}))))).

Definition payload_vote : payload :=
  request (BStr "vote") (BDict {[ "id" := BStr id_a ]}).

(** *** Responses, errors and the dispatch of packets *)

(** The code that the handlers of responses and packets call and that is not
    among the sources, as functions that the embedding does not fix: the
    decoder of compact endpoints (its results, with whether its error is
    set), [genAddress], Go's [net.ResolveUDPAddr] at the network of the
    node ([None] when it fails), and the bencode decoder ([None] when it
    fails). *)
Class Codec := {
  decodeCompactIPPortInfo : string → net.IP * Z * bool;
  genAddress : string → Z → string;
  ResolveUDPAddr : string → option net.UDPAddr;
  Decode : string → option bval
}.

(** [v.(map[string]interface{})] and [v.([]interface{})], in the panicking
    form. *)
Definition assert_map (v : option bval) : result payload :=
  match v with
  | Some (BDict d) => Ok d
  | _ => Panic "interface conversion: interface {} is not map[string]interface {}"
  end.

Definition assert_list (v : option bval) : result (list bval) :=
  match v with
  | Some (BList l) => Ok l
  | _ => Panic "interface conversion: interface {} is not []interface {}"
  end.

(** [NewNodeNetworkAddress]; [None] is the nil node returned with an
    error. *)
Definition NewNodeNetworkAddress `{Codec} (now : Z) (id address : string)
    : option Node.t :=
  if bool_decide (String.length id ≠ 20%nat) then None else
  match ResolveUDPAddr address with
  | None => None
  | Some addr =>
      Some {| Node.id := Some (bitmap.newBitmapFromString id);
              Node.address := addr;
              Node.lastActiveTime := now |}
  end.

(** NewNodeFromCompactInfo parses compactNodeInfo and returns a node
    pointer.  The error of the decoder is dropped. *)
Definition NewNodeFromCompactInfo `{Codec} (now : Z) (compactNodeInfo : string)
    : option Node.t :=
  if bool_decide (String.length compactNodeInfo ≠ 26%nat) then None else
  let id := String.substring 0 20 compactNodeInfo in
  let '(ip, port, _) :=
    decodeCompactIPPortInfo
      (String.substring 20 (String.length compactNodeInfo - 20) compactNodeInfo) in
  NewNodeNetworkAddress now id (genAddress (net.IP_String ip) port).

Definition NewPeerFromCompactIPPortInfo `{Codec} (compactInfo token : string)
    : option Peer :=
  let '(ip, port, err) := decodeCompactIPPortInfo compactInfo in
  if (err : bool) then None else Some (NewPeer ip port token).

(** ping sends ping query to the chan. *)
Definition ping (dht : DHT) (no : Node.t) : result DHT :=
  raw ← Node.IDRawString no;
  idr ← DHT_.id dht raw;
  transactionManager_.sendQuery dht no DHTQueryTypePing {[ "id" := BStr idr ]}.

(** findNode sends find_node query to the chan. *)
Definition findNode (dht : DHT) (no : Node.t) (target : string) : result DHT :=
  idr ← DHT_.id dht target;
  transactionManager_.sendQuery dht no DHTQueryTypeFindNode
    (<["id" := BStr idr]> {[ "target" := BStr target ]}).

(** getPeers sends get_peers query to the chan. *)
Definition getPeers (dht : DHT) (no : Node.t) (infoHash : string) : result DHT :=
  idr ← DHT_.id dht infoHash;
  transactionManager_.sendQuery dht no DHTQueryTypeGetPeers
    (<["id" := BStr idr]> {[ "info_hash" := BStr infoHash ]}).

(** announcePeer sends announce_peer query to the chan. *)
Definition AnnouncePeer (dht : DHT) (no : Node.t) (infoHash : string)
    (impliedPort port : Z) (token : string) : result DHT :=
  raw ← Node.IDRawString no;
  idr ← DHT_.id dht raw;
  transactionManager_.sendQuery dht no DHTQueryTypeAnnouncePeer
    (<["id" := BStr idr]>
     (<["info_hash" := BStr infoHash]>
     (<["implied_port" := BInt impliedPort]>
     (<["port" := BInt port]> {[ "token" := BStr token ]})))).

(** The first loop of [findOn], over the [n] compact node infos from index
    [i] on: a method call on the nil node that a failed
    [NewNodeFromCompactInfo] leaves panics. *)
Fixpoint findOn_insert `{Codec} (n i : nat) (now : Z) (dht : DHT) (nodes : string)
    (target : bitmap.t) (hasNew found : bool) : result (bool * bool * DHT) :=
  match n with
  | O => Ok (hasNew, found, dht)
  | S n' =>
      match NewNodeFromCompactInfo now (String.substring (i * 26) 26 nodes) with
      | None => nil_dereference
      | Some no =>
          raw ← Node.IDRawString no;
          let found := found || bool_decide (raw = bitmap.RawString target) in
          '(isNew, rt) ← routingTable_.Insert (blackList_of dht) (MaxNodes dht) now
                            (routingTable_of dht) no;
          let dht := DHT_.set_routingTable dht rt in
          findOn_insert n' (S i) now dht nodes target (hasNew || isNew) found
      end
  end.

(** The second loop of [findOn], over the neighbours. *)
Fixpoint findOn_query (dht : DHT) (neighbors : list Node.t) (targetID : string)
    (queryType : DHTQueryType) : result DHT :=
  match neighbors with
  | [] => Ok dht
  | no :: rest =>
      dht ← (if bool_decide (queryType = DHTQueryTypeFindNode)
             then findNode dht no targetID
             else if bool_decide (queryType = DHTQueryTypeGetPeers)
             then getPeers dht no targetID
             else Panic "invalid find type" : result DHT);
      findOn_query dht rest targetID queryType
  end.

(** findOn puts nodes in the response to the routingTable, then if target
    is in the nodes or all nodes are in the routingTable, it stops.
    Otherwise it continues to findNode or getPeers.  The error is [Some] of
    its message. *)
Definition findOn `{Codec} (now : Z) (dht : DHT) (r : payload) (target : bitmap.t)
    (queryType : DHTQueryType) : result (option string * DHT) :=
  err ← ParseKey r "nodes" "string";
  match err with
  | Some e => Ok (Some e, dht)
  | None =>
      nodes ← assert_string (r !! "nodes");
      if bool_decide (String.length nodes `mod` 26 ≠ 0)%nat then
        Ok (Some "the length of nodes should can be divided by 26", dht)
      else
        '(hasNew, found, dht) ←
          findOn_insert (String.length nodes / 26) 0 now dht nodes target false false;
        if (found : bool) || negb hasNew then Ok (None, dht) else
        let targetID := bitmap.RawString target in
        neighbors ← routingTable_.GetNeighbors (routingTable_of dht) target (K dht);
        dht ← findOn_query dht neighbors targetID queryType;
        Ok (None, dht)
  end.

(** What a handler of a packet leaves: the value it returns, the state, the
    transaction whose [Response] channel it has signalled, and the calls of
    [OnGetPeersResponse] it has made. *)
Record handled := {
  success : bool;
  state : DHT;
  signalled : option Transaction;
  reported : list (string * Peer)
}.

(** A handler returns false. *)
Definition dropped (dht : DHT) (reported : list (string * Peer)) : handled :=
  {| success := false; state := dht; signalled := None; reported := reported |}.

(** What becomes of the send [trans.Response <- struct{}{}] that a handler
    makes.  [newTransaction] makes the channel with the capacity [Try+1],
    and [query] receives from it at most once per attempt, so the buffer can
    be full when a handler sends: the send then waits for a receive, and
    when none comes it waits for good.  The embedding runs a handler to its
    end without other goroutines in between, so whether the send is
    delivered is given to the handler from outside, as the waits of [query]
    are. *)
Inductive delivery : Type :=
  | Delivered
  | Stuck.

(** How a handler that does not panic ends: it returns, or it stays blocked
    in the send on the [Response] channel of a transaction, in the state it
    has reached and after the calls of [OnGetPeersResponse] it has made. *)
Inductive ending (A : Type) : Type :=
  | Returns (a : A)
  | Blocks (dht : DHT) (trans : Transaction) (reported : list (string * Peer)).
Arguments Returns {A} a.
Arguments Blocks {A} dht trans reported.

(** The loop of [handleResponse] over [values].  [OnGetPeersResponse] tells
    whether the callback is set. *)
Fixpoint handleResponse_values `{Codec} (OnGetPeersResponse : bool) (dht : DHT)
    (reported : list (string * Peer)) (values : list bval) (token infoHash : string)
    : result (DHT * list (string * Peer)) :=
  match values with
  | [] => Ok (dht, reported)
  | v :: rest =>
      s ← assert_string (Some v);
      match NewPeerFromCompactIPPortInfo s token with
      | None => handleResponse_values OnGetPeersResponse dht reported rest token infoHash
      | Some p =>
          let dht := DHT_.set_peersManager dht
                       (peersManager.Insert (K dht) (peersManager_of dht) infoHash p) in
          let reported :=
            if OnGetPeersResponse then reported ++ [(infoHash, p)] else reported in
          handleResponse_values OnGetPeersResponse dht reported rest token infoHash
      end
  end.

(** The [switch] of [handleResponse].  The boolean tells whether control
    falls out of the switch ([true]) or the handler returns from inside
    it.  (The test that opens the [find_node] case repeats the condition of
    the case and cannot fire.) *)
Definition handleResponse_switch `{Codec} (OnGetPeersResponse : bool) (now : Z)
    (dht : DHT) (trans : Transaction) (r : payload)
    : result (bool * DHT * list (string * Peer)) :=
  let q := q_Data (t_Query trans) in
  if bool_decide (QueryType q = DHTQueryTypePing) then Ok (true, dht, [])
  else if bool_decide (QueryType q = DHTQueryTypeFindNode) then
    target ← assert_string (q_Arguments q !! "target");
    '(err, dht) ← findOn now dht r (bitmap.newBitmapFromString target)
                    DHTQueryTypeFindNode;
    match err with
    | Some _ => Ok (false, dht, [])
    | None => Ok (true, dht, [])
    end
  else if bool_decide (QueryType q = DHTQueryTypeGetPeers) then
    err ← ParseKey r "token" "string";
    match err with
    | Some _ => Ok (false, dht, [])
    | None =>
        token ← assert_string (r !! "token");
        infoHash ← assert_string (q_Arguments q !! "info_hash");
        err ← ParseKey r "values" "list";
        match err with
        | None =>
            values ← assert_list (r !! "values");
            '(dht, reported) ←
              handleResponse_values OnGetPeersResponse dht [] values token infoHash;
            Ok (true, dht, reported)
        | Some _ =>
            '(err, dht) ← findOn now dht r (bitmap.newBitmapFromString infoHash)
                            DHTQueryTypeGetPeers;
            match err with
            | Some _ => Ok (false, dht, [])
            | None => Ok (true, dht, [])
            end
        end
    end
  else if bool_decide (QueryType q = DHTQueryTypeAnnouncePeer) then Ok (true, dht, [])
  else Ok (false, dht, []).

(** handleResponse handles responses received from udp.  [sent] is what
    becomes of the send on the channel of the transaction, which comes
    before the blacklist entry is deleted and the node inserted. *)
Definition handleResponse `{Codec} (OnGetPeersResponse : bool) (now : Z)
    (sent : delivery) (dht : DHT) (addr : net.UDPAddr) (response : payload)
    : result (ending handled) :=
  t ← assert_string (response !! "t");
  match transactionManager_.filterOne (transactionManager_of dht) t addr with
  | None => Ok (Returns (dropped dht []))
  | Some trans =>
  err ← ParseKey response "r" "map";
  match err with
  | Some _ => Ok (Returns (dropped dht []))
  | None =>
  r ← assert_map (response !! "r");
  err ← ParseKey r "id" "string";
  match err with
  | Some _ => Ok (Returns (dropped dht []))
  | None =>
  id ← assert_string (r !! "id");
  (* If response's node id is not the same with the node id in the
     transaction, raise error. *)
  differs ← match Node.ID (q_Node (t_Query trans)) with
            | Some _ =>
                raw ← Node.IDRawString (q_Node (t_Query trans));
                id' ← assert_string (r !! "id");
                Ok (bool_decide (raw ≠ id'))
            | None => Ok false
            end;
  if (differs : bool) then
    let dht := DHT_.set_blackList dht
                 (blackList.insert now (blackList_of dht)
                    (net.IP_String (net.IP_ addr)) (net.Port addr)) in
    rt ← routingTable_.RemoveByAddr now (routingTable_of dht) (net.String_ addr);
    Ok (Returns (dropped (DHT_.set_routingTable dht rt) []))
  else
  let node := Node.NewNode now id addr in
  '(continue, dht, reported) ← handleResponse_switch OnGetPeersResponse now dht trans r;
  if (continue : bool) then
    (* inform transManager to delete transaction. *)
    match sent with
    | Stuck => Ok (Blocks dht trans reported)
    | Delivered =>
        let dht := DHT_.set_blackList dht
                     (blackList.delete (blackList_of dht)
                        (net.IP_String (net.IP_ addr)) (net.Port addr)) in
        '(_, rt) ← routingTable_.Insert (blackList_of dht) (MaxNodes dht) now
                     (routingTable_of dht) node;
        Ok (Returns {| success := true; state := DHT_.set_routingTable dht rt;
                       signalled := Some trans; reported := reported |})
    end
  else Ok (Returns (dropped dht reported))
  end
  end
  end.

(** handleError handles errors received from udp: when it returns, the
    value it returns and the transaction it has signalled.  [sent] is what
    becomes of the send on the channel of the transaction that [filterOne]
    finds. *)
Definition handleError (sent : delivery) (dht : DHT) (addr : net.UDPAddr)
    (response : payload) : result (ending (bool * option Transaction)) :=
  err ← ParseKey response "e" "list";
  match err with
  | Some _ => Ok (Returns (false, None))
  | None =>
      e ← assert_list (response !! "e");
      if bool_decide (length e ≠ 2%nat) then Ok (Returns (false, None)) else
      t ← assert_string (response !! "t");
      match transactionManager_.filterOne (transactionManager_of dht) t addr with
      | Some trans =>
          match sent with
          | Delivered => Ok (Returns (true, Some trans))
          | Stuck => Ok (Blocks dht trans [])
          end
      | None => Ok (Returns (true, None))
      end
  end.

(** The worker tokens held once a handler has ended: the goroutine of
    [handle] takes a token before the handler runs and gives it back when
    the handler returns; a handler that stays blocked keeps it. *)
Definition tokens_after {A} (workerTokens : Z) (e : ending A) : Z :=
  match e with
  | Returns _ => workerTokens
  | Blocks _ _ _ => (workerTokens + 1)%Z
  end.

(** handle handles packets received from udp: the test of the worker pool
    and the body of the goroutine it starts.  [workerTokens] is the number
    of tokens held when the packet arrives, and [PacketWorkerLimit] the
    field of the configuration; the pool is bounded by that limit (spec
    4.13), so a token can be taken whenever the count is not the limit.  The
    result is how the handler ends, with the number of tokens held then.
    [sent] is what becomes of the send on a [Response] channel, should the
    handler make one. *)
Definition handle `{Codec} (OnGetPeersResponse : bool) (PacketWorkerLimit : Z)
    (now : Z) (rnd : string) (sent : delivery) (workerTokens : Z) (dht : DHT)
    (raddr : net.UDPAddr) (data : string) : result (ending handled * Z) :=
  if bool_decide (workerTokens = PacketWorkerLimit)
  then Ok (Returns (dropped dht []), workerTokens) else
  e ←
    (if blackList.in_ (blackList_of dht) (net.IP_String (net.IP_ raddr))
          (net.Port raddr)
     then Ok (Returns (dropped dht [])) else
     match Decode data with
     | None => Ok (Returns (dropped dht []))
     | Some data =>
         msg ← parseMessage data;
         match msg with
         | None => Ok (Returns (dropped dht []))
         | Some response =>
             y ← assert_string (response !! "y");
             if bool_decide (y = "q") then
               '(ok, dht) ← handleRequest now rnd dht raddr response;
               Ok (Returns {| success := ok; state := dht; signalled := None;
                              reported := [] |})
             else if bool_decide (y = "r") then
               handleResponse OnGetPeersResponse now sent dht raddr response
             else if bool_decide (y = "e") then
               e ← handleError sent dht raddr response;
               match e with
               | Returns (ok, trans) =>
                   Ok (Returns {| success := ok; state := dht; signalled := trans;
                                  reported := [] |})
               | Blocks dht trans reported => Ok (Blocks dht trans reported)
               end
             else Ok (Returns (dropped dht []))
         end
     end : result (ending handled));
  Ok (e, tokens_after workerTokens e).

(** A codec for the examples: it decodes no endpoint and resolves no
    address, and its bencode decoder yields [v] for every datagram. *)
Definition codec_of (v : option bval) : Codec :=
  {| decodeCompactIPPortInfo := λ _, ([], 0%Z, true);
     genAddress := λ ip port, ip +:+ ":" +:+ pretty port;
     ResolveUDPAddr := λ _, None;
     Decode := λ _, v |}.

(** The state while the [ping] with transaction id [aa] to [addr_example],
    whose node is known under the id [id_of_byte 7], is live. *)
Definition ping_aa : Transaction :=
  transactionManager_.newTransaction "aa" (ping_query "aa").

Definition dht_pinging : DHT :=
  DHT_.set_transactionManager dht_example
    (transactionManager_.insert (transactionManager_of dht_example) ping_aa).

(** A [get_peers] to the same node, live under the transaction id [gp]. *)
Definition get_peers_gp : Transaction :=
  transactionManager_.newTransaction "gp"
    {| q_Node := node_at 7 6881;
       q_Data := NewDHTQuery "gp" DHTQueryTypeGetPeers
                   (<["id" := BStr id_a]> {[ "info_hash" := BStr id_b ]}) |}.

Definition dht_getting_peers : DHT :=
  DHT_.set_transactionManager dht_example
    (transactionManager_.insert (transactionManager_of dht_example) get_peers_gp).

(** A response as a remote node writes it, with its arguments under [r]. *)
Definition response_from (t : string) (r : payload) : payload :=
  <["t" := BStr t]> (<["y" := BStr "r"]> {[ "r" := BDict r ]}).

(* ================================================================== *)
(** * Theorems *)

(** C2: for every response, [ToPayload] sets [y] to [r], leaves the key [r]
    unbound and stores the arguments under the key [e]. *)
Theorem C2_response_args_under_e (r : DHTQueryResponse) :
  ToPayload r !! "y" = Some (BStr "r") ∧
  ToPayload r !! "r" = None ∧
  ToPayload r !! "e" = Some (BDict (r_Arguments r)).
Proof.
  unfold ToPayload, DHTQueryResponse_ToPayload.
  repeat split; by simplify_map_eq.
Qed.

(** ** Token manager *)

Lemma check_absent (tm : tokenManager.t) (addr : net.UDPAddr) (t : string) :
  tokenManager.table tm !! net.IP_String (net.IP_ addr) = None →
  tokenManager.check tm addr t = (false, tm).
Proof. intros H. unfold tokenManager.check. by rewrite H. Qed.

Lemma check_present (tm : tokenManager.t) (addr : net.UDPAddr) (t : string) (tk : token) :
  tokenManager.table tm !! net.IP_String (net.IP_ addr) = Some tk →
  tokenManager.check tm addr t =
    (bool_decide (t = data tk),
     {| tokenManager.table :=
          base.delete (net.IP_String (net.IP_ addr)) (tokenManager.table tm);
        tokenManager.expiredAfter := tokenManager.expiredAfter tm |}).
Proof.
  intros H. unfold tokenManager.check. rewrite H.
  by rewrite (bool_decide_eq_true_2 (is_Some (Some tk))) by by eexists.
Qed.

(** C7: [check] answers true exactly when a token is stored for the IP of the
    address and its data is the given string; after a check that answered
    true the entry is gone, and every later check for that IP answers false
    and leaves the (token-less) state as it is. *)
Theorem C7_check_iff_single_use
    (tm : tokenManager.t) (addr : net.UDPAddr) (t : string) :
  ((tokenManager.check tm addr t).1 = true ↔
     ∃ tk, tokenManager.table tm !! net.IP_String (net.IP_ addr) = Some tk
           ∧ data tk = t) ∧
  ((tokenManager.check tm addr t).1 = true →
     let tm' := (tokenManager.check tm addr t).2 in
     tokenManager.table tm' !! net.IP_String (net.IP_ addr) = None ∧
     ∀ addr' t', net.IP_String (net.IP_ addr') = net.IP_String (net.IP_ addr) →
       tokenManager.check tm' addr' t' = (false, tm')).
Proof.
  destruct (tokenManager.table tm !! net.IP_String (net.IP_ addr)) as [tk|] eqn:E.
  - rewrite (check_present _ _ _ _ E). cbn [fst snd]. split.
    + rewrite bool_decide_eq_true. split.
      * intros ->. by exists tk.
      * by intros (tk' & [= <-] & <-).
    + intros _. split; [apply lookup_delete_eq|].
      intros addr' t' Hip. apply check_absent. cbn [tokenManager.table].
      rewrite Hip. apply lookup_delete_eq.
  - rewrite (check_absent _ _ _ E). simpl. split.
    + split; [done|]. by intros (tk & ? & _).
    + done.
Qed.

Lemma C7_check_iff_single_use_witness :
  (tokenManager.check tm_example addr_example "abcde").1 = true ∧
  tokenManager.check (tokenManager.check tm_example addr_example "abcde").2
    addr_example "abcde"
  = (false, (tokenManager.check tm_example addr_example "abcde").2).
Proof.
  assert (H : (tokenManager.check tm_example addr_example "abcde").1 = true)
    by (vm_compute; reflexivity).
  split; [exact H|].
  exact (proj2 (proj2 (C7_check_iff_single_use tm_example addr_example "abcde") H)
           addr_example "abcde" eq_refl).
Defined.

(** C10: when a token is stored for the IP, a check with any string deletes
    it; a check with a wrong string answers false, and so does the check with
    the right string that follows it. *)
Theorem C10_check_always_deletes
    (tm : tokenManager.t) (addr : net.UDPAddr) (tk : token) (t : string) :
  tokenManager.table tm !! net.IP_String (net.IP_ addr) = Some tk →
  tokenManager.table (tokenManager.check tm addr t).2
    !! net.IP_String (net.IP_ addr) = None ∧
  (t ≠ data tk →
     (tokenManager.check tm addr t).1 = false ∧
     (tokenManager.check (tokenManager.check tm addr t).2 addr (data tk)).1 = false).
Proof.
  intros E. rewrite (check_present _ _ _ _ E). cbn [fst snd].
  split; [apply lookup_delete_eq|].
  intros Hne. split; [by apply bool_decide_eq_false|].
  rewrite check_absent; [done|]. apply lookup_delete_eq.
Qed.

Lemma C10_check_always_deletes_witness :
  (tokenManager.check tm_example addr_example "wrong").1 = false ∧
  (tokenManager.check (tokenManager.check tm_example addr_example "wrong").2
     addr_example "abcde").1 = false.
Proof.
  refine (proj2 (C10_check_always_deletes tm_example addr_example
                   {| data := "abcde"; createTime := 5 |} "wrong" _) _).
  - vm_compute; reflexivity.
  - simpl. discriminate.
Defined.

(** ** Neighbour search *)

(** C1: on three nodes at XOR distances 5, 1 and 3 from the target, taken in
    that order, [getTopK] with k = 2 returns the nodes at distances 1 and 5,
    while the two closest are those at distances 1 and 3; and [GetNeighbors]
    does so on a table that caches three such nodes. *)
Theorem C1_getTopK_misses_closer_node :
  let queue := [node_at 5 6881; node_at 1 6881; node_at 3 6881] in
  let target := id_of_byte 0 in
  getTopK queue target 2 = Ok [node_at 1 6881; node_at 5 6881] ∧
  k_smallest_by_distance queue target 2 = [node_at 1 6881; node_at 3 6881] ∧
  getTopK queue target 2 ≠ Ok (k_smallest_by_distance queue target 2) ∧
  routingTable_.GetNeighbors rt_three target 2
    = Ok [node_id_at 1 5; node_id_at 5 3] ∧
  k_smallest_by_distance (snd <$> map_to_list (cachedNodes rt_three)) target 2
    = [node_id_at 1 5; node_id_at 3 1].
Proof.
  assert (H1 : getTopK [node_at 5 6881; node_at 1 6881; node_at 3 6881]
                 (id_of_byte 0) 2 = Ok [node_at 1 6881; node_at 5 6881])
    by (vm_compute; reflexivity).
  assert (H2 : k_smallest_by_distance [node_at 5 6881; node_at 1 6881; node_at 3 6881]
                 (id_of_byte 0) 2 = [node_at 1 6881; node_at 3 6881])
    by (vm_compute; reflexivity).
  cbv zeta. rewrite H1, H2.
  split; [reflexivity|]. split; [reflexivity|]. split; [intros [=]|].
  split; vm_compute; reflexivity.
Qed.

(** ** The result monad *)

Lemma bind_Ok {A B} (m : result A) (f : A → result B) (b : B) :
  m ≫= f = Ok b → ∃ a, m = Ok a ∧ f a = Ok b.
Proof. destruct m as [a| |]; simpl; [eauto | done | done]. Qed.

Tactic Notation "inv_bind" hyp(H) "as" simple_intropattern(x) ident(E) :=
  apply bind_Ok in H; destruct H as (x & E & H).

Ltac inv_Ok H := injection H as H; subst.


(** ** Bits of a prefix *)

Lemma Bit_app_l (p q : bitmap.t) (j : nat) :
  (j < length p)%nat → bitmap.Bit (p ++ q) j = bitmap.Bit p j.
Proof. intros H. unfold bitmap.Bit. by rewrite lookup_app_l. Qed.

Lemma Bit_app_last (p : bitmap.t) (b : bool) :
  bitmap.Bit (p ++ [b]) (length p) = if b then 1%nat else 0%nat.
Proof.
  unfold bitmap.Bit. rewrite lookup_app_r by lia.
  by rewrite Nat.sub_diag.
Qed.

Lemma Bit_cases (i : bitmap.t) (j : nat) :
  bitmap.Bit i j = 0%nat ∨ bitmap.Bit i j = 1%nat.
Proof. unfold bitmap.Bit. destruct (default false (i !! j)); auto. Qed.

Lemma newBitmapFrom_extend (p : bitmap.t) :
  bitmap.newBitmapFrom p (bitmap.Size p + 1) = p ++ [false].
Proof.
  unfold bitmap.newBitmapFrom, bitmap.Size.
  rewrite take_ge by lia.
  by replace (length p + 1 - length p)%nat with 1%nat by lia.
Qed.

Lemma Set_last (p : bitmap.t) :
  bitmap.Set_ (p ++ [false]) (bitmap.Size p) = p ++ [true].
Proof.
  unfold bitmap.Set_, bitmap.Size.
  rewrite insert_app_r_alt by lia. by rewrite Nat.sub_diag.
Qed.

Lemma Compare_from_agree (p i : bitmap.t) (n s : nat) :
  (∀ j, (s ≤ j < s + n)%nat → bitmap.Bit i j = bitmap.Bit p j) →
  bitmap.Compare_from p i s n = 0%Z.
Proof.
  revert s. induction n as [|n IH]; intros s H; simpl; [done|].
  rewrite <- (H s) by lia. rewrite Nat.compare_refl.
  apply IH. intros j Hj. apply H. lia.
Qed.

Lemma shares_prefix_extend (p : bitmap.t) (nd : Node.t) (i : bitmap.t) (b : bool) :
  shares_prefix p nd →
  Node.id nd = Some i →
  bitmap.Bit i (length p) = (if b then 1%nat else 0%nat) →
  shares_prefix (p ++ [b]) nd.
Proof.
  intros (i' & Hi' & Hp) Hi Hb. exists i. split; [done|].
  assert (i' = i) as -> by congruence.
  intros j Hj. unfold bitmap.Size in *. rewrite length_app in Hj. simpl in Hj.
  destruct (decide (j = length p)) as [->|Hne].
  - by rewrite Bit_app_last.
  - rewrite Bit_app_l by lia. apply Hp. lia.
Qed.

(** ** Buckets keep their prefix invariant *)

Lemma Forall_keyedDeque_Delete {V} (key : V → string) (P : V → Prop) d k0 :
  Forall P d → Forall P (keyedDeque.Delete key d k0).
Proof.
  intros H. unfold keyedDeque.Delete. apply Forall_forall.
  intros x [_ Hx]%list_elem_of_filter. rewrite Forall_forall in H. by apply H.
Qed.

Lemma kbucket_Insert_ok (path : bitmap.t) now b nd isNew b' :
  bucket_ok path b →
  shares_prefix path nd →
  kbucket_.Insert now b nd = Ok (isNew, b') →
  bucket_ok path b'.
Proof.
  intros (Hp & Hn & Hc) Hnd H. unfold kbucket_.Insert in H.
  inv_bind H as raw Eraw. inv_Ok H. repeat split; simpl; try done.
  unfold keyedDeque.Push. apply Forall_app. split.
  - by apply Forall_keyedDeque_Delete.
  - by constructor.
Qed.

Lemma Forall_insert_sorted (P : Node.t → Prop) no l :
  P no → Forall P l → Forall P (kbucket_.insert_sorted no l).
Proof.
  intros Hno. induction 1 as [|e l He Hl IH]; simpl.
  - by constructor.
  - case_bool_decide; repeat constructor; done.
Qed.

Lemma RemoveBack_Forall {V} (P : V → Prop) (d : list V) v rest :
  Forall P d → keyedDeque.RemoveBack d = Some (v, rest) → P v ∧ Forall P rest.
Proof.
  intros H. unfold keyedDeque.RemoveBack.
  destruct (last d) as [x|] eqn:E; [|done]. intros [= <- <-]. split.
  - rewrite Forall_forall in H. apply H.
    rewrite last_lookup in E. by eapply list_elem_of_lookup_2.
  - by apply Forall_take.
Qed.

Lemma kbucket_Replace_ok (path : bitmap.t) now b nd b' :
  bucket_ok path b →
  kbucket_.Replace now b nd = Ok b' →
  bucket_ok path b'.
Proof.
  intros (Hp & Hn & Hc) H. unfold kbucket_.Replace in H.
  inv_bind H as raw Eraw. simpl in H.
  destruct (keyedDeque.RemoveBack (candidates b)) as [[no rest]|] eqn:ER.
  - inv_Ok H. apply (RemoveBack_Forall _ _ _ _ Hc) in ER as [Hno Hrest].
    repeat split; simpl; try done.
    apply Forall_insert_sorted; [done|]. by apply Forall_keyedDeque_Delete.
  - inv_Ok H. repeat split; simpl; try done.
    by apply Forall_keyedDeque_Delete.
Qed.

Lemma ID_Bit_Ok nd j b :
  routingTableNode_.ID_Bit nd j = Ok b →
  ∃ i, Node.id nd = Some i ∧ b = bitmap.Bit i j.
Proof.
  unfold routingTableNode_.ID_Bit, Node.deref, Node.ID.
  destruct (Node.id nd) as [i|]; [|done]. simpl. intros [= <-]. eauto.
Qed.

Lemma distribute_ok (p : bitmap.t) l c0 c1 n0 n1 :
  routingTableNode_.distribute (length p) l c0 c1 = Ok (n0, n1) →
  Forall (shares_prefix p) l →
  Forall (shares_prefix (p ++ [false])) c0 →
  Forall (shares_prefix (p ++ [true])) c1 →
  Forall (shares_prefix (p ++ [false])) n0 ∧
  Forall (shares_prefix (p ++ [true])) n1.
Proof.
  revert c0 c1. induction l as [|nd l IH]; intros c0 c1 H Hl H0 H1; simpl in H.
  - by inv_Ok H.
  - inversion Hl as [|? ? Hnd Hl']; subst.
    inv_bind H as bit Ebit. apply ID_Bit_Ok in Ebit as (i & Hid & ->).
    destruct (bitmap.Bit i (length p)) as [|n] eqn:Hb.
    + apply IH in H; [done|done| |done].
      unfold keyedDeque.PushBack. apply Forall_app. split; [done|].
      constructor; [|done]. by eapply shares_prefix_extend.
    + apply IH in H; [done|done|done|].
      unfold keyedDeque.PushBack. apply Forall_app. split; [done|].
      constructor; [|done]. eapply shares_prefix_extend; [done|done|].
      destruct (Bit_cases i (length p)); congruence.
Qed.

Lemma Split_ok (path : bitmap.t) now tn tn' :
  tree_ok path tn →
  routingTableNode_.Split now tn = Ok tn' →
  tree_ok path tn'.
Proof.
  intros Ht H. unfold routingTableNode_.Split in H.
  destruct tn as [c0 c1 [b|]]; [|done]. simpl in H.
  destruct Ht as ((Hp & Hn & Hc) & Ht0 & Ht1).
  case_bool_decide; [by inv_Ok H|].
  inv_bind H as [n0 n1] En. inv_bind H as [k0 k1] Ek. inv_Ok H.
  unfold bitmap.Size in *.
  apply distribute_ok in En; [|done|constructor|constructor].
  apply distribute_ok in Ek; [|done|constructor|constructor].
  destruct En, Ek.
  repeat split; simpl; try done.
  - apply newBitmapFrom_extend.
  - rewrite newBitmapFrom_extend. apply Set_last.
Qed.

(** ** The tree keeps the prefix invariant *)

Lemma Child_tree_ok path tn bit c :
  tree_ok path tn →
  routingTableNode_.Child tn bit = Some c →
  tree_ok (path ++ [branch bit]) c.
Proof.
  destruct tn as [c0 c1 b]. intros (_ & H0 & H1) H. simpl in H.
  destruct bit as [|[|bit]]; simpl; [by subst c0|by subst c1|done].
Qed.

Lemma SetChild_tree_ok path tn bit c :
  tree_ok path tn →
  tree_ok (path ++ [branch bit]) c →
  tree_ok path (routingTableNode_.SetChild tn bit (Some c)).
Proof.
  destruct tn as [c0 c1 b]. intros (Hb & H0 & H1) H.
  destruct bit as [|[|bit]]; simpl; [| |done].
  - split; [|done]. destruct b; [done|]. destruct Hb. split; [by eexists|done].
  - split; [|done]. destruct b; [done|]. destruct Hb. split; [done|by eexists].
Qed.

Lemma SetKBucket_tree_ok path tn b :
  tree_ok path tn →
  bucket_ok path b →
  tree_ok path (routingTableNode_.SetKBucket tn (Some b)).
Proof. destruct tn as [c0 c1 b0]. intros (Hb & H0 & H1) H. done. Qed.

Lemma SetKBucket_nil_tree_ok path tn c0 c1 :
  tree_ok path tn →
  routingTableNode_.Child tn 0 = Some c0 →
  routingTableNode_.Child tn 1 = Some c1 →
  tree_ok path (routingTableNode_.SetKBucket tn None).
Proof.
  destruct tn as [d0 d1 b0]. simpl. intros (Hb & H0 & H1) -> ->.
  split; [|done]. split; by eexists.
Qed.

Lemma KBucket_tree_ok path tn b :
  tree_ok path tn →
  routingTableNode_.bucket_deref (routingTableNode_.KBucket tn) = Ok b →
  bucket_ok path b.
Proof.
  destruct tn as [c0 c1 [b0|]]; [|done]. intros (Hb & _) [= <-]. done.
Qed.

Lemma shares_prefix_branch path nd i :
  shares_prefix path nd →
  Node.id nd = Some i →
  shares_prefix (path ++ [branch (bitmap.Bit i (length path))]) nd.
Proof.
  intros Hnd Hi. eapply shares_prefix_extend; [done|done|].
  destruct (Bit_cases i (length path)) as [-> | ->]; done.
Qed.

Lemma Insert_loop_ok iters : ∀ now nd prefixLen root rt path root' rt' r,
  shares_prefix path nd →
  prefixLen = S (length path) →
  tree_ok path root →
  routingTable_.Insert_loop iters now nd prefixLen root rt = Ok (root', rt', r) →
  tree_ok path root'.
Proof.
  induction iters as [|iters IH];
    intros now nd prefixLen root rt path root' rt' r Hnd -> Ht H; simpl in H.
  { by inv_Ok H. }
  rewrite Nat.sub_0_r in H.
  inv_bind H as bit Ebit. apply ID_Bit_Ok in Ebit as (i & Hid & ->).
  pose proof (shares_prefix_branch _ _ _ Hnd Hid) as Hnd'.
  assert (Hlen : S (S (length path))
                 = S (length (path ++ [branch (bitmap.Bit i (length path))])))
    by (rewrite length_app; simpl; lia).
  destruct (routingTableNode_.Child root (bitmap.Bit i (length path)))
    as [next|] eqn:Echild.
  { inv_bind H as [[next' rt1] r1] Erec. inv_Ok H.
    apply SetChild_tree_ok; [done|].
    eapply (IH _ _ _ _ _ _ _ _ _ Hnd' Hlen); [|exact Erec].
    by eapply Child_tree_ok. }
  inv_bind H as bucket Ebucket.
  pose proof (KBucket_tree_ok _ _ _ Ht Ebucket) as Hbucket.
  inv_bind H as id Eid.
  assert (id = i) as ->.
  { unfold Node.deref, Node.ID in Eid. rewrite Hid in Eid. by inv_Ok Eid. }
  destruct (_ || _).
  { inv_bind H as [isNew bucket'] Eins. inv_Ok H.
    apply SetKBucket_tree_ok; [done|]. by eapply kbucket_Insert_ok. }
  case_bool_decide as Hcmp.
  - inv_bind H as root1 Esplit.
    pose proof (Split_ok _ _ _ _ Ht Esplit) as Ht1.
    inv_bind H as bucket1 Ebucket1.
    assert (Hchild : ∀ j, routingTableNode_.Child
                            (routingTableNode_.SetKBucket root1 None) j
                          = routingTableNode_.Child root1 j)
      by (intros j; by destruct root1).
    rewrite !Hchild in H.
    destruct (routingTableNode_.Child root1 0) as [c0|] eqn:Ec0; [|done].
    destruct (routingTableNode_.Child root1 1) as [c1|] eqn:Ec1; [|done].
    assert (Ht2 : tree_ok path (routingTableNode_.SetKBucket root1 None))
      by by eapply SetKBucket_nil_tree_ok.
    inv_bind H as b0 Eb0. inv_bind H as b1 Eb1.
    destruct (routingTableNode_.Child root1 (bitmap.Bit i (length path)))
      as [next|] eqn:Echild'; [|done].
    inv_bind H as [[next' rt1] r1] Erec. inv_Ok H.
    apply SetChild_tree_ok; [done|].
    eapply (IH _ _ _ _ _ _ _ _ _ Hnd' Hlen); [|exact Erec].
    eapply Child_tree_ok; [exact Ht1|exact Echild'].
  - exfalso. apply Hcmp. destruct Hbucket as (-> & _).
    destruct Hnd as (i' & Hi' & Hagree).
    assert (i' = i) as -> by congruence.
    unfold bitmap.Compare. apply Compare_from_agree.
    intros j Hj. apply Hagree. unfold bitmap.Size. lia.
Qed.

Lemma shares_prefix_nil nd i : Node.id nd = Some i → shares_prefix [] nd.
Proof. intros H. exists i. split; [done|]. intros j Hj. simpl in Hj. lia. Qed.

Lemma Insert_loop_needs_id iters now nd prefixLen root rt x :
  Node.id nd = None →
  routingTable_.Insert_loop (S iters) now nd prefixLen root rt ≠ Ok x.
Proof.
  intros Hid. simpl.
  unfold routingTableNode_.ID_Bit, Node.deref, Node.ID. by rewrite Hid.
Qed.

Lemma Insert_ok bl MaxNodes now rt nd isNew rt' :
  tree_ok [] (root rt) →
  routingTable_.Insert bl MaxNodes now rt nd = Ok (isNew, rt') →
  tree_ok [] (root rt').
Proof.
  intros Ht H. unfold routingTable_.Insert in H.
  destruct (_ || _); [by inv_Ok H|].
  inv_bind H as [[root' rt1] r] Eloop. inv_Ok H.
  change (tree_ok [] root').
  destruct (Node.id nd) as [i|] eqn:Hid.
  - eapply Insert_loop_ok; [by eapply shares_prefix_nil|reflexivity|exact Ht|exact Eloop].
  - exfalso. revert Eloop. change maxPrefixLength with (S 159).
    by apply Insert_loop_needs_id.
Qed.

Lemma update_node_ok path f : ∀ p tn tn',
  (∀ q t t', tree_ok q t → f t = Ok t' → tree_ok q t') →
  tree_ok p tn →
  routingTable_.update_node path f tn = Ok tn' →
  tree_ok p tn'.
Proof.
  induction path as [|i path IH]; intros p tn tn' Hf Ht H; simpl in H.
  - by eapply Hf.
  - destruct (routingTableNode_.Child tn i) as [c|] eqn:Ec; [|done].
    inv_bind H as c' Ec'. inv_Ok H.
    apply SetChild_tree_ok; [done|].
    eapply IH; [done| |exact Ec']. by eapply Child_tree_ok.
Qed.

Lemma Remove_ok now rt id rt' :
  tree_ok [] (root rt) →
  routingTable_.Remove now rt id = Ok rt' →
  tree_ok [] (root rt').
Proof.
  intros Ht H. unfold routingTable_.Remove in H.
  inv_bind H as found Efound. destruct found as [[nd path]|]; [|by inv_Ok H].
  inv_bind H as root' Eupd.
  assert (tree_ok [] root') as Ht'.
  { eapply update_node_ok; [|exact Ht|exact Eupd].
    intros q t t' Hq Hupd. inv_bind Hupd as b Eb. inv_bind Hupd as b' Eb'.
    inv_Ok Hupd. apply SetKBucket_tree_ok; [done|].
    eapply kbucket_Replace_ok; [|exact Eb']. by eapply KBucket_tree_ok. }
  destruct (_ ≫= _); [|done]. by inv_Ok H.
Qed.

Lemma reachable_tree_ok rt : reachable rt → tree_ok [] (root rt).
Proof.
  induction 1 as [now k|rt bl MaxNodes now nd isNew rt' _ IH H
                 |rt now id rt' _ IH H|rt now address rt' _ IH H
                 |rt now path root' _ IH H].
  - simpl. repeat split; constructor.
  - by eapply Insert_ok.
  - by eapply Remove_ok.
  - unfold routingTable_.RemoveByAddr in H.
    destruct (cachedNodes rt !! address); [by eapply Remove_ok|by inv_Ok H].
  - simpl. eapply update_node_ok; [|exact IH|exact H].
    intros q t t'. apply Split_ok.
Qed.

Lemma leaf_bucket_ok tn b : leaf_bucket tn b → ∀ path, tree_ok path tn →
  ∃ path', bucket_ok path' b.
Proof.
  induction 1 as [b|c0 c1 b bk _ IH|c0 c1 b bk _ IH]; intros path (Hb & H0 & H1).
  - by exists path.
  - by eapply IH.
  - by eapply IH.
Qed.

(** C8: in every table built from the empty one by [Insert], [Remove],
    [RemoveByAddr] and [Split], every node stored in the bucket of a leaf has
    an id whose first p bits are those of the bucket's prefix, p being the
    length of the prefix. *)
Theorem C8_leaf_nodes_share_prefix (rt : routingTable) (b : kbucket) (nd : Node.t) :
  reachable rt →
  leaf_bucket (root rt) b →
  nd ∈ nodes b →
  ∃ i, Node.id nd = Some i ∧
       ∀ j, (j < bitmap.Size (prefix b))%nat →
            bitmap.Bit i j = bitmap.Bit (prefix b) j.
Proof.
  intros Hreach Hleaf Hnd.
  apply reachable_tree_ok in Hreach.
  destruct (leaf_bucket_ok _ _ Hleaf _ Hreach) as (path & Hp & Hn & _).
  rewrite Forall_forall in Hn. rewrite Hp. by apply Hn.
Qed.

(** ** Transaction manager *)

Lemma sendQuery_cases dht no queryType a dht' :
  transactionManager_.sendQuery dht no queryType a = Ok dht' →
  dht' = dht ∨
  ∃ transID tm,
    transactionManager_.genTransID (transactionManager_of dht) = Ok (transID, tm) ∧
    index (transactionManager_of dht)
      !! transactionManager_.genIndexKey queryType (net.String_ (Node.Address no)) = None ∧
    transactionManager_of dht' =
      transactionManager_.set_queryChan tm
        (queryChan tm ++ [{| q_Node := no; q_Data := NewDHTQuery transID queryType a |}]).
Proof.
  unfold transactionManager_.sendQuery. intros H.
  inv_bind H as self Eself.
  destruct self; simpl in H; [left; by inv_Ok H|].
  case_bool_decide as Hix; simpl in H; [left; by inv_Ok H|].
  destruct (blackList.in_ _ _ _); [left; by inv_Ok H|].
  inv_bind H as [transID tm] Egen. inv_Ok H. right.
  exists transID, tm. repeat split; [done|].
  unfold transactionManager_.getByIndex, transactionManager_.transaction in Hix.
  simpl in Hix. by apply eq_None_not_Some.
Qed.

Lemma genTransID_maps tm transID tm' :
  transactionManager_.genTransID tm = Ok (transID, tm') →
  transactions tm' = transactions tm ∧ index tm' = index tm ∧
  queryChan tm' = queryChan tm.
Proof.
  unfold transactionManager_.genTransID. destruct (_ =? _)%N; [done|].
  intros H. by inv_Ok H.
Qed.

Lemma tm_indexed_delete tm transID :
  tm_indexed tm → tm_indexed (transactionManager_.delete tm transID).
Proof.
  intros [Hq Hix]. unfold transactionManager_.delete.
  destruct (transactions tm !! transID) as [trans|] eqn:Et; [|done].
  destruct (Hix _ _ Et) as [Hid Hk]. split; [done|]. simpl.
  intros id t Hl. rewrite Hid in Hl.
  apply lookup_delete_Some in Hl as [Hne Hl].
  destruct (Hix _ _ Hl) as [Hid' Hk']. split; [done|].
  rewrite lookup_delete_ne; [done|].
  intros Hkey. rewrite Hkey in Hk. congruence.
Qed.

Lemma tm_indexed_send dht no queryType a dht' :
  tm_indexed (transactionManager_of dht) →
  transactionManager_.sendQuery dht no queryType a = Ok dht' →
  tm_indexed (transactionManager_.start_query (transactionManager_of dht')).
Proof.
  intros [Hq Hix] H. apply sendQuery_cases in H as [-> | (transID & tm & Eg & Hnone & ->)].
  - unfold transactionManager_.start_query. rewrite Hq. done.
  - apply genTransID_maps in Eg as (Ht & Hi & Hc).
    unfold transactionManager_.start_query. simpl. rewrite Hc, Hq. simpl.
    split; [done|]. cbn. rewrite Ht, Hi.
    intros id t Hl. apply lookup_insert_Some in Hl as [[<- <-] | [Hne Hl]].
    + split; [done|]. apply lookup_insert_eq.
    + destruct (Hix _ _ Hl) as [Hid Hk]. split; [done|].
      rewrite lookup_insert_ne; [done|].
      unfold transactionManager_.genIndexKeyByTrans at 1. simpl.
      intros Hkey. rewrite <- Hkey in Hk. congruence.
Qed.

Lemma tm_reachable_serial_indexed tm : tm_reachable_serial tm → tm_indexed tm.
Proof.
  induction 1 as [maxCursor|dht no queryType a dht' _ IH H|tm transID _ IH].
  - split; [done|]. intros id t Hl. simpl in Hl. by rewrite lookup_empty in Hl.
  - by eapply tm_indexed_send.
  - by apply tm_indexed_delete.
Qed.

(** What the test of the index in [sendQuery] does achieve: [sendQuery]
    leaves the node as it is when the index holds a transaction for the
    query type and address; and if every queued query is started before the
    next call of [sendQuery], two live transactions filed under different
    ids and addressed to the same remote address have different query
    types. *)
Lemma serial_live_distinct (tm : transactionManager) :
  tm_reachable_serial tm →
  live_distinct tm ∧
  ∀ dht no queryType a,
    transactionManager_of dht = tm →
    is_Some (Node.id (node dht)) →
    is_Some (index tm !! transactionManager_.genIndexKey queryType
                          (net.String_ (Node.Address no))) →
    transactionManager_.sendQuery dht no queryType a = Ok dht.
Proof.
  intros Hr. split.
  - apply tm_reachable_serial_indexed in Hr as [_ Hix].
    intros id1 id2 t1 t2 Hne H1 H2 Haddr Hty.
    destruct (Hix _ _ H1) as [Hid1 Hk1]. destruct (Hix _ _ H2) as [Hid2 Hk2].
    unfold transactionManager_.genIndexKeyByTrans in Hk1, Hk2.
    rewrite Haddr, Hty in Hk1. congruence.
  - intros dht no queryType a <- [own Hown] Hix.
    unfold transactionManager_.sendQuery.
    assert (∃ self : bool,
      match Node.ID no with
      | Some _ =>
          raw ← Node.IDRawString no;
          own ← Node.IDRawString (node dht);
          Ok (bool_decide (raw = own))
      | None => Ok false
      end = Ok self) as [self ->].
    { unfold Node.ID, Node.IDRawString, Node.deref. rewrite Hown.
      destruct (Node.id no); simpl; eauto. }
    simpl. unfold transactionManager_.getByIndex, transactionManager_.transaction.
    simpl. rewrite (bool_decide_eq_true_2 _ Hix).
    by rewrite orb_true_r.
Qed.

Lemma sendQuery_first_ping :
  transactionManager_.sendQuery dht_example (node_at 7 6881) DHTQueryTypePing ∅
  = Ok (DHT_.set_transactionManager dht_example tm_one_queued).
Proof. vm_compute. reflexivity. Qed.

Lemma sendQuery_second_ping :
  transactionManager_.sendQuery
    (DHT_.set_transactionManager dht_example tm_one_queued)
    (node_at 7 6881) DHTQueryTypePing ∅
  = Ok (DHT_.set_transactionManager dht_example tm_two_queued).
Proof. vm_compute. reflexivity. Qed.

(** C9: the test of the index in [sendQuery] does not see a query that is
    still on the channel.  Two calls of [sendQuery] for a [ping] to the same
    node, the second made before [run] has started the first query, both
    pass the test and both put a query on the channel; once [run] has
    started the two queries, two transactions are live under different ids
    with the same remote address and the same query type. *)
Theorem C9_queued_query_not_deduplicated :
  transactionManager_.sendQuery dht_example (node_at 7 6881) DHTQueryTypePing ∅
    = Ok (DHT_.set_transactionManager dht_example tm_one_queued) ∧
  transactionManager_.sendQuery
    (DHT_.set_transactionManager dht_example tm_one_queued)
    (node_at 7 6881) DHTQueryTypePing ∅
    = Ok (DHT_.set_transactionManager dht_example tm_two_queued) ∧
  queryChan tm_two_queued = [ping_query (int2bytes 1); ping_query (int2bytes 2)] ∧
  let tm := transactionManager_.start_query
              (transactionManager_.start_query tm_two_queued) in
  tm_reachable tm ∧
  transactions tm !! int2bytes 1 = Some (ping_transaction 1) ∧
  transactions tm !! int2bytes 2 = Some (ping_transaction 2) ∧
  int2bytes 1 ≠ int2bytes 2 ∧
  Node.Address (q_Node (t_Query (ping_transaction 1)))
    = Node.Address (q_Node (t_Query (ping_transaction 2))) ∧
  QueryType (q_Data (t_Query (ping_transaction 1)))
    = QueryType (q_Data (t_Query (ping_transaction 2))) ∧
  ¬ live_distinct tm.
Proof.
  split; [exact sendQuery_first_ping|]. split; [exact sendQuery_second_ping|].
  split; [reflexivity|]. intros tm.
  assert (Hr : tm_reachable tm).
  { do 2 apply tmr_start.
    refine (tmr_sendQuery (DHT_.set_transactionManager dht_example tm_one_queued)
              (node_at 7 6881) DHTQueryTypePing ∅
              (DHT_.set_transactionManager dht_example tm_two_queued)
              _ sendQuery_second_ping).
    exact (tmr_sendQuery dht_example (node_at 7 6881) DHTQueryTypePing ∅
             (DHT_.set_transactionManager dht_example tm_one_queued)
             (tmr_new 4294967295) sendQuery_first_ping). }
  assert (H1 : transactions tm !! int2bytes 1 = Some (ping_transaction 1))
    by (vm_compute; reflexivity).
  assert (H2 : transactions tm !! int2bytes 2 = Some (ping_transaction 2))
    by (vm_compute; reflexivity).
  assert (Hne : int2bytes 1 ≠ int2bytes 2) by (vm_compute; discriminate).
  split; [exact Hr|]. split; [exact H1|]. split; [exact H2|]. split; [exact Hne|].
  split; [reflexivity|]. split; [reflexivity|].
  intros Hd.
  by apply (Hd (int2bytes 1) (int2bytes 2) (ping_transaction 1) (ping_transaction 2)).
Qed.

(** ** The query driver *)

Lemma send_no_failure `{DHTPayload A} now dht addr (q : A) :
  failures (conn dht) = [] →
  send now dht addr q =
    (false, DHT_.set_conn dht
              {| written := written (conn dht) ++ [(addr, ToPayload q)];
                 failures := [] |}).
Proof. intros Hf. unfold send. by rewrite Hf. Qed.

Lemma query_loop_no_failure n : ∀ now dht q waits success,
  failures (conn dht) = [] →
  ∃ s,
    transactionManager_.query_loop n now dht q waits success =
      (s, DHT_.set_conn dht
            {| written := written (conn dht)
                          ++ replicate n (Node.Address (q_Node q), ToPayload (q_Data q));
               failures := [] |}) ∧
    (success = true → s = true) ∧
    (∀ waits', (0 < n)%nat → waits = Responded :: waits' → s = true).
Proof.
  induction n as [|n IH]; intros now dht q waits success Hf.
  - exists success. simpl. rewrite app_nil_r. split; [|split; [done|lia]].
    destruct dht as [? ? ? ? ? ? ? [w f] ? ? ? ? ? ?]. simpl in *. by subst f.
  - simpl. rewrite (send_no_failure _ _ _ _ Hf).
    set (dht1 := DHT_.set_conn dht _).
    assert (Hf1 : failures (conn dht1) = []) by done.
    assert (Hw : ∀ l, DHT_.set_conn dht1
               {| written := written (conn dht1) ++ l; failures := [] |}
             = DHT_.set_conn dht
               {| written := written (conn dht)
                             ++ (Node.Address (q_Node q), ToPayload (q_Data q)) :: l;
                  failures := [] |}).
    { intros l. unfold dht1, DHT_.set_conn. simpl. by rewrite <- app_assoc. }
    destruct waits as [|[|] waits'].
    + destruct (IH now dht1 q [] success Hf1) as (s & -> & Hs & _).
      exists s. rewrite Hw. split; [done|]. split; [done|]. by intros.
    + destruct (IH now dht1 q waits' true Hf1) as (s & -> & Hs & _).
      exists s. rewrite Hw. split; [done|]. split; [by intros; apply Hs|].
      intros; by apply Hs.
    + destruct (IH now dht1 q waits' success Hf1) as (s & -> & Hs & _).
      exists s. rewrite Hw. split; [done|]. split; [done|]. by intros.
Qed.

(** C3: when no write fails and the response signal arrives in the first
    wait, [query] still writes one datagram per attempt, [try] in all; it
    then leaves the blacklist as it was and returns with the transaction
    deleted from both maps. *)
Theorem C3_query_sends_every_attempt
    (now : Z) (dht : DHT) (q : Query) (try : Z) (waits : list signal) :
  failures (conn dht) = [] →
  (1 ≤ try)%Z →
  ∃ dht',
    transactionManager_.query now dht q try (Responded :: waits) = Ok dht' ∧
    written (conn dht') =
      written (conn dht)
      ++ replicate (Z.to_nat try) (Node.Address (q_Node q), ToPayload (q_Data q)) ∧
    blackList_of dht' = blackList_of dht ∧
    transactions (transactionManager_of dht') !! q_TransactionID (q_Data q) = None ∧
    index (transactionManager_of dht')
      !! transactionManager_.genIndexKey (QueryType (q_Data q))
           (net.String_ (Node.Address (q_Node q))) = None.
Proof.
  intros Hf Htry. unfold transactionManager_.query.
  set (dht0 := DHT_.set_transactionManager dht _).
  destruct (query_loop_no_failure (Z.to_nat try) now dht0 q (Responded :: waits)
              false Hf) as (s & -> & _ & Hs).
  rewrite (Hs waits) by (done || lia). simpl.
  eexists. split; [reflexivity|]. simpl.
  split; [done|]. split; [done|].
  unfold transactionManager_.delete. simpl. rewrite lookup_insert_eq. simpl.
  split; apply lookup_delete_eq.
Qed.

Lemma C3_query_sends_every_attempt_witness :
  ∃ dht',
    transactionManager_.query 0 dht_example (ping_query (int2bytes 1)) 2
      [Responded; TimedOut] = Ok dht' ∧
    written (conn dht') =
      [] ++ replicate (Z.to_nat 2)
              (Node.Address (node_at 7 6881),
               ToPayload (NewDHTQuery (int2bytes 1) DHTQueryTypePing ∅)) ∧
    blackList_of dht' = blackList_of dht_example ∧
    transactions (transactionManager_of dht') !! int2bytes 1 = None ∧
    index (transactionManager_of dht')
      !! transactionManager_.genIndexKey DHTQueryTypePing
           (net.String_ (Node.Address (node_at 7 6881))) = None.
Proof.
  apply (C3_query_sends_every_attempt 0 dht_example (ping_query (int2bytes 1)) 2
           [TimedOut]).
  - reflexivity.
  - lia.
Defined.

(** ** Requests with absent or mistyped fields *)

Lemma ParseKey_string_ok (data : payload) key s :
  data !! key = Some (BStr s) → ParseKey data key "string" = Ok None.
Proof. intros H. unfold ParseKey. by rewrite H. Qed.

Lemma ParseKey_map_ok (data : payload) key d :
  data !! key = Some (BDict d) → ParseKey data key "map" = Ok None.
Proof. intros H. unfold ParseKey. by rewrite H. Qed.

Lemma ParseKey_map_error (data : payload) key :
  (∀ d, data !! key ≠ Some (BDict d)) →
  ∃ msg, ParseKey data key "map" = Ok (Some msg).
Proof.
  intros H. unfold ParseKey.
  destruct (data !! key) as [[z|s|l|d]|]; simpl; eauto. by destruct (H d).
Qed.

(** C4, with the code that the handler passes: a request whose [q] is a
    string and whose [a] is absent or not a dictionary is answered with one
    error response of code 203 (the protocol error) to the sender, and
    nothing else changes. *)
Theorem C4_bad_arguments_answered_203
    (now : Z) (rnd : string) (dht : DHT) (addr : net.UDPAddr) (p : payload)
    (t q : string) :
  p !! "t" = Some (BStr t) →
  p !! "q" = Some (BStr q) →
  (∀ d, p !! "a" ≠ Some (BDict d)) →
  head (failures (conn dht)) ≠ Some true →
  ∃ msg,
    handleRequest now rnd dht addr p =
      Ok (false,
          DHT_.set_conn dht
            {| written := written (conn dht)
                          ++ [(addr, ToPayload (NewDHTErrorResponse t 203 msg))];
               failures := drop 1 (failures (conn dht)) |}).
Proof.
  intros Ht Hq Ha Hf. unfold handleRequest, NewDHTQueryFromPayload.
  rewrite Ht, Hq. simpl.
  rewrite (ParseKey_string_ok _ _ _ Hq). simpl.
  destruct (ParseKey_map_error p "a" Ha) as [msg ->]. simpl.
  exists msg. do 2 f_equal. unfold send_error, send.
  destruct (failures (conn dht)) as [|[|] rest]; done.
Qed.

Lemma C4_bad_arguments_answered_203_witness :
  ∃ msg,
    handleRequest 0 "" dht_example addr_example payload_bad_a =
      Ok (false,
          DHT_.set_conn dht_example
            {| written := written (conn dht_example)
                          ++ [(addr_example,
                               ToPayload (NewDHTErrorResponse "aa" 203 msg))];
               failures := drop 1 (failures (conn dht_example)) |}).
Proof.
  apply (C4_bad_arguments_answered_203 0 "" dht_example addr_example payload_bad_a
           "aa" "ping").
  - vm_compute; reflexivity.
  - vm_compute; reflexivity.
  - intros d. vm_compute. discriminate.
  - simpl. discriminate.
Defined.

Lemma handleRequest_bad_a :
  handleRequest 0 "" dht_example addr_example payload_bad_a
  = Ok (false, dht_replied_203).
Proof. vm_compute. reflexivity. Qed.

(** The reply to a [ping] whose [a] is an integer carries the code 203, and
    no datagram with the code 201 is written. *)
Lemma C4_counterexample :
  ¬ ∃ dht' msg,
      handleRequest 0 "" dht_example addr_example payload_bad_a = Ok (false, dht') ∧
      (addr_example, ToPayload (NewDHTErrorResponse "aa" 201 msg))
        ∈ written (conn dht').
Proof.
  intros (dht' & msg & H & Hin).
  rewrite handleRequest_bad_a in H. inv_Ok H. simpl in Hin.
  apply list_elem_of_singleton in Hin.
  apply (f_equal (λ x : net.UDPAddr * payload, x.2 !! "e")) in Hin.
  vm_compute in Hin. discriminate.
Qed.

(** Whatever the state of the node, a request whose [q] is absent or not a
    string makes [handleRequest] panic in [NewDHTQueryFromPayload], before
    [ParseKeys] looks at [q]. *)
Lemma handleRequest_q_not_string now rnd dht addr (p : payload) :
  (∀ s, p !! "q" ≠ Some (BStr s)) →
  is_Panic (handleRequest now rnd dht addr p).
Proof.
  intros Hq. unfold handleRequest, NewDHTQueryFromPayload.
  destruct (assert_string (p !! "t")) as [t|msg|] eqn:Et; simpl.
  - destruct (p !! "q") as [[z|s|l|d]|]; simpl; try by eexists.
    by destruct (Hq s).
  - by eexists.
  - by destruct (p !! "t") as [[]|].
Qed.

(** C5: a request without [q], a request whose [q] is an integer, and an
    [announce_peer] request with a valid token whose [implied_port] is a
    string each make [handleRequest] panic. *)
Theorem C5_mistyped_fields_panic :
  is_Panic (handleRequest 0 "" dht_example addr_example payload_no_q) ∧
  is_Panic (handleRequest 0 "" dht_example addr_example payload_q_int) ∧
  is_Panic (handleRequest 0 "" dht_with_token addr_example
              payload_implied_port_string).
Proof.
  repeat split; eexists; vm_compute; reflexivity.
Qed.

(** ** The node cache of reachable tables *)

Lemma Insert_loop_cache iters : ∀ now nd prefixLen root rt root' rt' r,
  cache_ok (cachedNodes rt) →
  routingTable_.Insert_loop iters now nd prefixLen root rt = Ok (root', rt', r) →
  cache_ok (cachedNodes rt').
Proof.
  induction iters as [|iters IH];
    intros now nd prefixLen root rt root' rt' r Hc H; simpl in H.
  { by inv_Ok H. }
  inv_bind H as bit Ebit.
  destruct (routingTableNode_.Child root bit) as [next|].
  { inv_bind H as [[next' rt1] r1] Erec. inv_Ok H. by eapply IH. }
  inv_bind H as bucket Ebucket. inv_bind H as id Eid.
  destruct (_ || _).
  { inv_bind H as [isNew bucket'] Eins. inv_Ok H. simpl.
    intros a n Hl. apply lookup_insert_Some in Hl as [[<- <-] | [_ Hl]]; [|by apply Hc].
    split; [|done]. unfold Node.deref, Node.ID in Eid.
    destruct (Node.id nd); [by eexists|done]. }
  case_bool_decide.
  - inv_bind H as root1 Esplit. inv_bind H as bucket1 Ebucket1.
    destruct (routingTableNode_.Child _ 0) as [c0|]; [|done].
    destruct (routingTableNode_.Child _ 1) as [c1|]; [|done].
    inv_bind H as b0 Eb0. inv_bind H as b1 Eb1.
    destruct (routingTableNode_.Child _ bit) as [next|]; [|done].
    inv_bind H as [[next' rt1] r1] Erec. inv_Ok H.
    eapply IH; [|exact Erec]. done.
  - by inv_Ok H.
Qed.

Lemma Insert_cache bl MaxNodes now rt nd isNew rt' :
  cache_ok (cachedNodes rt) →
  routingTable_.Insert bl MaxNodes now rt nd = Ok (isNew, rt') →
  cache_ok (cachedNodes rt').
Proof.
  intros Hc H. unfold routingTable_.Insert in H.
  destruct (_ || _); [by inv_Ok H|].
  inv_bind H as [[root' rt1] r] Eloop. inv_Ok H.
  change (cache_ok (cachedNodes rt1)). by eapply Insert_loop_cache.
Qed.

Lemma cache_ok_delete m a : cache_ok m → cache_ok (base.delete a m).
Proof.
  intros Hc a' n Hl. apply lookup_delete_Some in Hl as [_ Hl]. by apply Hc.
Qed.

Lemma Remove_cache now rt id rt' :
  cache_ok (cachedNodes rt) →
  routingTable_.Remove now rt id = Ok rt' →
  cache_ok (cachedNodes rt').
Proof.
  intros Hc H. unfold routingTable_.Remove in H.
  inv_bind H as found Efound. destruct found as [[nd path]|]; [|by inv_Ok H].
  inv_bind H as root' Eupd.
  destruct (_ ≫= _); [|done]. inv_Ok H. simpl. by apply cache_ok_delete.
Qed.

Lemma reachable_rt_ok rt : reachable rt → rt_ok rt.
Proof.
  intros Hr. split; [by apply reachable_tree_ok|].
  induction Hr as [now k|rt bl MaxNodes now nd isNew rt' _ IH H
                  |rt now id rt' _ IH H|rt now address rt' _ IH H
                  |rt now path root' _ IH H].
  - intros a n Hl. simpl in Hl. by rewrite lookup_empty in Hl.
  - by eapply Insert_cache.
  - by eapply Remove_cache.
  - unfold routingTable_.RemoveByAddr in H.
    destruct (cachedNodes rt !! address); [by eapply Remove_cache|by inv_Ok H].
  - done.
Qed.

(** ** [Remove] completes on reachable tables *)

Lemma find_elem_of {V} (f : V → bool) (d : list V) v :
  List.find f d = Some v → v ∈ d.
Proof.
  induction d as [|x d IH]; simpl; [done|].
  destruct (f x); [intros [= ->]; left|right; auto].
Qed.

Lemma GetNodeKBucktByID_loop_total iters : ∀ id prefixLen root path,
  tree_ok path root →
  ∃ r, routingTable_.GetNodeKBucktByID_loop iters id prefixLen root = Ok r ∧
       ∀ nd p, r = Some (nd, p) → holds_at root p nd.
Proof.
  induction iters as [|iters IH]; intros id prefixLen root path Ht; simpl.
  { exists None. done. }
  destruct (routingTableNode_.Child root (bitmap.Bit id (prefixLen - 1)))
    as [next|] eqn:Ec.
  - destruct (IH id (S prefixLen) next _ (Child_tree_ok _ _ _ _ Ht Ec))
      as (r & -> & Hr). simpl.
    destruct r as [[nd p]|].
    + eexists. split; [done|]. intros nd' p' [= <- <-].
      destruct (Hr nd p eq_refl) as (tn & b & q & Hn & Hb & Hin & Hok).
      exists tn, b, q. simpl. rewrite Ec. done.
    + by exists None.
  - destruct root as [c0 c1 [b|]].
    + simpl.
      destruct (keyedDeque.Get node_key (nodes b) (bitmap.RawString id))
        as [nd|] eqn:Eg.
      * eexists. split; [done|]. intros nd' p' [= <- <-].
        exists (TableNode c0 c1 (Some b)), b, path.
        destruct Ht as (Hb & _).
        split; [done|]. split; [done|]. split; [by eapply find_elem_of|done].
      * by exists None.
    + exfalso. destruct Ht as ((H0 & H1) & _). simpl in Ec.
      destruct H0 as [x0 ->], H1 as [x1 ->].
      by destruct (Bit_cases id (prefixLen - 1)) as [Hbit | Hbit]; rewrite Hbit in Ec.
Qed.

Lemma Child_SetChild tn i c c' :
  routingTableNode_.Child tn i = Some c →
  routingTableNode_.Child (routingTableNode_.SetChild tn i (Some c')) i = Some c'.
Proof. destruct tn as [c0 c1 b]. by destruct i as [|[|i]]. Qed.

Lemma update_node_total p : ∀ f root tn tn',
  routingTable_.node_at_path p root = Some tn →
  f tn = Ok tn' →
  ∃ root', routingTable_.update_node p f root = Ok root' ∧
           routingTable_.node_at_path p root' = Some tn'.
Proof.
  induction p as [|i p IH]; intros f root tn tn' Hn Hf; simpl in *.
  - inv_Ok Hn. by exists tn'.
  - destruct (routingTableNode_.Child root i) as [c|] eqn:Ec; [|done]. simpl in Hn.
    destruct (IH f c tn tn' Hn Hf) as (c' & -> & Hn'). simpl.
    eexists. split; [done|]. by rewrite (Child_SetChild _ _ _ _ Ec).
Qed.

Lemma Replace_total now b nd :
  is_Some (Node.id nd) → ∃ b', kbucket_.Replace now b nd = Ok b'.
Proof.
  intros [i Hi]. unfold kbucket_.Replace, Node.IDRawString, Node.deref.
  rewrite Hi. simpl. destruct (keyedDeque.RemoveBack _) as [[no rest]|]; eauto.
Qed.

#[local] Arguments routingTable_.GetNodeKBucktByID_loop : simpl never.
#[local] Arguments routingTable_.Insert_loop : simpl never.

(** What [Remove] does, on a table whose tree is sound: nothing when the id
    is not found, and otherwise the address of the node found is dropped
    from the cache. *)
Lemma Remove_total now rt id :
  tree_ok [] (root rt) →
  ∃ rt' found,
    routingTable_.Remove now rt (Some id) = Ok rt' ∧
    routingTable_.GetNodeKBucktByID rt (Some id) = Ok found ∧
    match found with
    | None => rt' = rt
    | Some (nd, _) =>
        cachedNodes rt' = base.delete (net.String_ (Node.Address nd)) (cachedNodes rt)
    end.
Proof.
  intros Ht. unfold routingTable_.Remove, routingTable_.GetNodeKBucktByID. simpl.
  destruct (GetNodeKBucktByID_loop_total maxPrefixLength id 1 (root rt) [] Ht)
    as (found & -> & Hfound). simpl.
  destruct found as [[nd p]|]; [|by exists rt, None].
  destruct (Hfound nd p eq_refl) as (tn & b & q & Hn & Hb & Hin & Hok).
  assert (Hid : is_Some (Node.id nd)).
  { destruct Hok as (_ & Hnodes & _). rewrite Forall_forall in Hnodes.
    destruct (Hnodes nd Hin) as (i & Hi & _). by eexists. }
  destruct (Replace_total now b nd Hid) as [b' Hb'].
  destruct (update_node_total p
              (λ tn, bucket ← routingTableNode_.bucket_deref (routingTableNode_.KBucket tn);
                     bucket ← kbucket_.Replace now bucket nd;
                     Ok (routingTableNode_.SetKBucket tn (Some bucket)))
              (root rt) tn (routingTableNode_.SetKBucket tn (Some b')) Hn)
    as (root' & Hupd & Hn').
  { rewrite Hb. simpl. by rewrite Hb'. }
  unfold routingTable_.update_bucket. rewrite Hupd. simpl. rewrite Hn'. simpl.
  destruct tn as [c0 c1 b0]. simpl.
  eexists _, (Some (nd, p)). split; [done|]. split; [done|]. done.
Qed.

Lemma RemoveByAddr_total now rt address :
  rt_ok rt →
  ∃ rt', routingTable_.RemoveByAddr now rt address = Ok rt' ∧
    ∀ no nd p,
      cachedNodes rt !! address = Some no →
      routingTable_.GetNodeKBucktByID rt (Node.ID no) = Ok (Some (nd, p)) →
      net.String_ (Node.Address nd) = address →
      cachedNodes rt' !! address = None.
Proof.
  intros [Ht Hc]. unfold routingTable_.RemoveByAddr.
  destruct (cachedNodes rt !! address) as [no|] eqn:El; [|by exists rt].
  destruct (Hc _ _ El) as [[i Hi] _]. unfold Node.ID. rewrite Hi.
  destruct (Remove_total now rt i Ht) as (rt' & found & -> & Hg & Hfound).
  exists rt'. split; [done|]. intros no' nd p [= <-] Hg' <-.
  rewrite Hi in Hg'. rewrite Hg in Hg'. inv_Ok Hg'.
  rewrite Hfound. apply lookup_delete_eq.
Qed.

(** ** The blacklist *)

Lemma blackList_has_insert now bl ip port :
  blackList.has (blackList.insert now bl ip port) ip port = true.
Proof.
  unfold blackList.has, blackList.insert. simpl.
  apply bool_decide_eq_true. rewrite fmap_app.
  apply elem_of_app. right. simpl. by left.
Qed.

Lemma blackList_in_insert now bl ip port :
  blackList.in_ (blackList.insert now bl ip port) ip port = true.
Proof. unfold blackList.in_. by rewrite blackList_has_insert. Qed.

Lemma blackList_in_insert_wildcard now bl ip port :
  blackList.in_ (blackList.insert now bl ip (-1)) ip port = true.
Proof.
  unfold blackList.in_. rewrite (blackList_has_insert now bl ip (-1)).
  apply orb_true_r.
Qed.

(** ** Error replies *)





(** ** A table after a split *)

Lemma insert_all_reachable nds : ∀ rt, reachable rt → reachable (insert_all rt nds).
Proof.
  induction nds as [|nd nds IH]; intros rt Hr; [done|].
  unfold insert_all. simpl. apply IH.
  destruct (routingTable_.Insert _ _ _ rt nd) as [[isNew rt']| |] eqn:E; [|done|done].
  by eapply reach_Insert.
Qed.

Lemma rt_split_root :
  root rt_split =
    TableNode (Some (TableNode None None (Some bucket_left)))
              (Some (TableNode None None (Some bucket_right))) None.
Proof. vm_compute. reflexivity. Qed.

Lemma C8_leaf_nodes_share_prefix_witness :
  ∃ i, Node.id (node_first 64) = Some i ∧
       ∀ j, (j < bitmap.Size (prefix bucket_left))%nat →
            bitmap.Bit i j = bitmap.Bit (prefix bucket_left) j.
Proof.
  apply (C8_leaf_nodes_share_prefix rt_split bucket_left (node_first 64)).
  - apply insert_all_reachable. apply reach_new.
  - rewrite rt_split_root. apply leaf_child0, leaf_here.
  - simpl. apply list_elem_of_further, list_elem_of_here.
Defined.

(** ** The loop bounds of the heap are large enough *)

Lemma bind_not_OutOfFuel {A B} (m : result A) (f : A → result B) :
  m ≠ OutOfFuel → (∀ a, f a ≠ OutOfFuel) → m ≫= f ≠ OutOfFuel.
Proof. destruct m as [a| |]; simpl; [auto|done|done]. Qed.

Lemma Less_not_OutOfFuel h i j : topKHeap_.Less h i j ≠ OutOfFuel.
Proof. unfold topKHeap_.Less. by destruct (h !! i), (h !! j). Qed.

Lemma Swap_not_OutOfFuel h i j : topKHeap_.Swap h i j ≠ OutOfFuel.
Proof. unfold topKHeap_.Swap. by destruct (h !! i), (h !! j). Qed.

Lemma up_not_OutOfFuel fuel : ∀ h j,
  (j < fuel)%nat → heap.up fuel h j ≠ OutOfFuel.
Proof.
  induction fuel as [|fuel IH]; intros h j Hj; [lia|].
  assert (Hdiv : ((j - 1) / 2 ≤ j - 1)%nat)
    by (apply Nat.Div0.div_le_upper_bound; lia).
  cbn [heap.up]. set (i := ((j - 1) / 2)%nat) in *.
  case_bool_decide as Hi; [done|].
  apply bind_not_OutOfFuel; [apply Less_not_OutOfFuel|]. intros lt.
  destruct lt; cbn [negb]; [|done].
  apply bind_not_OutOfFuel; [apply Swap_not_OutOfFuel|]. intros h'.
  apply IH. lia.
Qed.

Lemma down_not_OutOfFuel fuel : ∀ h i n,
  (i ≤ n < i + fuel)%nat → heap.down fuel h i n ≠ OutOfFuel.
Proof.
  induction fuel as [|fuel IH]; intros h i n Hn; [lia|].
  cbn [heap.down]. case_bool_decide as Hj1; [done|].
  apply bind_not_OutOfFuel.
  { case_bool_decide; [apply Less_not_OutOfFuel|done]. }
  intros lt21.
  apply bind_not_OutOfFuel; [apply Less_not_OutOfFuel|]. intros lt.
  destruct lt; cbn [negb]; [|done].
  apply bind_not_OutOfFuel; [apply Swap_not_OutOfFuel|]. intros h'.
  apply IH. destruct lt21; lia.
Qed.

Lemma heap_Push_not_OutOfFuel h x : heap.Push h x ≠ OutOfFuel.
Proof.
  unfold heap.Push. apply up_not_OutOfFuel. unfold topKHeap_.Len. lia.
Qed.

Lemma heap_Pop_not_OutOfFuel h : heap.Pop h ≠ OutOfFuel.
Proof.
  unfold heap.Pop. case_bool_decide; [done|].
  apply bind_not_OutOfFuel; [apply Swap_not_OutOfFuel|]. intros h1.
  apply bind_not_OutOfFuel; [apply down_not_OutOfFuel; lia|]. intros h2.
  unfold topKHeap_.Pop. case_bool_decide; [done|]. by destruct (h2 !! _).
Qed.

(** [getTopK] never stops for want of iterations: it returns a list or
    panics. *)
Lemma getTopK_not_OutOfFuel queue id k : getTopK queue id k ≠ OutOfFuel.
Proof.
  unfold getTopK. destruct (negb _); [done|].
  apply bind_not_OutOfFuel.
  - generalize (@nil heapItem). induction queue as [|v queue IH]; intros h; [done|].
    simpl. apply bind_not_OutOfFuel; [|done].
    unfold getTopK_step. apply bind_not_OutOfFuel.
    { unfold Node.deref. by destruct (Node.ID v). }
    intros nid. case_bool_decide; [|apply heap_Push_not_OutOfFuel].
    case_bool_decide; [done|]. destruct (h !! _); [|done].
    case_bool_decide; [|done].
    apply bind_not_OutOfFuel; [apply heap_Push_not_OutOfFuel|]. intros h1.
    apply bind_not_OutOfFuel; [apply heap_Pop_not_OutOfFuel|]. by intros [x h2].
  - intros h. generalize (@nil Node.t). generalize (topKHeap_.Len h) as n. revert h.
    intros h n. revert h. induction n as [|n IH]; intros h tops; [done|].
    simpl. apply bind_not_OutOfFuel; [apply heap_Pop_not_OutOfFuel|].
    intros [x h']. apply IH.
Qed.

(** ** [Insert] completes on reachable tables *)

Lemma distribute_total prefixLen l : ∀ c0 c1,
  Forall (λ n, is_Some (Node.id n)) l →
  ∃ r, routingTableNode_.distribute prefixLen l c0 c1 = Ok r.
Proof.
  induction l as [|nd l IH]; intros c0 c1 Hl; simpl; [by eexists|].
  inversion Hl as [|? ? [i Hi] Hl']; subst.
  unfold routingTableNode_.ID_Bit, Node.deref, Node.ID. rewrite Hi. simpl.
  destruct (bitmap.Bit i prefixLen); by apply IH.
Qed.

Lemma shares_prefix_has_id path l :
  Forall (shares_prefix path) l → Forall (λ n, is_Some (Node.id n)) l.
Proof.
  intros H. eapply Forall_impl; [exact H|]. intros n (i & Hi & _). by eexists.
Qed.

Lemma Split_total path now c0 c1 b :
  bucket_ok path b →
  bitmap.Size (prefix b) ≠ maxPrefixLength →
  ∃ b0 b1,
    routingTableNode_.Split now (TableNode c0 c1 (Some b))
    = Ok (TableNode (Some (TableNode None None (Some b0)))
                    (Some (TableNode None None (Some b1))) (Some b)).
Proof.
  intros (Hp & Hn & Hc) Hsize. unfold routingTableNode_.Split. simpl.
  rewrite bool_decide_eq_false_2 by done.
  destruct (distribute_total (bitmap.Size (prefix b)) (nodes b) [] []
              (shares_prefix_has_id _ _ Hn)) as [[n0 n1] ->].
  destruct (distribute_total (bitmap.Size (prefix b)) (candidates b) [] []
              (shares_prefix_has_id _ _ Hc)) as [[k0 k1] ->].
  simpl. by eexists _, _.
Qed.

#[local] Arguments routingTable_.Insert_loop : simpl nomatch.

Lemma Insert_loop_total iters : ∀ now nd prefixLen root rt path,
  shares_prefix path nd →
  prefixLen = S (length path) →
  (length path + iters ≤ maxPrefixLength)%nat →
  tree_ok path root →
  ∃ r, routingTable_.Insert_loop iters now nd prefixLen root rt = Ok r.
Proof.
  induction iters as [|iters IH];
    intros now nd prefixLen root rt path Hnd -> Hlen Ht.
  { by eexists. }
  cbn [routingTable_.Insert_loop].
  replace (S (length path) - 1)%nat with (length path) by lia.
  destruct Hnd as (i & Hid & Hagree).
  assert (Hnd : shares_prefix path nd) by (exists i; done).
  unfold routingTableNode_.ID_Bit at 1, Node.deref, Node.ID. rewrite Hid.
  cbn [mbind result_bind].
  pose proof (shares_prefix_branch _ _ _ Hnd Hid) as Hnd'.
  assert (Hlen' : S (S (length path))
                  = S (length (path ++ [branch (bitmap.Bit i (length path))])))
    by (rewrite length_app; simpl; lia).
  assert (Hfuel : (length (path ++ [branch (bitmap.Bit i (length path))]) + iters
                   ≤ maxPrefixLength)%nat)
    by (rewrite length_app; simpl; lia).
  destruct (routingTableNode_.Child root (bitmap.Bit i (length path)))
    as [next|] eqn:Echild.
  { destruct (IH now nd _ next rt _ Hnd' Hlen' Hfuel
                (Child_tree_ok _ _ _ _ Ht Echild)) as [[[next' rt1] r1] ->].
    by eexists. }
  destruct root as [c0 c1 [bucket|]]; cycle 1.
  { exfalso. destruct Ht as ((H0 & H1) & _). simpl in Echild.
    destruct H0 as [x0 ->], H1 as [x1 ->].
    by destruct (Bit_cases i (length path)) as [Hbit | Hbit]; rewrite Hbit in Echild. }
  pose proof Ht as (Hbucket & Ht0 & Ht1). cbn [routingTableNode_.KBucket
    routingTableNode_.bucket_deref mbind result_bind].
  destruct (_ || _).
  { unfold kbucket_.Insert, Node.IDRawString, Node.deref. rewrite Hid. by eexists. }
  case_bool_decide as Hcmp; [|by eexists].
  assert (Hsize : bitmap.Size (prefix bucket) ≠ maxPrefixLength).
  { destruct Hbucket as (-> & _). unfold bitmap.Size. lia. }
  destruct (Split_total path now c0 c1 bucket Hbucket Hsize) as (b0 & b1 & Esplit).
  pose proof (Split_ok _ _ _ _ Ht Esplit) as (_ & Hd0 & Hd1).
  rewrite Esplit. cbn [mbind result_bind routingTableNode_.KBucket
    routingTableNode_.bucket_deref routingTableNode_.SetKBucket
    routingTableNode_.Child].
  destruct (Bit_cases i (length path)) as [Hbit | Hbit]; rewrite Hbit in *.
  - destruct (IH now nd (S (S (length path))) (TableNode None None (Some b0))
                (routingTable_.cache_bucket
                   (routingTable_.cache_bucket
                      (routingTable_.set_cachedKBuckets rt
                         (keyedDeque.Delete bitmap.String_ (cachedKBuckets rt)
                            (bitmap.String_ (prefix bucket)))) b0) b1)
                _ Hnd' Hlen' Hfuel Hd0) as [[[next' rt1] r1] ->].
    by eexists.
  - destruct (IH now nd (S (S (length path))) (TableNode None None (Some b1))
                (routingTable_.cache_bucket
                   (routingTable_.cache_bucket
                      (routingTable_.set_cachedKBuckets rt
                         (keyedDeque.Delete bitmap.String_ (cachedKBuckets rt)
                            (bitmap.String_ (prefix bucket)))) b0) b1)
                _ Hnd' Hlen' Hfuel Hd1) as [[[next' rt1] r1] ->].
    by eexists.
Qed.

(** On a reachable table [Insert] of a node that has an id returns: it
    neither panics nor runs out of iterations. *)
Lemma Insert_total bl MaxNodes now rt nd :
  reachable rt →
  is_Some (Node.id nd) →
  ∃ isNew rt', routingTable_.Insert bl MaxNodes now rt nd = Ok (isNew, rt').
Proof.
  intros Hr [i Hi]. apply reachable_tree_ok in Hr.
  unfold routingTable_.Insert. destruct (_ || _); [by eexists _, _|].
  destruct (Insert_loop_total maxPrefixLength now nd 1 (root rt) rt []
              (shares_prefix_nil _ _ Hi) eq_refl (Nat.le_refl _) Hr)
    as [[[root' rt1] r] ->].
  by eexists _, _.
Qed.

(* ================================================================== *)
(** * Further properties of the embedded code *)

(** ** Tokens *)

Lemma token_entry now rnd tm addr :
  ∃ tk, (tokenManager.token_ now rnd tm addr).1 = data tk ∧
        tokenManager.table (tokenManager.token_ now rnd tm addr).2
          !! net.IP_String (net.IP_ addr) = Some tk ∧
        tokenManager.expiredAfter (tokenManager.token_ now rnd tm addr).2
          = tokenManager.expiredAfter tm.
Proof.
  unfold tokenManager.token_.
  destruct (tokenManager.table tm !! net.IP_String (net.IP_ addr)) as [tk|] eqn:E.
  - destruct (_ || _).
    + eexists. split; [done|]. split; [apply lookup_insert_eq|done].
    + by exists tk.
  - destruct (_ || _) eqn:Hb.
    + eexists. split; [done|]. split; [apply lookup_insert_eq|done].
    + exfalso. rewrite (bool_decide_eq_false_2 (is_Some None)) in Hb; [done|].
      by intros [? ?].
Qed.

Lemma token_kept now rnd (tm : tokenManager.t) addr tk :
  tokenManager.table tm !! net.IP_String (net.IP_ addr) = Some tk →
  (now - createTime tk ≤ tokenManager.expiredAfter tm)%Z →
  tokenManager.token_ now rnd tm addr = (data tk, tm).
Proof.
  intros E Hle. unfold tokenManager.token_. rewrite E.
  rewrite (bool_decide_eq_true_2 (is_Some (Some tk))) by by eexists.
  change (default tokenManager.zero_token (Some tk)) with tk.
  by rewrite bool_decide_eq_false_2 by lia.
Qed.

(** X1: the string that [token] hands out for an address passes [check] for
    that address, whatever the manager held before. *)
Theorem X1_token_then_check
    (now : Z) (rnd : string) (tm : tokenManager.t) (addr : net.UDPAddr) :
  (tokenManager.check (tokenManager.token_ now rnd tm addr).2 addr
     (tokenManager.token_ now rnd tm addr).1).1 = true.
Proof.
  destruct (token_entry now rnd tm addr) as (tk & -> & E & _).
  rewrite (check_present _ _ _ _ E). by apply bool_decide_eq_true.
Qed.

(** X2: after a call of [token], an entry is stored for the IP, and until
    that entry expires every later call returns the same string and leaves
    the manager as it is, whatever fresh random string it is offered. *)
Theorem X2_token_stable_until_expiry
    (now : Z) (rnd : string) (tm : tokenManager.t) (addr : net.UDPAddr) :
  let s := (tokenManager.token_ now rnd tm addr).1 in
  let tm1 := (tokenManager.token_ now rnd tm addr).2 in
  ∃ tk, tokenManager.table tm1 !! net.IP_String (net.IP_ addr) = Some tk ∧
        data tk = s ∧
        ∀ now2 rnd2,
          (now2 - createTime tk ≤ tokenManager.expiredAfter tm1)%Z →
          tokenManager.token_ now2 rnd2 tm1 addr = (s, tm1).
Proof.
  cbv zeta. destruct (token_entry now rnd tm addr) as (tk & -> & E & _).
  exists tk. split; [done|]. split; [done|].
  intros now2 rnd2 Hle. by apply token_kept.
Qed.

Lemma X2_token_stable_until_expiry_witness :
  tokenManager.token_ 100 "zzzzz"
    (tokenManager.token_ 0 "abcde" (tokenManager.newTokenManager 600) addr_example).2
    addr_example
  = ("abcde",
     (tokenManager.token_ 0 "abcde" (tokenManager.newTokenManager 600) addr_example).2).
Proof.
  pose proof (X2_token_stable_until_expiry 0 "abcde"
                (tokenManager.newTokenManager 600) addr_example) as Hx.
  cbv zeta in Hx. destruct Hx as (tk & Htk & Hdata & Hstable).
  apply (Hstable 100%Z "zzzzz").
  vm_compute in Htk. injection Htk as <-. vm_compute. discriminate.
Defined.


Lemma foldr_delete_lookup {V} (keys : list string) (m : gmap string V) (k : string) :
  foldr base.delete m keys !! k = if bool_decide (k ∈ keys) then None else m !! k.
Proof.
  induction keys as [|k0 keys IH]; cbn [foldr].
  - rewrite bool_decide_eq_false_2; [done|]. by intros H%elem_of_nil.
  - destruct (decide (k = k0)) as [->|Hne].
    + rewrite lookup_delete_eq. rewrite bool_decide_eq_true_2; [done|left].
    + rewrite lookup_delete_ne by done. rewrite IH.
      destruct (decide (k ∈ keys)) as [Hin|Hin].
      * rewrite (bool_decide_eq_true_2 _ Hin).
        rewrite bool_decide_eq_true_2; [done|by right].
      * rewrite (bool_decide_eq_false_2 _ Hin).
        rewrite bool_decide_eq_false_2; [done|].
        by intros [?|?]%elem_of_cons.
Qed.

(** X3: a round of [clear] removes exactly the tokens that have expired:
    afterwards an IP has its token if and only if it had one that is not
    older than [expiredAfter]. *)
Theorem X3_clear_removes_expired
    (now : Z) (tm : tokenManager.t) (ip : string) :
  tokenManager.table (tokenManager_clear_round now tm) !! ip =
    match tokenManager.table tm !! ip with
    | Some tk =>
        if bool_decide (now - createTime tk > tokenManager.expiredAfter tm)%Z
        then None else Some tk
    | None => None
    end.
Proof.
  unfold tokenManager_clear_round. cbn [tokenManager.table].
  rewrite foldr_delete_lookup.
  set (keys := (filter _ _).*1).
  assert (Hkeys : ip ∈ keys ↔
            ∃ tk, tokenManager.table tm !! ip = Some tk ∧
                  (now - createTime tk > tokenManager.expiredAfter tm)%Z).
  { unfold keys. rewrite list_elem_of_fmap. split.
    - intros ([k tk] & Hk & Hin). simpl in Hk. subst k.
      apply list_elem_of_filter in Hin as [Hexp Hin].
      apply elem_of_map_to_list in Hin. by exists tk.
    - intros (tk & E & Hexp). exists (ip, tk). split; [done|].
      apply list_elem_of_filter. split; [done|]. by apply elem_of_map_to_list. }
  destruct (tokenManager.table tm !! ip) as [tk|] eqn:E.
  - destruct (decide (now - createTime tk > tokenManager.expiredAfter tm)%Z)
      as [Hexp|Hexp].
    + rewrite (bool_decide_eq_true_2 _ Hexp).
      rewrite bool_decide_eq_true_2; [done|]. apply Hkeys. by exists tk.
    + rewrite (bool_decide_eq_false_2 _ Hexp).
      rewrite bool_decide_eq_false_2; [done|].
      intros (tk' & [= <-] & Hexp')%Hkeys. done.
  - rewrite bool_decide_eq_false_2; [done|]. by intros (tk' & ? & _)%Hkeys.
Qed.

(** ** Parsing *)

Lemma ParseKey_known (data : payload) (key t : string) :
  known_type t →
  ParseKey data key t =
    Ok (match data !! key with
        | None => Some "lack of key"
        | Some v => if bool_decide (type_name v = t) then None
                    else Some "invalid key type"
        end).
Proof.
  intros Ht. unfold ParseKey. destruct (data !! key) as [v|]; [|done].
  unfold known_type in Ht. rewrite !elem_of_cons in Ht.
  destruct Ht as [->|[->|[->|[->|Ht]]]]; [..|by apply elem_of_nil in Ht];
    by destruct v.
Qed.

(** X4: when every listed type is one of the four that [ParseKey] knows,
    [ParseKeys] never panics, and it reports no error exactly when every
    listed key is bound to a value of its listed type, so that the type
    assertions the handlers make after it cannot fail. *)
Theorem X4_ParseKeys_accepts_iff (data : payload) (pairs : list (string * string)) :
  Forall (λ p, known_type p.2) pairs →
  (∃ err, ParseKeys data pairs = Ok err) ∧
  (ParseKeys data pairs = Ok None ↔ Forall (has_key_of_type data) pairs).
Proof.
  induction 1 as [|[key t] pairs Ht _ IH]; simpl.
  { split; [by eexists|]. split; [by constructor|done]. }
  simpl in Ht. rewrite (ParseKey_known _ _ _ Ht). simpl.
  destruct (data !! key) as [v|] eqn:Hv; simpl.
  - case_bool_decide as Hty; simpl.
    + destruct IH as [IH1 IH2]. split; [done|]. rewrite IH2. split.
      * intros Hall. constructor; [|done]. by exists v.
      * by inversion 1.
    + split; [by eexists|]. split; [done|]. inversion 1 as [|? ? (v' & Hv' & Hty')].
      simpl in *. congruence.
  - split; [by eexists|]. split; [done|]. inversion 1 as [|? ? (v' & Hv' & Hty')].
    simpl in *. congruence.
Qed.

Lemma X4_ParseKeys_accepts_iff_witness :
  (∃ err, ParseKeys (ToPayload (NewDHTQuery "aa" "ping" ∅))
            [("q", "string"); ("a", "map")] = Ok err) ∧
  (ParseKeys (ToPayload (NewDHTQuery "aa" "ping" ∅))
     [("q", "string"); ("a", "map")] = Ok None ↔
   Forall (has_key_of_type (ToPayload (NewDHTQuery "aa" "ping" ∅)))
     [("q", "string"); ("a", "map")]).
Proof.
  apply X4_ParseKeys_accepts_iff.
  repeat constructor; unfold known_type; simpl; set_solver.
Defined.

(** X5: [parseMessage] never panics; it accepts exactly the dictionaries in
    which [t] and [y] are bound to strings, and hands back the dictionary
    itself. *)
Theorem X5_parseMessage_accepts_iff (data : bval) (p : payload) :
  (∃ r, parseMessage data = Ok r) ∧
  (parseMessage data = Ok (Some p) ↔
   data = BDict p ∧ ∃ t y, p !! "t" = Some (BStr t) ∧ p !! "y" = Some (BStr y)).
Proof.
  destruct data as [z|s|l|d]; simpl;
    try (split; [by eexists|]; split; [done|by intros [? _]]).
  assert (known_type "string") as Hs by (unfold known_type; set_solver).
  rewrite !(ParseKey_known _ _ _ Hs). simpl.
  destruct (d !! "t") as [[| t | |]|] eqn:Ht; simpl;
    try (split; [by eexists|]; split;
         [done|intros [[= ->] (t' & y' & Ht' & _)]; congruence]).
  destruct (d !! "y") as [[| y | |]|] eqn:Hy; simpl;
    try (split; [by eexists|]; split;
         [done|intros [[= ->] (t' & y' & _ & Hy')]; congruence]).
  split; [by eexists|]. split.
  - intros [= ->]. split; [done|]. by exists t, y.
  - by intros [[= ->] _].
Qed.

(** X6: a query written by [ToPayload] is read back unchanged by
    [NewDHTQueryFromPayload]; it passes [parseMessage] and the check of [q]
    and [a] that [handleRequest] makes first. *)
Theorem X6_query_payload_round_trip (q : DHTQuery) :
  NewDHTQueryFromPayload (ToPayload q) = Ok q ∧
  parseMessage (BDict (ToPayload q)) = Ok (Some (ToPayload q)) ∧
  ParseKeys (ToPayload q) [("q", "string"); ("a", "map")] = Ok None.
Proof.
  destruct q as [t qt a].
  unfold ToPayload, DHTQuery_ToPayload, NewDHTQueryFromPayload, parseMessage,
    ParseKeys, ParseKey; simpl.
  by simplify_map_eq.
Qed.

(** ** The peer index *)

Lemma keyedDeque_Delete_length {V} (key : V → string) d k0 :
  (length (keyedDeque.Delete key d k0) ≤ length d)%nat.
Proof. unfold keyedDeque.Delete. apply length_filter. Qed.

Lemma keyedDeque_Push_NoDup {V} (key : V → string) d v :
  NoDup (key <$> d) → NoDup (key <$> keyedDeque.Push key d (key v) v).
Proof.
  intros Hd. unfold keyedDeque.Push, keyedDeque.Delete.
  rewrite fmap_app. apply NoDup_app. split; [|split].
  - induction d as [|x d IH]; [constructor|].
    simpl in Hd. apply NoDup_cons in Hd as [Hx Hd].
    rewrite filter_cons. case_decide; [|by apply IH].
    simpl. apply NoDup_cons. split; [|by apply IH].
    intros Hin. apply Hx. apply list_elem_of_fmap in Hin as (y & -> & Hy).
    apply list_elem_of_filter in Hy as [_ Hy]. apply list_elem_of_fmap. by exists y.
  - intros k0 Hin Hk. simpl in Hk. apply list_elem_of_singleton in Hk as ->.
    apply list_elem_of_fmap in Hin as (y & Hky & Hy).
    apply list_elem_of_filter in Hy as [Hne _]. by apply Hne.
  - simpl. apply NoDup_singleton.
Qed.

Lemma peers_Insert_bounded K pm h peer :
  (0 ≤ K)%Z → peers_bounded K pm → peers_bounded K (peersManager.Insert K pm h peer).
Proof.
  intros HK Hpm h' l Hl. unfold peersManager.Insert in Hl.
  destruct (decide (h' = h)) as [->|Hne]; [|rewrite lookup_insert_ne in Hl by done; by eapply Hpm].
  rewrite lookup_insert_eq in Hl. injection Hl as <-.
  assert ((Z.of_nat (length (default [] (pm !! h))) ≤ K)%Z ∧
          NoDup (Peer_CompactIPPortInfo <$> default [] (pm !! h))) as [Hlen Hnd].
  { destruct (pm !! h) as [q|] eqn:Hq; simpl; [by eapply Hpm|].
    split; [done|constructor]. }
  pose proof (keyedDeque_Push_NoDup Peer_CompactIPPortInfo _ peer Hnd) as Hnd'.
  pose proof (keyedDeque_Delete_length Peer_CompactIPPortInfo (default [] (pm !! h))
                (Peer_CompactIPPortInfo peer)) as Hdl.
  set (q := keyedDeque.Push _ _ _ _) in *.
  assert (length q ≤ S (length (default [] (pm !! h))))%nat as Hq.
  { unfold q, keyedDeque.Push. rewrite length_app. simpl. lia. }
  case_bool_decide as Hover; unfold keyedDeque.Len in *.
  - unfold keyedDeque.RemoveFront. split; [rewrite length_drop; lia|].
    rewrite fmap_drop. eapply sublist_NoDup; [exact Hnd'|apply sublist_drop].
  - split; [lia|done].
Qed.

(** X7: with [K] at least 0, after any sequence of [Insert] calls the peer
    list of every infohash holds at most [K] peers, no two of them with the
    same compact endpoint. *)
Theorem X7_peer_lists_bounded
    (K : Z) (ops : list (string * Peer)) (h : string) (l : list Peer) :
  (0 ≤ K)%Z →
  pm_after K ops !! h = Some l →
  (Z.of_nat (length l) ≤ K)%Z ∧ NoDup (Peer_CompactIPPortInfo <$> l).
Proof.
  intros HK. revert h l. change (peers_bounded K (pm_after K ops)).
  induction ops as [|op ops IH] using rev_ind.
  - intros h l Hl. unfold pm_after in Hl. simpl in Hl. by rewrite lookup_empty in Hl.
  - unfold pm_after. rewrite foldl_app. simpl. by apply peers_Insert_bounded.
Qed.

Lemma X7_peer_lists_bounded_witness :
  (Z.of_nat (length [NewPeer [192; 0; 2; 8]%N 6881 "t2"]) ≤ 1)%Z ∧
  NoDup (Peer_CompactIPPortInfo <$> [NewPeer [192; 0; 2; 8]%N 6881 "t2"]).
Proof.
  apply (X7_peer_lists_bounded 1
           [(id_a, NewPeer [192; 0; 2; 7]%N 6881 "t1");
            (id_a, NewPeer [192; 0; 2; 8]%N 6881 "t2")] id_a); [lia|].
  vm_compute. reflexivity.
Defined.

Lemma makeslice_fits_true (elemSize cap : Z) :
  makeslice_fits elemSize cap = true ↔ (0 ≤ cap ∧ cap * elemSize ≤ 2 ^ 48)%Z.
Proof. unfold makeslice_fits, maxAlloc. apply bool_decide_eq_true. Qed.

(** X8: for a size that [make] accepts (from 0 to 2^44, the number of
    16 byte values that fit into [maxAlloc] bytes), [GetPeers] returns the
    last [size] peers of the stored list (all of them when there are fewer,
    none for an unknown infohash); for every other size, negative or too
    large, it panics in the allocation. *)
Theorem X8_GetPeers_newest (pm : peersManager.t) (h : string) (size : Z) :
  ((0 ≤ size ≤ 2 ^ 44)%Z →
   ∃ l, peersManager.GetPeers pm h size = Ok l ∧
        l `suffix_of` default [] (pm !! h) ∧
        length l = (Z.to_nat size `min` length (default [] (pm !! h)))%nat) ∧
  ((size < 0 ∨ 2 ^ 44 < size)%Z → is_Panic (peersManager.GetPeers pm h size)).
Proof.
  unfold peersManager.GetPeers. split; intros Hs.
  - assert (makeslice_fits 16 size = true) as ->
      by (apply makeslice_fits_true; lia).
    cbn [negb]. destruct (pm !! h) as [peers|]; simpl.
    + case_bool_decide.
      * eexists. split; [done|]. split; [apply suffix_drop|].
        rewrite length_drop. lia.
      * eexists. split; [done|]. split; [done|lia].
    + eexists. split; [done|]. split; [done|]. simpl. lia.
  - destruct (makeslice_fits 16 size) eqn:Hfits; [|by eexists].
    apply makeslice_fits_true in Hfits. lia.
Qed.

Lemma X8_GetPeers_newest_witness :
  ∃ l, peersManager.GetPeers
         (pm_after 8 [(id_a, NewPeer [192; 0; 2; 7]%N 6881 "t1");
                      (id_a, NewPeer [192; 0; 2; 8]%N 6881 "t2")]) id_a 1 = Ok l ∧
       l `suffix_of`
         default [] (pm_after 8 [(id_a, NewPeer [192; 0; 2; 7]%N 6881 "t1");
                                 (id_a, NewPeer [192; 0; 2; 8]%N 6881 "t2")] !! id_a) ∧
       length l =
         (Z.to_nat 1 `min`
          length (default []
                    (pm_after 8 [(id_a, NewPeer [192; 0; 2; 7]%N 6881 "t1");
                                 (id_a, NewPeer [192; 0; 2; 8]%N 6881 "t2")]
                     !! id_a)))%nat.
Proof.
  apply (proj1 (X8_GetPeers_newest
                  (pm_after 8 [(id_a, NewPeer [192; 0; 2; 7]%N 6881 "t1");
                               (id_a, NewPeer [192; 0; 2; 8]%N 6881 "t2")]) id_a 1)).
  lia.
Defined.

Lemma last_drop_lt {A} (l : list A) (n : nat) :
  (n < length l)%nat → last (drop n l) = last l.
Proof.
  revert n. induction l as [|x l IH]; intros [|n] Hn; simpl in *; try done; try lia.
  rewrite IH by lia. destruct l; [simpl in Hn; lia|done].
Qed.

(** X9: with [K] at least 1 and a size from 1 to 2^44 (what [make]
    accepts), the peer that [Insert] has just filed under an infohash is the
    last of the peers that [GetPeers] returns for it. *)
Theorem X9_inserted_peer_returned
    (K : Z) (pm : peersManager.t) (h : string) (peer : Peer) (size : Z) :
  (1 ≤ K)%Z → (1 ≤ size ≤ 2 ^ 44)%Z →
  ∃ l, peersManager.GetPeers (peersManager.Insert K pm h peer) h size = Ok l ∧
       last l = Some peer.
Proof.
  intros HK Hs. unfold peersManager.GetPeers, peersManager.Insert.
  assert (makeslice_fits 16 size = true) as ->
    by (apply makeslice_fits_true; lia).
  cbn [negb]. rewrite lookup_insert_eq.
  set (q := keyedDeque.Push _ _ _ _).
  assert (last q = Some peer) as Hlast by (unfold q, keyedDeque.Push; apply last_snoc).
  assert (0 < length q)%nat as Hpos.
  { unfold q, keyedDeque.Push. rewrite length_app. simpl. lia. }
  set (q' := if bool_decide (Z.of_nat (keyedDeque.Len q) > K)%Z then _ else _).
  assert (last q' = Some peer ∧ 0 < length q')%nat as [Hlast' Hpos'].
  { unfold q'. case_bool_decide as Hover; [|done].
    unfold keyedDeque.RemoveFront, keyedDeque.Len in *.
    rewrite length_drop. split; [|lia].
    rewrite last_drop_lt by lia. done. }
  case_bool_decide.
  - eexists. split; [done|]. rewrite last_drop_lt by lia. done.
  - by eexists.
Qed.

Lemma X9_inserted_peer_returned_witness :
  ∃ l, peersManager.GetPeers
         (peersManager.Insert 8 ∅ id_a (NewPeer [192; 0; 2; 7]%N 6881 "t1")) id_a 8
       = Ok l ∧
       last l = Some (NewPeer [192; 0; 2; 7]%N 6881 "t1").
Proof. apply X9_inserted_peer_returned; lia. Defined.

(** ** [Split] hands every node to one child *)

Lemma distribute_filter prefixLen l : ∀ c0 c1,
  Forall (λ n, is_Some (Node.id n)) l →
  routingTableNode_.distribute prefixLen l c0 c1 =
    Ok (c0 ++ filter (λ n, node_bit prefixLen n = 0%nat) l,
        c1 ++ filter (λ n, node_bit prefixLen n = 1%nat) l).
Proof.
  induction l as [|nd l IH]; intros c0 c1 Hl; simpl.
  { by rewrite !app_nil_r. }
  inversion Hl as [|? ? [i Hi] Hl']; subst.
  unfold routingTableNode_.ID_Bit, Node.deref, Node.ID. rewrite Hi. simpl.
  assert (node_bit prefixLen nd = bitmap.Bit i prefixLen) as Hbit
    by (unfold node_bit; by rewrite Hi).
  rewrite !filter_cons, !Hbit.
  destruct (Bit_cases i prefixLen) as [-> | ->]; simpl;
    rewrite IH by done; unfold keyedDeque.PushBack;
    by rewrite <- !app_assoc.
Qed.

(** X10: [Split] of a tree node whose bucket has a prefix shorter than 160
    bits, and holds only nodes with ids, gives it two new leaves (whatever
    children it had): the nodes and the candidates whose id has bit
    [prefixLen] 0 go to the first, the others to the second, in their order;
    the prefixes of the two buckets extend that of the bucket by 0 and by 1,
    and the bucket itself stays as it was. *)
Theorem X10_Split_partitions
    (now : Z) (c0 c1 : option routingTableNode) (b : kbucket) :
  Forall (λ n, is_Some (Node.id n)) (nodes b) →
  Forall (λ n, is_Some (Node.id n)) (candidates b) →
  bitmap.Size (prefix b) ≠ maxPrefixLength →
  routingTableNode_.Split now (TableNode c0 c1 (Some b)) =
    Ok (TableNode
          (Some (TableNode None None (Some
             {| nodes := filter (λ n, node_bit (bitmap.Size (prefix b)) n = 0%nat) (nodes b);
                candidates :=
                  filter (λ n, node_bit (bitmap.Size (prefix b)) n = 0%nat) (candidates b);
                lastChanged := now;
                prefix := prefix b ++ [false] |})))
          (Some (TableNode None None (Some
             {| nodes := filter (λ n, node_bit (bitmap.Size (prefix b)) n = 1%nat) (nodes b);
                candidates :=
                  filter (λ n, node_bit (bitmap.Size (prefix b)) n = 1%nat) (candidates b);
                lastChanged := now;
                prefix := prefix b ++ [true] |})))
          (Some b)).
Proof.
  intros Hn Hc Hsize. unfold routingTableNode_.Split. simpl.
  rewrite bool_decide_eq_false_2 by done.
  rewrite (distribute_filter _ _ _ _ Hn), (distribute_filter _ _ _ _ Hc). simpl.
  unfold kbucket_.UpdateTimestamp, kbucket_.set_candidates, kbucket_.set_nodes. simpl.
  by rewrite newBitmapFrom_extend, Set_last.
Qed.

Lemma X10_Split_partitions_witness :
  routingTableNode_.Split 1
    (TableNode None None (Some
       {| nodes := [node_first 0; node_first 128; node_first 64]; candidates := [];
          lastChanged := 0; prefix := [] |})) =
    Ok (TableNode
          (Some (TableNode None None (Some
             {| nodes := [node_first 0; node_first 64]; candidates := [];
                lastChanged := 1; prefix := [false] |})))
          (Some (TableNode None None (Some
             {| nodes := [node_first 128]; candidates := [];
                lastChanged := 1; prefix := [true] |})))
          (Some {| nodes := [node_first 0; node_first 128; node_first 64];
                   candidates := []; lastChanged := 0; prefix := [] |})).
Proof.
  apply (X10_Split_partitions 1 None None
           {| nodes := [node_first 0; node_first 128; node_first 64]; candidates := [];
              lastChanged := 0; prefix := [] |}).
  - repeat constructor; by eexists.
  - constructor.
  - simpl. unfold maxPrefixLength. lia.
Defined.

(** ** [Insert] and the node limit *)

Lemma Insert_loop_cachedNodes iters : ∀ now nd prefixLen root rt root' rt' r,
  routingTable_.Insert_loop iters now nd prefixLen root rt = Ok (root', rt', r) →
  cachedNodes rt' = cachedNodes rt ∨
  cachedNodes rt' = <[net.String_ (Node.Address nd) := nd]> (cachedNodes rt).
Proof.
  induction iters as [|iters IH];
    intros now nd prefixLen root rt root' rt' r H; simpl in H.
  { inv_Ok H. by left. }
  inv_bind H as bit Ebit.
  destruct (routingTableNode_.Child root bit) as [next|].
  { inv_bind H as [[next' rt1] r1] Erec. inv_Ok H. by eapply IH. }
  inv_bind H as bucket Ebucket. inv_bind H as id Eid.
  destruct (_ || _).
  { inv_bind H as [isNew bucket'] Eins. inv_Ok H. by right. }
  case_bool_decide.
  - inv_bind H as root1 Esplit. inv_bind H as bucket1 Ebucket1.
    destruct (routingTableNode_.Child _ 0) as [c0|]; [|done].
    destruct (routingTableNode_.Child _ 1) as [c1|]; [|done].
    inv_bind H as b0 Eb0. inv_bind H as b1 Eb1.
    destruct (routingTableNode_.Child _ bit) as [next|]; [|done].
    inv_bind H as [[next' rt1] r1] Erec. inv_Ok H.
    by apply IH in Erec.
  - inv_Ok H. by left.
Qed.

(** X11: [Insert] never takes the node cache beyond [MaxNodes]: the number
    of cached nodes after the call is at most the larger of [MaxNodes] and
    the number before it. *)
Theorem X11_Insert_respects_MaxNodes
    (bl : blackList.t) (MaxNodes now : Z) (rt : routingTable) (nd : Node.t)
    (isNew : bool) (rt' : routingTable) :
  routingTable_.Insert bl MaxNodes now rt nd = Ok (isNew, rt') →
  (Z.of_nat (routingTable_.Len rt') ≤ Z.of_nat (routingTable_.Len rt) `max` MaxNodes)%Z.
Proof.
  intros H. unfold routingTable_.Insert in H. unfold routingTable_.Len.
  destruct (_ || _) eqn:Hgate; [inv_Ok H; lia|].
  apply orb_false_iff in Hgate as [_ Hfull]. apply bool_decide_eq_false in Hfull.
  inv_bind H as [[root' rt1] r] Eloop. inv_Ok H.
  apply Insert_loop_cachedNodes in Eloop. simpl.
  destruct Eloop as [-> | ->]; [lia|].
  rewrite map_size_insert. destruct (cachedNodes rt !! _); simpl; lia.
Qed.

Lemma X11_Insert_respects_MaxNodes_witness :
  (Z.of_nat (routingTable_.Len (insert_all (routingTable_.newRoutingTable 0 2)
                                  [node_first 0]))
   ≤ Z.of_nat (routingTable_.Len (routingTable_.newRoutingTable 0 2)) `max` 5000)%Z.
Proof.
  apply (X11_Insert_respects_MaxNodes (blackList.newBlackList 8) 5000 0
           (routingTable_.newRoutingTable 0 2) (node_first 0) true).
  vm_compute. reflexivity.
Defined.

(** ** A node that [Insert] reports as new can be found *)

Lemma keyedDeque_Get_Push {V} (key : V → string) (d : list V) (v : V) :
  keyedDeque.Get key (keyedDeque.Push key d (key v) v) (key v) = Some v.
Proof.
  unfold keyedDeque.Get, keyedDeque.Push, keyedDeque.Delete.
  induction d as [|x d IH]; simpl.
  - by rewrite bool_decide_eq_true_2.
  - rewrite filter_cons. case_decide as Hx; [|done].
    simpl. by rewrite bool_decide_eq_false_2.
Qed.

Lemma Child_SetKBucket tn b j :
  routingTableNode_.Child (routingTableNode_.SetKBucket tn b) j
  = routingTableNode_.Child tn j.
Proof. by destruct tn. Qed.

Lemma KBucket_SetKBucket tn b :
  routingTableNode_.KBucket (routingTableNode_.SetKBucket tn b) = b.
Proof. by destruct tn. Qed.

Lemma GetNodeKBucktByID_loop_S iters id prefixLen root :
  routingTable_.GetNodeKBucktByID_loop (S iters) id prefixLen root =
    match routingTableNode_.Child root (bitmap.Bit id (prefixLen - 1)) with
    | None =>
        bucket ← routingTableNode_.bucket_deref (routingTableNode_.KBucket root);
        match keyedDeque.Get node_key (nodes bucket) (bitmap.RawString id) with
        | None => Ok None
        | Some nd => Ok (Some (nd, []))
        end
    | Some next =>
        r ← routingTable_.GetNodeKBucktByID_loop iters id (S prefixLen) next;
        match r with
        | Some (nd, path) => Ok (Some (nd, bitmap.Bit id (prefixLen - 1) :: path))
        | None => Ok None
        end
    end.
Proof. reflexivity. Qed.

Lemma Insert_loop_found iters : ∀ now nd i prefixLen root rt root' rt',
  Node.id nd = Some i →
  routingTable_.Insert_loop iters now nd prefixLen root rt = Ok (root', rt', Some true) →
  cachedNodes rt' !! net.String_ (Node.Address nd) = Some nd ∧
  ∃ path, routingTable_.GetNodeKBucktByID_loop iters i prefixLen root'
          = Ok (Some (nd, path)).
Proof.
  induction iters as [|iters IH];
    intros now nd i prefixLen root rt root' rt' Hid H; simpl in H.
  { done. }
  inv_bind H as bit Ebit. apply ID_Bit_Ok in Ebit as (i' & Hid' & ->).
  assert (i' = i) as -> by congruence.
  rewrite GetNodeKBucktByID_loop_S.
  destruct (routingTableNode_.Child root (bitmap.Bit i (prefixLen - 1)))
    as [next|] eqn:Echild.
  { inv_bind H as [[next' rt1] r1] Erec. inv_Ok H.
    rewrite (Child_SetChild _ _ _ _ Echild).
    destruct (IH _ _ _ _ _ _ _ _ Hid Erec) as (Hc & path & ->).
    split; [done|]. by eexists. }
  inv_bind H as bucket Ebucket. inv_bind H as id Eid.
  destruct (_ || _).
  { inv_bind H as [isNew bucket'] Eins. inv_Ok H.
    rewrite Child_SetKBucket, Echild, KBucket_SetKBucket. simpl.
    split; [apply lookup_insert_eq|].
    unfold kbucket_.Insert, Node.IDRawString, Node.deref in Eins.
    rewrite Hid in Eins. simpl in Eins. inv_Ok Eins. simpl.
    assert (node_key nd = bitmap.RawString i) as <-
      by (unfold node_key; by rewrite Hid).
    rewrite keyedDeque_Get_Push. by eexists. }
  case_bool_decide; [|by inv_Ok H].
  inv_bind H as root1 Esplit. inv_bind H as bucket1 Ebucket1.
  rewrite !Child_SetKBucket in H.
  destruct (routingTableNode_.Child root1 0) as [c0|]; [|done].
  destruct (routingTableNode_.Child root1 1) as [c1|]; [|done].
  inv_bind H as b0 Eb0. inv_bind H as b1 Eb1.
  destruct (routingTableNode_.Child root1 (bitmap.Bit i (prefixLen - 1)))
    as [next|] eqn:Echild'; [|done].
  inv_bind H as [[next' rt1] r1] Erec. inv_Ok H.
  rewrite <- (Child_SetKBucket root1 None) in Echild'.
  rewrite (Child_SetChild _ _ _ _ Echild').
  destruct (IH _ _ _ _ _ _ _ _ Hid Erec) as (Hc & path & ->).
  split; [done|]. by eexists.
Qed.

(** X12: a node that [Insert] reports as new is afterwards cached under its
    address, and [GetNodeKBucktByID] finds it by its id. *)
Theorem X12_inserted_node_found
    (bl : blackList.t) (MaxNodes now : Z) (rt : routingTable) (nd : Node.t)
    (rt' : routingTable) :
  routingTable_.Insert bl MaxNodes now rt nd = Ok (true, rt') →
  routingTable_.GetNodeByAddress rt' (net.String_ (Node.Address nd)) = Some nd ∧
  ∃ path, routingTable_.GetNodeKBucktByID rt' (Node.ID nd) = Ok (Some (nd, path)).
Proof.
  intros H. unfold routingTable_.Insert in H.
  destruct (_ || _); [by inv_Ok H|].
  inv_bind H as [[root' rt1] r] Eloop. injection H as Hr <-.
  destruct r as [[|]|]; try done. clear Hr.
  destruct (Node.id nd) as [i|] eqn:Hid.
  - destruct (Insert_loop_found _ _ _ _ _ _ _ _ _ Hid Eloop) as (Hc & path & Hp).
    split; [done|]. exists path.
    unfold routingTable_.GetNodeKBucktByID, Node.ID. rewrite Hid. exact Hp.
  - change maxPrefixLength with (S 159) in Eloop.
    by apply Insert_loop_needs_id in Eloop.
Qed.

Lemma X12_inserted_node_found_witness :
  routingTable_.GetNodeByAddress
    (insert_all (routingTable_.newRoutingTable 0 2) [node_first 0])
    (net.String_ (Node.Address (node_first 0))) = Some (node_first 0) ∧
  ∃ path,
    routingTable_.GetNodeKBucktByID
      (insert_all (routingTable_.newRoutingTable 0 2) [node_first 0])
      (Node.ID (node_first 0)) = Ok (Some (node_first 0, path)).
Proof.
  apply (X12_inserted_node_found (blackList.newBlackList 8) 5000 0
           (routingTable_.newRoutingTable 0 2) (node_first 0)).
  vm_compute. reflexivity.
Defined.

(** ** No bucket of a reachable table holds a candidate *)

Lemma SetChild_no_candidates tn bit c :
  no_candidates tn → no_candidates c →
  no_candidates (routingTableNode_.SetChild tn bit (Some c)).
Proof.
  destruct tn as [c0 c1 b]. intros (Hb & H0 & H1) Hc.
  destruct bit as [|[|bit]]; simpl; done.
Qed.

Lemma Child_no_candidates tn bit c :
  no_candidates tn → routingTableNode_.Child tn bit = Some c → no_candidates c.
Proof.
  destruct tn as [c0 c1 b]. intros (Hb & H0 & H1) H. simpl in H.
  destruct bit as [|[|bit]]; [by subst c0|by subst c1|done].
Qed.

Lemma SetKBucket_no_candidates tn b :
  no_candidates tn → match b with Some b => candidates b = [] | None => True end →
  no_candidates (routingTableNode_.SetKBucket tn b).
Proof. destruct tn as [c0 c1 b0]. by intros (_ & H0 & H1) Hb. Qed.

Lemma KBucket_no_candidates tn b :
  no_candidates tn →
  routingTableNode_.bucket_deref (routingTableNode_.KBucket tn) = Ok b →
  candidates b = [].
Proof. destruct tn as [c0 c1 [b0|]]; intros (Hb & _) H; [by inv_Ok H|done]. Qed.

Lemma Split_no_candidates now tn tn' :
  no_candidates tn → routingTableNode_.Split now tn = Ok tn' → no_candidates tn'.
Proof.
  intros Hn H. unfold routingTableNode_.Split in H.
  destruct tn as [c0 c1 [b|]]; [|done]. simpl in H.
  destruct Hn as (Hb & H0 & H1).
  case_bool_decide; [by inv_Ok H|].
  inv_bind H as [n0 n1] En. rewrite Hb in H. simpl in H. by inv_Ok H.
Qed.

Lemma Replace_no_candidates now b nd b' :
  candidates b = [] → kbucket_.Replace now b nd = Ok b' → candidates b' = [].
Proof.
  intros Hb H. unfold kbucket_.Replace in H. inv_bind H as raw Eraw.
  simpl in H. rewrite Hb in H. simpl in H. by inv_Ok H.
Qed.

Lemma Insert_loop_no_candidates iters : ∀ now nd prefixLen root rt path root' rt' r,
  shares_prefix path nd →
  prefixLen = S (length path) →
  tree_ok path root →
  no_candidates root →
  routingTable_.Insert_loop iters now nd prefixLen root rt = Ok (root', rt', r) →
  no_candidates root' ∧ freshed rt' = freshed rt.
Proof.
  induction iters as [|iters IH];
    intros now nd prefixLen root rt path root' rt' r Hnd -> Ht Hn H; simpl in H.
  { by inv_Ok H. }
  rewrite Nat.sub_0_r in H.
  inv_bind H as bit Ebit. apply ID_Bit_Ok in Ebit as (i & Hid & ->).
  pose proof (shares_prefix_branch _ _ _ Hnd Hid) as Hnd'.
  assert (Hlen : S (S (length path))
                 = S (length (path ++ [branch (bitmap.Bit i (length path))])))
    by (rewrite length_app; simpl; lia).
  destruct (routingTableNode_.Child root (bitmap.Bit i (length path)))
    as [next|] eqn:Echild.
  { inv_bind H as [[next' rt1] r1] Erec. inv_Ok H.
    destruct (IH _ _ _ _ _ _ _ _ _ Hnd' Hlen (Child_tree_ok _ _ _ _ Ht Echild)
                (Child_no_candidates _ _ _ Hn Echild) Erec) as [Hn' Hf].
    split; [by apply SetChild_no_candidates|done]. }
  inv_bind H as bucket Ebucket.
  pose proof (KBucket_tree_ok _ _ _ Ht Ebucket) as Hbucket.
  pose proof (KBucket_no_candidates _ _ Hn Ebucket) as Hcands.
  inv_bind H as id Eid.
  assert (id = i) as ->.
  { unfold Node.deref, Node.ID in Eid. rewrite Hid in Eid. by inv_Ok Eid. }
  destruct (_ || _).
  { inv_bind H as [isNew bucket'] Eins. inv_Ok H.
    split; [|done]. apply SetKBucket_no_candidates; [done|].
    unfold kbucket_.Insert in Eins. inv_bind Eins as raw Eraw. by inv_Ok Eins. }
  case_bool_decide as Hcmp.
  - inv_bind H as root1 Esplit.
    pose proof (Split_ok _ _ _ _ Ht Esplit) as Ht1.
    pose proof (Split_no_candidates _ _ _ Hn Esplit) as Hn1.
    inv_bind H as bucket1 Ebucket1.
    rewrite !Child_SetKBucket in H.
    destruct (routingTableNode_.Child root1 0) as [c0|] eqn:Ec0; [|done].
    destruct (routingTableNode_.Child root1 1) as [c1|] eqn:Ec1; [|done].
    inv_bind H as b0 Eb0. inv_bind H as b1 Eb1.
    destruct (routingTableNode_.Child root1 (bitmap.Bit i (length path)))
      as [next|] eqn:Echild'; [|done].
    inv_bind H as [[next' rt1] r1] Erec. inv_Ok H.
    destruct (IH _ _ _ _ _ _ _ _ _ Hnd' Hlen (Child_tree_ok _ _ _ _ Ht1 Echild')
                (Child_no_candidates _ _ _ Hn1 Echild') Erec) as [Hn' Hf].
    split; [|done]. apply SetChild_no_candidates; [|done].
    by apply SetKBucket_no_candidates.
  - exfalso. apply Hcmp. destruct Hbucket as (-> & _).
    destruct Hnd as (i' & Hi' & Hagree).
    assert (i' = i) as -> by congruence.
    unfold bitmap.Compare. apply Compare_from_agree.
    intros j Hj. apply Hagree. unfold bitmap.Size. lia.
Qed.

Lemma update_node_no_candidates path f : ∀ tn tn',
  (∀ t t', no_candidates t → f t = Ok t' → no_candidates t') →
  no_candidates tn →
  routingTable_.update_node path f tn = Ok tn' →
  no_candidates tn'.
Proof.
  induction path as [|i path IH]; intros tn tn' Hf Hn H; simpl in H.
  - by eapply Hf.
  - destruct (routingTableNode_.Child tn i) as [c|] eqn:Ec; [|done].
    inv_bind H as c' Ec'. inv_Ok H.
    apply SetChild_no_candidates; [done|].
    eapply IH; [done| |exact Ec']. by eapply Child_no_candidates.
Qed.

Lemma Remove_no_candidates now rt id rt' :
  no_candidates (root rt) →
  routingTable_.Remove now rt id = Ok rt' →
  no_candidates (root rt') ∧ freshed rt' = freshed rt.
Proof.
  intros Hn H. unfold routingTable_.Remove in H.
  inv_bind H as found Efound. destruct found as [[nd path]|]; [|by inv_Ok H].
  inv_bind H as root' Eupd.
  assert (no_candidates root') as Hn'.
  { eapply update_node_no_candidates; [|exact Hn|exact Eupd].
    intros t t' Ht Hupd. inv_bind Hupd as b Eb. inv_bind Hupd as b' Eb'.
    inv_Ok Hupd. apply SetKBucket_no_candidates; [done|].
    eapply Replace_no_candidates; [|exact Eb']. by eapply KBucket_no_candidates. }
  destruct (_ ≫= _); [|done]. by inv_Ok H.
Qed.

Lemma reachable_no_candidates rt :
  reachable rt → no_candidates (root rt) ∧ freshed rt = [].
Proof.
  induction 1 as [now k|rt bl MaxNodes now nd isNew rt' Hr [IHn IHf] H
                 |rt now id rt' _ [IHn IHf] H|rt now address rt' _ [IHn IHf] H
                 |rt now path root' _ [IHn IHf] H].
  - done.
  - apply reachable_tree_ok in Hr. unfold routingTable_.Insert in H.
    destruct (_ || _); [by inv_Ok H|].
    inv_bind H as [[root' rt1] r] Eloop. inv_Ok H.
    change (no_candidates root' ∧ freshed rt1 = []).
    destruct (Node.id nd) as [i|] eqn:Hid.
    + rewrite <- IHf.
      eapply Insert_loop_no_candidates;
        [by eapply shares_prefix_nil|reflexivity|exact Hr|exact IHn|exact Eloop].
    + exfalso. revert Eloop. change maxPrefixLength with (S 159).
      by apply Insert_loop_needs_id.
  - rewrite <- IHf. by eapply Remove_no_candidates.
  - unfold routingTable_.RemoveByAddr in H.
    destruct (cachedNodes rt !! address); [|by inv_Ok H].
    rewrite <- IHf. by eapply Remove_no_candidates.
  - split; [|done]. simpl.
    eapply update_node_no_candidates; [|exact IHn|exact H].
    intros t t'. apply Split_no_candidates.
Qed.

Lemma no_candidates_at path : ∀ tn tn' b,
  no_candidates tn →
  routingTable_.node_at_path path tn = Some tn' →
  routingTableNode_.KBucket tn' = Some b →
  candidates b = [].
Proof.
  induction path as [|i path IH]; intros tn tn' b Hn Hp Hb; simpl in Hp.
  - injection Hp as <-. destruct tn as [c0 c1 [b0|]]; simpl in Hb; [|done].
    injection Hb as <-. by destruct Hn.
  - destruct (routingTableNode_.Child tn i) as [c|] eqn:Ec; [|done]. simpl in Hp.
    eapply IH; [|exact Hp|exact Hb]. by eapply Child_no_candidates.
Qed.

(** X13: in every table built from the empty one by [Insert], [Remove],
    [RemoveByAddr] and [Split], no bucket holds a candidate and [Insert] has
    never started [Fresh] on a bucket: the bucket that [Insert] reaches
    always has the prefix of the id it followed, so the last branch of
    [Insert], the only place that files candidates, is never taken. *)
Theorem X13_candidates_never_filed
    (rt : routingTable) (path : list nat) (tn : routingTableNode) (b : kbucket) :
  reachable rt →
  routingTable_.node_at_path path (root rt) = Some tn →
  routingTableNode_.KBucket tn = Some b →
  candidates b = [] ∧ freshed rt = [].
Proof.
  intros Hr Hp Hb. apply reachable_no_candidates in Hr as [Hn Hf].
  split; [|done]. by eapply no_candidates_at.
Qed.

Lemma X13_candidates_never_filed_witness :
  candidates bucket_left = [] ∧ freshed rt_split = [].
Proof.
  apply (X13_candidates_never_filed rt_split [0%nat]
           (TableNode None None (Some bucket_left)) bucket_left).
  - apply insert_all_reachable. apply reach_new.
  - rewrite rt_split_root. reflexivity.
  - reflexivity.
Defined.

(** ** [getTopK] returns nodes of the queue *)

Lemma Less_is_Ok h i j :
  (i < length h)%nat → (j < length h)%nat → ∃ b, topKHeap_.Less h i j = Ok b.
Proof.
  intros Hi Hj. unfold topKHeap_.Less.
  destruct (lookup_lt_is_Some_2 h i Hi) as [a ->].
  destruct (lookup_lt_is_Some_2 h j Hj) as [b ->]. by eexists.
Qed.

Lemma Swap_perm h i j :
  (i < length h)%nat → (j < length h)%nat →
  ∃ h', topKHeap_.Swap h i j = Ok h' ∧ h' ≡ₚ h.
Proof.
  intros Hi Hj. unfold topKHeap_.Swap.
  destruct (lookup_lt_is_Some_2 h i Hi) as [a Ha].
  destruct (lookup_lt_is_Some_2 h j Hj) as [b Hb]. rewrite Ha, Hb.
  eexists. split; [done|]. by apply Permutation_insert_swap.
Qed.

Lemma up_perm fuel : ∀ h j,
  (j < fuel)%nat → (j < length h)%nat →
  ∃ h', heap.up fuel h j = Ok h' ∧ h' ≡ₚ h.
Proof.
  induction fuel as [|fuel IH]; intros h j Hj Hlen; [lia|].
  assert (Hdiv : ((j - 1) / 2 ≤ j - 1)%nat)
    by (apply Nat.Div0.div_le_upper_bound; lia).
  cbn [heap.up]. set (i := ((j - 1) / 2)%nat) in *.
  case_bool_decide as Hi; [by eexists|].
  destruct (Less_is_Ok h j i) as [lt ->]; [lia|lia|]. simpl.
  destruct lt; cbn [negb]; [|by eexists].
  destruct (Swap_perm h i j) as (h1 & -> & Hp1); [lia|lia|]. simpl.
  destruct (IH h1 i) as (h2 & -> & Hp2); [lia|rewrite Hp1; lia|].
  exists h2. split; [done|]. by rewrite Hp2.
Qed.

Lemma down_perm fuel : ∀ h i n,
  (i ≤ n < i + fuel)%nat → (n ≤ length h)%nat →
  ∃ h', heap.down fuel h i n = Ok h' ∧ h' ≡ₚ h.
Proof.
  induction fuel as [|fuel IH]; intros h i n Hn Hlen; [lia|].
  cbn [heap.down]. case_bool_decide as Hj1; [by eexists|].
  assert (∃ lt21 : bool,
            ((if bool_decide (2 * i + 1 + 1 < n)%nat
              then topKHeap_.Less h (2 * i + 1 + 1) (2 * i + 1) else Ok false)
             : result bool) = Ok lt21 ∧
            (lt21 = true → (2 * i + 1 + 1 < n)%nat)) as (lt21 & -> & Hlt21).
  { case_bool_decide as Hj2.
    - destruct (Less_is_Ok h (2 * i + 1 + 1) (2 * i + 1)) as [b ->]; [lia|lia|].
      by exists b.
    - by exists false. }
  simpl. set (j := if lt21 then _ else _).
  assert (i < j < n)%nat as Hj.
  { unfold j. destruct lt21; [specialize (Hlt21 eq_refl)|]; lia. }
  destruct (Less_is_Ok h j i) as [lt ->]; [lia|lia|]. simpl.
  destruct lt; cbn [negb]; [|by eexists].
  destruct (Swap_perm h i j) as (h1 & -> & Hp1); [lia|lia|]. simpl.
  destruct (IH h1 j n) as (h2 & -> & Hp2); [lia|rewrite Hp1; lia|].
  exists h2. split; [done|]. by rewrite Hp2.
Qed.

Lemma heap_Push_perm h x : ∃ h', heap.Push h x = Ok h' ∧ h' ≡ₚ x :: h.
Proof.
  unfold heap.Push, topKHeap_.Push, topKHeap_.Len.
  destruct (up_perm (S (length (h ++ [x]))) (h ++ [x]) (length (h ++ [x]) - 1))
    as (h' & -> & Hp); [lia|rewrite length_app; simpl; lia|].
  exists h'. split; [done|]. by rewrite Hp, <- Permutation_cons_append.
Qed.

Lemma heap_Pop_perm h :
  (0 < length h)%nat → ∃ x h', heap.Pop h = Ok (x, h') ∧ h ≡ₚ x :: h'.
Proof.
  intros Hlen. unfold heap.Pop, topKHeap_.Len.
  rewrite bool_decide_eq_false_2 by lia.
  destruct (Swap_perm h 0 (length h - 1)) as (h1 & -> & Hp1); [lia|lia|].
  cbn [mbind result_bind].
  destruct (down_perm (S (length h - 1)) h1 0 (length h - 1))
    as (h2 & -> & Hp2); [lia|rewrite Hp1; lia|].
  cbn [mbind result_bind].
  assert (length h2 = length h) as Hl2 by (by rewrite Hp2, Hp1).
  unfold topKHeap_.Pop. rewrite bool_decide_eq_false_2 by lia.
  destruct (lookup_lt_is_Some_2 h2 (length h2 - 1)) as [x Hx]; [lia|].
  rewrite Hx. exists x, (take (length h2 - 1) h2). split; [done|].
  rewrite <- Hp1, <- Hp2. rewrite Permutation_cons_append.
  rewrite <- (take_drop (length h2 - 1) h2) at 1. f_equiv.
  apply reflexive_eq, list_eq. intros [|n]; simpl.
  - by rewrite lookup_drop, Nat.add_0_r.
  - rewrite lookup_drop. apply lookup_ge_None_2. lia.
Qed.

Lemma getTopK_step_perm id k h v :
  (1 ≤ k)%Z → is_Some (Node.id v) → (Z.of_nat (length h) ≤ k)%Z →
  ∃ h', getTopK_step id k h v = Ok h' ∧
        length h' = (Z.to_nat k `min` S (length h))%nat ∧
        value <$> h' ⊆+ v :: (value <$> h).
Proof.
  intros Hk [nid Hid] Hlen. unfold getTopK_step, Node.deref, Node.ID, topKHeap_.Len.
  rewrite Hid. simpl.
  case_bool_decide as Hfull.
  - rewrite bool_decide_eq_false_2 by lia.
    destruct (lookup_lt_is_Some_2 h (length h - 1)) as [lst ->]; [lia|].
    case_bool_decide.
    + destruct (heap_Push_perm h {| distance := bitmap.Xor id nid; value := v |})
        as (h1 & -> & Hp1). simpl.
      destruct (heap_Pop_perm h1) as (x & h2 & -> & Hp2); [rewrite Hp1; simpl; lia|].
      simpl. exists h2. split; [done|].
      assert (length h1 = S (length h2)) as Hl by (by rewrite Hp2).
      assert (length h1 = S (length h)) as Hl' by (by rewrite Hp1).
      split; [lia|].
      transitivity (value <$> h1).
      * rewrite Hp2. rewrite fmap_cons. by apply submseteq_cons.
      * rewrite Hp1. done.
    + exists h. split; [done|]. split; [lia|]. by apply submseteq_cons.
  - destruct (heap_Push_perm h {| distance := bitmap.Xor id nid; value := v |})
      as (h1 & -> & Hp1).
    exists h1. split; [done|].
    split; [rewrite Hp1; simpl; lia|]. by rewrite Hp1.
Qed.

Lemma getTopK_loop_perm id k queue : ∀ h,
  (1 ≤ k)%Z → Forall (λ n, is_Some (Node.id n)) queue →
  (Z.of_nat (length h) ≤ k)%Z →
  ∃ h', getTopK_loop id k h queue = Ok h' ∧
        length h' = (Z.to_nat k `min` (length h + length queue))%nat ∧
        value <$> h' ⊆+ queue ++ (value <$> h).
Proof.
  induction queue as [|v queue IH]; intros h Hk Hq Hlen; simpl.
  - exists h. split; [done|]. split; [lia|done].
  - inversion Hq as [|? ? Hv Hq']; subst.
    destruct (getTopK_step_perm id k h v Hk Hv Hlen) as (h1 & -> & Hl1 & Hs1). simpl.
    destruct (IH h1 Hk Hq') as (h2 & -> & Hl2 & Hs2); [lia|].
    exists h2. split; [done|]. split; [lia|].
    simpl. rewrite Permutation_middle.
    etransitivity; [exact Hs2|]. by apply submseteq_app.
Qed.

Lemma getTopK_drain_perm n : ∀ h tops,
  n = length h →
  ∃ l, getTopK_drain n h tops = Ok l ∧ l ≡ₚ (value <$> h) ++ tops.
Proof.
  induction n as [|n IH]; intros h tops Hn; simpl.
  - destruct h; [|done]. by exists tops.
  - destruct (heap_Pop_perm h) as (x & h1 & -> & Hp); [lia|]. simpl.
    destruct (IH h1 (value x :: tops)) as (l & -> & Hl).
    { apply Permutation_length in Hp. simpl in Hp. lia. }
    exists l. split; [done|]. rewrite Hl, Hp. simpl.
    by rewrite Permutation_middle.
Qed.

(** X14: for [k] from 1 up to the largest capacity that [make] accepts
    for the heap ([k+1] pointers within [maxAlloc] bytes, so [k] below
    2^45) and a queue of nodes that all have an id, [getTopK] does not
    panic; it returns [k] nodes, or all of them when the queue holds fewer,
    and each returned node is a node of the queue, taken no more often than
    it occurs there.  From 2^45 on, which includes the largest [int],
    [getTopK] panics in the allocation of the heap. *)
Theorem X14_getTopK_returns_queue_nodes
    (queue : list Node.t) (id : bitmap.t) (k : Z) :
  ((1 ≤ k < 2 ^ 45)%Z →
   Forall (λ n, is_Some (Node.id n)) queue →
   ∃ l, getTopK queue id k = Ok l ∧
        length l = (Z.to_nat k `min` length queue)%nat ∧
        l ⊆+ queue) ∧
  ((2 ^ 45 ≤ k)%Z → is_Panic (getTopK queue id k)).
Proof.
  split.
  - intros Hk Hq. unfold getTopK.
    assert (makeslice_fits 8 (k + 1) = true) as ->
      by (apply makeslice_fits_true; lia).
    cbn [negb].
    destruct (getTopK_loop_perm id k queue []) as (h & -> & Hl & Hs);
      [lia|done|simpl; lia|]. simpl.
    destruct (getTopK_drain_perm (topKHeap_.Len h) h [] eq_refl) as (l & -> & Hp).
    exists l. split; [done|]. rewrite app_nil_r in Hp, Hs. simpl in Hs.
    split; [|by rewrite Hp].
    apply Permutation_length in Hp. rewrite length_fmap in Hp. simpl in Hl. lia.
  - intros Hk. unfold getTopK.
    destruct (makeslice_fits 8 (k + 1)) eqn:Hfits; [|by eexists].
    apply makeslice_fits_true in Hfits. lia.
Qed.

Lemma X14_getTopK_returns_queue_nodes_witness :
  ∃ l, getTopK [node_at 5 6881; node_at 1 6881; node_at 3 6881] (id_of_byte 0) 2
       = Ok l ∧
       length l = (Z.to_nat 2 `min`
                   length [node_at 5 6881; node_at 1 6881; node_at 3 6881])%nat ∧
       l ⊆+ [node_at 5 6881; node_at 1 6881; node_at 3 6881].
Proof.
  apply (proj1 (X14_getTopK_returns_queue_nodes
                  [node_at 5 6881; node_at 1 6881; node_at 3 6881]
                  (id_of_byte 0) 2)); [lia|].
  repeat constructor; by eexists.
Defined.

(** X15: with [k] equal to 0 and a queue that is not empty, [getTopK]
    panics: the first iteration finds the heap at its full size 0 and reads
    index -1 of it (or dereferences the nil id of the node).  A [k] below -1
    panics too, in the allocation of the heap. *)
Theorem X15_getTopK_zero_panics
    (v : Node.t) (queue : list Node.t) (id : bitmap.t) (k : Z) :
  is_Panic (getTopK (v :: queue) id 0) ∧
  ((k < -1)%Z → is_Panic (getTopK queue id k)).
Proof.
  split.
  - unfold getTopK.
    assert (makeslice_fits 8 (0 + 1) = true) as ->
      by (apply makeslice_fits_true; lia).
    simpl. unfold getTopK_step, Node.deref.
    destruct (Node.ID v); simpl; by eexists.
  - intros Hk. unfold getTopK.
    destruct (makeslice_fits 8 (k + 1)) eqn:Hfits; [|by eexists].
    apply makeslice_fits_true in Hfits. lia.
Qed.

(** ** What a query leaves behind *)

Lemma send_frame `{DHTPayload A} now dht addr (q : A) :
  transactionManager_of (send now dht addr q).2 = transactionManager_of dht ∧
  routingTable_of (send now dht addr q).2 = routingTable_of dht.
Proof. unfold send. by destruct (failures (conn dht)) as [|[|] rest]. Qed.

Lemma query_loop_frame n : ∀ now dht q waits success,
  transactionManager_of (transactionManager_.query_loop n now dht q waits success).2
    = transactionManager_of dht ∧
  routingTable_of (transactionManager_.query_loop n now dht q waits success).2
    = routingTable_of dht.
Proof.
  induction n as [|n IH]; intros now dht q waits success; simpl; [done|].
  pose proof (send_frame now dht (Node.Address (q_Node q)) (q_Data q)) as [Ht Hr].
  destruct (send now dht (Node.Address (q_Node q)) (q_Data q)) as [err dht1].
  simpl in Ht, Hr. destruct err; [done|].
  destruct waits as [|[|] waits']; rewrite <- Ht, <- Hr; apply IH.
Qed.

Lemma delete_insert_fresh (tm : transactionManager) (trans : Transaction) :
  transactions tm !! t_ID trans = None →
  index tm !! transactionManager_.genIndexKeyByTrans trans = None →
  transactionManager_.delete (transactionManager_.insert tm trans) (t_ID trans) = tm.
Proof.
  intros Ht Hi. unfold transactionManager_.delete, transactionManager_.insert. simpl.
  rewrite lookup_insert_eq. unfold transactionManager_.set_maps. simpl.
  rewrite !delete_insert_id by done. by destruct tm.
Qed.

(** X16: when neither the id of the query nor its index key is live, [query]
    on a reachable table returns with the transaction manager exactly as it
    was: the deferred [delete] takes back what [insert] put in, whatever
    happened in between. *)
Theorem X16_query_restores_transactions
    (now : Z) (dht : DHT) (q : Query) (try : Z) (waits : list signal) :
  reachable (routingTable_of dht) →
  transactions (transactionManager_of dht) !! q_TransactionID (q_Data q) = None →
  index (transactionManager_of dht)
    !! transactionManager_.genIndexKey (QueryType (q_Data q))
         (net.String_ (Node.Address (q_Node q))) = None →
  ∃ dht',
    transactionManager_.query now dht q try waits = Ok dht' ∧
    transactionManager_of dht' = transactionManager_of dht.
Proof.
  intros Hreach Ht Hi. unfold transactionManager_.query.
  set (trans := transactionManager_.newTransaction _ q).
  set (dht0 := DHT_.set_transactionManager dht _).
  pose proof (query_loop_frame (Z.to_nat try) now dht0 q waits false) as [Htm Hrt].
  destruct (transactionManager_.query_loop _ now dht0 q waits false) as [success dht1].
  simpl in Htm, Hrt.
  destruct (negb success && _).
  - destruct (RemoveByAddr_total now (routingTable_of dht1)
                (net.String_ (Node.Address (q_Node q)))) as (rt' & Hrem & _).
    { rewrite Hrt. by apply reachable_rt_ok. }
    simpl. rewrite Hrem. simpl. eexists. split; [done|]. simpl.
    rewrite Htm. by apply delete_insert_fresh.
  - simpl. eexists. split; [done|]. simpl.
    rewrite Htm. by apply delete_insert_fresh.
Qed.

Lemma X16_query_restores_transactions_witness :
  ∃ dht',
    transactionManager_.query 0 dht_example (ping_query (int2bytes 1)) 2 [TimedOut]
      = Ok dht' ∧
    transactionManager_of dht' = transactionManager_of dht_example.
Proof.
  apply (X16_query_restores_transactions 0 dht_example (ping_query (int2bytes 1)) 2
           [TimedOut]).
  - apply reach_new.
  - reflexivity.
  - reflexivity.
Defined.




(** X18: when the first write fails, [query] on a reachable table writes
    nothing and makes no second attempt, whatever [try] is, and the target
    ends up blacklisted, with or without an id. *)
Theorem X18_failed_write_stops_query
    (now : Z) (dht : DHT) (q : Query) (try : Z) (waits : list signal)
    (rest : list bool) :
  reachable (routingTable_of dht) →
  failures (conn dht) = true :: rest →
  (1 ≤ try)%Z →
  ∃ dht',
    transactionManager_.query now dht q try waits = Ok dht' ∧
    written (conn dht') = written (conn dht) ∧
    failures (conn dht') = rest ∧
    blackList.in_ (blackList_of dht')
      (net.IP_String (net.IP_ (Node.Address (q_Node q))))
      (net.Port (Node.Address (q_Node q))) = true.
Proof.
  intros Hreach Hf Htry. unfold transactionManager_.query.
  destruct (Z.to_nat try) as [|n] eqn:Hn; [lia|].
  simpl. unfold send at 1. simpl. rewrite Hf. simpl.
  destruct (Node.ID (q_Node q)) as [i|] eqn:Hid.
  - rewrite bool_decide_eq_true_2 by by eexists.
    destruct (RemoveByAddr_total now (routingTable_of dht)
                (net.String_ (Node.Address (q_Node q)))) as (rt' & Hrem & _);
      [by apply reachable_rt_ok|].
    simpl. rewrite Hrem. simpl. eexists. split; [done|]. simpl.
    split; [done|]. split; [done|]. apply blackList_in_insert.
  - rewrite bool_decide_eq_false_2 by (by intros [? ?]).
    simpl. eexists. split; [done|]. simpl.
    split; [done|]. split; [done|]. apply blackList_in_insert_wildcard.
Qed.

Lemma X18_failed_write_stops_query_witness :
  ∃ dht',
    transactionManager_.query 0
      (DHT_.set_conn dht_example {| written := []; failures := [true; false] |})
      (ping_query (int2bytes 1)) 2 [Responded] = Ok dht' ∧
    written (conn dht') = [] ∧
    failures (conn dht') = [false] ∧
    blackList.in_ (blackList_of dht')
      (net.IP_String (net.IP_ (Node.Address (q_Node (ping_query (int2bytes 1))))))
      (net.Port (Node.Address (q_Node (ping_query (int2bytes 1))))) = true.
Proof.
  apply (X18_failed_write_stops_query 0
           (DHT_.set_conn dht_example {| written := []; failures := [true; false] |})
           (ping_query (int2bytes 1)) 2 [Responded] [false]).
  - apply reach_new.
  - reflexivity.
  - lia.
Defined.

(** ** Requests that pass the checks of the id *)

Lemma ParseKey_int_ok (data : payload) key z :
  data !! key = Some (BInt z) → ParseKey data key "int" = Ok None.
Proof. intros H. unfold ParseKey. by rewrite H. Qed.

Lemma handleRequest_dispatch now rnd dht addr (p : payload) t q id args own :
  p !! "t" = Some (BStr t) →
  p !! "q" = Some (BStr q) →
  p !! "a" = Some (BDict args) →
  args !! "id" = Some (BStr id) →
  Node.id (node dht) = Some own →
  bitmap.RawString own ≠ id →
  String.length id = 20%nat →
  (∀ no, routingTable_.GetNodeByAddress (routingTable_of dht) (net.String_ addr)
         = Some no → Node.IDRawString no = Ok id) →
  handleRequest now rnd dht addr p =
    '(continue, dht1) ← handleRequest_switch now rnd dht addr (NewDHTQuery t q args) id;
    if (continue : bool) then
      '(_, rt) ← routingTable_.Insert (blackList_of dht1) (MaxNodes dht1) now
                   (routingTable_of dht1) (Node.NewNode now id addr);
      Ok (true, DHT_.set_routingTable dht1 rt)
    else Ok (false, dht1).
Proof.
  intros Ht Hq Ha Hid Hown Hself Hlen Hno.
  unfold handleRequest, NewDHTQueryFromPayload.
  rewrite Ht, Hq, Ha. cbn -[ParseKey handleRequest_switch routingTable_.Insert].
  rewrite (ParseKey_string_ok _ _ _ Hq), (ParseKey_map_ok _ _ _ Ha).
  cbn -[ParseKey handleRequest_switch routingTable_.Insert].
  rewrite (ParseKey_string_ok _ _ _ Hid).
  cbn -[ParseKey handleRequest_switch routingTable_.Insert].
  rewrite Hid. cbn -[ParseKey handleRequest_switch routingTable_.Insert].
  replace (Node.IDRawString (node dht)) with (Ok (bitmap.RawString own) : result string)
    by (unfold Node.IDRawString, Node.deref; by rewrite Hown).
  cbn -[ParseKey handleRequest_switch routingTable_.Insert].
  rewrite bool_decide_eq_false_2 by congruence.
  rewrite bool_decide_eq_false_2 by (rewrite Hlen; auto).
  destruct (routingTable_.GetNodeByAddress _ _) as [no|] eqn:Eno.
  - rewrite (Hno no eq_refl).
    cbn -[ParseKey handleRequest_switch routingTable_.Insert].
    rewrite bool_decide_eq_false_2 by auto. done.
  - done.
Qed.

(** X19: a request that carries the id of the node itself is dropped: no
    reply is written and nothing changes. *)
Theorem X19_own_id_dropped
    (now : Z) (rnd : string) (dht : DHT) (addr : net.UDPAddr) (p : payload)
    (t q id : string) (args : payload) :
  p !! "t" = Some (BStr t) →
  p !! "q" = Some (BStr q) →
  p !! "a" = Some (BDict args) →
  args !! "id" = Some (BStr id) →
  Node.IDRawString (node dht) = Ok id →
  handleRequest now rnd dht addr p = Ok (false, dht).
Proof.
  intros Ht Hq Ha Hid Hown. unfold handleRequest, NewDHTQueryFromPayload.
  rewrite Ht, Hq, Ha. cbn -[ParseKey].
  rewrite (ParseKey_string_ok _ _ _ Hq), (ParseKey_map_ok _ _ _ Ha). cbn -[ParseKey].
  rewrite (ParseKey_string_ok _ _ _ Hid). cbn -[ParseKey]. rewrite Hid, Hown. cbn.
  by rewrite bool_decide_eq_true_2.
Qed.

Lemma X19_own_id_dropped_witness :
  handleRequest 0 "" dht_example addr_example
    (request (BStr "ping")
       (BDict {[ "id" := BStr (bitmap.RawString (id_of_byte 9)) ]}))
  = Ok (false, dht_example).
Proof.
  apply (X19_own_id_dropped 0 "" dht_example addr_example _ "aa" "ping"
           (bitmap.RawString (id_of_byte 9))
           {[ "id" := BStr (bitmap.RawString (id_of_byte 9)) ]});
    vm_compute; reflexivity.
Defined.

(** X20: a request whose id passes the checks and whose [q] is none of the
    four query types is dropped without a reply (no error of code 204 is
    sent), and its sender is not put into the routing table. *)
Theorem X20_unknown_query_ignored
    (now : Z) (rnd : string) (dht : DHT) (addr : net.UDPAddr) (p : payload)
    (t q id : string) (args : payload) (own : bitmap.t) :
  p !! "t" = Some (BStr t) →
  p !! "q" = Some (BStr q) →
  p !! "a" = Some (BDict args) →
  args !! "id" = Some (BStr id) →
  Node.id (node dht) = Some own →
  bitmap.RawString own ≠ id →
  String.length id = 20%nat →
  (∀ no, routingTable_.GetNodeByAddress (routingTable_of dht) (net.String_ addr)
         = Some no → Node.IDRawString no = Ok id) →
  q ∉ [DHTQueryTypePing; DHTQueryTypeFindNode; DHTQueryTypeGetPeers;
       DHTQueryTypeAnnouncePeer] →
  handleRequest now rnd dht addr p = Ok (false, dht).
Proof.
  intros Ht Hq Ha Hid Hown Hself Hlen Hno Hty.
  rewrite (handleRequest_dispatch _ _ _ _ _ _ _ _ _ _ Ht Hq Ha Hid Hown Hself Hlen Hno).
  unfold handleRequest_switch. cbn [QueryType NewDHTQuery].
  rewrite !not_elem_of_cons in Hty. destruct Hty as (H1 & H2 & H3 & H4 & _).
  by rewrite !bool_decide_eq_false_2 by done.
Qed.

Lemma X20_unknown_query_ignored_witness :
  handleRequest 0 "" dht_example addr_example payload_vote = Ok (false, dht_example).
Proof.
  apply (X20_unknown_query_ignored 0 "" dht_example addr_example payload_vote
           "aa" "vote" id_a {[ "id" := BStr id_a ]} (id_of_byte 9));
    try (vm_compute; reflexivity).
  - vm_compute. discriminate.
  - intros no Hno. vm_compute in Hno. discriminate.
  - rewrite !not_elem_of_cons. repeat split; try discriminate. apply not_elem_of_nil.
Defined.

Lemma announce_keys_ok (args : payload) infoHash port tok :
  args !! "info_hash" = Some (BStr infoHash) →
  args !! "port" = Some (BInt port) →
  args !! "token" = Some (BStr tok) →
  ParseKeys args [("info_hash", "string"); ("port", "int"); ("token", "string")]
  = Ok None.
Proof.
  intros Hi Hp Ht. cbn -[ParseKey].
  rewrite (ParseKey_string_ok _ _ _ Hi). cbn -[ParseKey].
  rewrite (ParseKey_int_ok _ _ _ Hp). cbn -[ParseKey].
  by rewrite (ParseKey_string_ok _ _ _ Ht).
Qed.

(** X21: an [announce_peer] whose token [check] rejects is dropped in
    silence: no reply is written, no peer is stored, no callback runs and
    the sender is not put into the routing table; only the token manager
    changes, by what [check] deletes. *)
Theorem X21_announce_invalid_token_dropped
    (now : Z) (rnd : string) (dht : DHT) (addr : net.UDPAddr) (p : payload)
    (t id : string) (args : payload) (own : bitmap.t)
    (infoHash tok : string) (port : Z) :
  p !! "t" = Some (BStr t) →
  p !! "q" = Some (BStr DHTQueryTypeAnnouncePeer) →
  p !! "a" = Some (BDict args) →
  args !! "id" = Some (BStr id) →
  Node.id (node dht) = Some own →
  bitmap.RawString own ≠ id →
  String.length id = 20%nat →
  (∀ no, routingTable_.GetNodeByAddress (routingTable_of dht) (net.String_ addr)
         = Some no → Node.IDRawString no = Ok id) →
  args !! "info_hash" = Some (BStr infoHash) →
  args !! "port" = Some (BInt port) →
  args !! "token" = Some (BStr tok) →
  (tokenManager.check (tokenManager_of dht) addr tok).1 = false →
  handleRequest now rnd dht addr p =
    Ok (false,
        DHT_.set_tokenManager dht (tokenManager.check (tokenManager_of dht) addr tok).2).
Proof.
  intros Ht Hq Ha Hid Hown Hself Hlen Hno Hi Hp Htok Hcheck.
  rewrite (handleRequest_dispatch _ _ _ _ _ _ _ _ _ _ Ht Hq Ha Hid Hown Hself Hlen Hno).
  unfold handleRequest_switch. cbn [QueryType NewDHTQuery q_Arguments q_TransactionID].
  rewrite (bool_decide_eq_false_2 (DHTQueryTypeAnnouncePeer = DHTQueryTypePing)) by done.
  rewrite (bool_decide_eq_false_2 (DHTQueryTypeAnnouncePeer = DHTQueryTypeFindNode))
    by done.
  rewrite (bool_decide_eq_false_2 (DHTQueryTypeAnnouncePeer = DHTQueryTypeGetPeers))
    by done.
  rewrite (bool_decide_eq_true_2 (DHTQueryTypeAnnouncePeer = DHTQueryTypeAnnouncePeer))
    by done.
  rewrite (announce_keys_ok _ _ _ _ Hi Hp Htok). rewrite Hi, Hp, Htok.
  cbn [mbind result_bind assert_string assert_int].
  destruct (tokenManager.check (tokenManager_of dht) addr tok) as [valid tm].
  simpl in Hcheck. subst valid. done.
Qed.

Lemma X21_announce_invalid_token_dropped_witness :
  handleRequest 0 "" dht_example addr_example payload_announce =
    Ok (false,
        DHT_.set_tokenManager dht_example
          (tokenManager.check (tokenManager_of dht_example) addr_example "abcde").2).
Proof.
  apply (X21_announce_invalid_token_dropped 0 "" dht_example addr_example
           payload_announce "aa" id_a
           (<["id" := BStr id_a]>
            (<["info_hash" := BStr id_b]>
            (<["port" := BInt 1234]>
            (<["token" := BStr "abcde"]>
            {[ "implied_port" := BInt 1 ]}))))
           (id_of_byte 9) id_b "abcde" 1234);
    try (vm_compute; reflexivity).
  - vm_compute. discriminate.
  - intros no Hno. vm_compute in Hno. discriminate.
Defined.

(** X22: in standard mode, with no write failure ahead, an [announce_peer]
    with a valid token on a reachable table is answered with the id of the
    node; the peer is stored under the infohash with the sender's IP and,
    when [implied_port] is present and not 0, the UDP source port instead of
    the announced one; the token is used up and the sender is handed to
    [Insert]. *)
Theorem X22_announce_stores_peer
    (now : Z) (rnd : string) (dht : DHT) (addr : net.UDPAddr) (p : payload)
    (t id : string) (args : payload) (own : bitmap.t)
    (infoHash tok : string) (port : Z) (implied : option Z) :
  reachable (routingTable_of dht) →
  Mode dht = StandardMode →
  failures (conn dht) = [] →
  p !! "t" = Some (BStr t) →
  p !! "q" = Some (BStr DHTQueryTypeAnnouncePeer) →
  p !! "a" = Some (BDict args) →
  args !! "id" = Some (BStr id) →
  Node.id (node dht) = Some own →
  bitmap.RawString own ≠ id →
  String.length id = 20%nat →
  (∀ no, routingTable_.GetNodeByAddress (routingTable_of dht) (net.String_ addr)
         = Some no → Node.IDRawString no = Ok id) →
  args !! "info_hash" = Some (BStr infoHash) →
  args !! "port" = Some (BInt port) →
  args !! "token" = Some (BStr tok) →
  args !! "implied_port" = BInt <$> implied →
  (tokenManager.check (tokenManager_of dht) addr tok).1 = true →
  let port' := match implied with
               | Some z => if bool_decide (z ≠ 0%Z) then net.Port addr else port
               | None => port
               end in
  ∃ dht' isNew,
    handleRequest now rnd dht addr p = Ok (true, dht') ∧
    peersManager_of dht' =
      peersManager.Insert (K dht) (peersManager_of dht) infoHash
        (NewPeer (net.IP_ addr) port' tok) ∧
    written (conn dht') =
      written (conn dht)
      ++ [(addr, ToPayload (NewDHTQueryResponse t
                              {[ "id" := BStr (bitmap.RawString own) ]}))] ∧
    tokenManager.table (tokenManager_of dht') !! net.IP_String (net.IP_ addr) = None ∧
    hookCalls dht' =
      hookCalls dht
      ++ (if OnAnnouncePeer dht
          then [AnnouncePeerCall infoHash (net.IP_String (net.IP_ addr)) port']
          else []) ∧
    routingTable_.Insert (blackList_of dht) (MaxNodes dht) now (routingTable_of dht)
      (Node.NewNode now id addr) = Ok (isNew, routingTable_of dht').
Proof.
  intros Hreach Hmode Hf Ht Hq Ha Hid Hown Hself Hlen Hno Hi Hp Htok Himp Hcheck port'.
  rewrite (handleRequest_dispatch _ _ _ _ _ _ _ _ _ _ Ht Hq Ha Hid Hown Hself Hlen Hno).
  destruct (Insert_total (blackList_of dht) (MaxNodes dht) now (routingTable_of dht)
              (Node.NewNode now id addr) Hreach) as (isNew & rt' & Hins);
    [by eexists|].
  unfold handleRequest_switch. cbn [QueryType NewDHTQuery q_Arguments q_TransactionID].
  rewrite (bool_decide_eq_false_2 (DHTQueryTypeAnnouncePeer = DHTQueryTypePing)) by done.
  rewrite (bool_decide_eq_false_2 (DHTQueryTypeAnnouncePeer = DHTQueryTypeFindNode))
    by done.
  rewrite (bool_decide_eq_false_2 (DHTQueryTypeAnnouncePeer = DHTQueryTypeGetPeers))
    by done.
  rewrite (bool_decide_eq_true_2 (DHTQueryTypeAnnouncePeer = DHTQueryTypeAnnouncePeer))
    by done.
  rewrite (announce_keys_ok _ _ _ _ Hi Hp Htok). rewrite Hi, Hp, Htok, Himp.
  cbn [mbind result_bind assert_string assert_int].
  pose proof (check_present (tokenManager_of dht) addr tok) as Hpres.
  destruct (tokenManager.table (tokenManager_of dht) !! net.IP_String (net.IP_ addr))
    as [tk|] eqn:Etk;
    [|rewrite (check_absent _ _ _ Etk) in Hcheck; done].
  rewrite (Hpres tk eq_refl) in Hcheck |- *. simpl in Hcheck. rewrite Hcheck.
  cbn [negb].
  subst port'.
  destruct implied as [z|];
    cbn [fmap option_fmap option_map assert_int mbind result_bind];
    [destruct (decide (z ≠ 0%Z)) as [Hz|Hz];
     [rewrite !(bool_decide_eq_true_2 _ Hz)
     |rewrite !(bool_decide_eq_false_2 _ Hz)]|];
    cbn [mbind result_bind];
    (unfold DHT_.IsStandardMode; rewrite bool_decide_eq_true_2 by done);
    unfold DHT_.id, Node.IDRawString, Node.deref;
    cbn [node DHT_.set_peersManager DHT_.set_tokenManager]; rewrite Hown;
    cbn [mbind result_bind];
    (unfold DHT_.IsStandardMode; cbn [Mode]; rewrite bool_decide_eq_true_2 by done);
    cbn [mbind result_bind]; unfold send_response;
    rewrite send_no_failure by done;
    destruct (OnAnnouncePeer dht) eqn:Hhook; cbn; rewrite ?Hhook; cbn;
    rewrite !Hins; cbn;
    eexists _, isNew; (split; [reflexivity|]); cbn;
    (split; [done|]); (split; [done|]);
    (split; [apply lookup_delete_eq|]); (split; [by rewrite ?app_nil_r|done]).
Qed.

Lemma X22_announce_stores_peer_witness :
  ∃ dht' isNew,
    handleRequest 0 "" dht_with_token addr_example payload_announce = Ok (true, dht') ∧
    peersManager_of dht' =
      peersManager.Insert (K dht_with_token) (peersManager_of dht_with_token) id_b
        (NewPeer (net.IP_ addr_example) (net.Port addr_example) "abcde") ∧
    written (conn dht') =
      written (conn dht_with_token)
      ++ [(addr_example,
           ToPayload (NewDHTQueryResponse "aa"
                        {[ "id" := BStr (bitmap.RawString (id_of_byte 9)) ]}))] ∧
    tokenManager.table (tokenManager_of dht')
      !! net.IP_String (net.IP_ addr_example) = None ∧
    hookCalls dht' =
      hookCalls dht_with_token
      ++ (if OnAnnouncePeer dht_with_token
          then [AnnouncePeerCall id_b (net.IP_String (net.IP_ addr_example))
                  (net.Port addr_example)]
          else []) ∧
    routingTable_.Insert (blackList_of dht_with_token) (MaxNodes dht_with_token) 0
      (routingTable_of dht_with_token) (Node.NewNode 0 id_a addr_example)
    = Ok (isNew, routingTable_of dht').
Proof.
  apply (X22_announce_stores_peer 0 "" dht_with_token addr_example
           payload_announce "aa" id_a
           (<["id" := BStr id_a]>
            (<["info_hash" := BStr id_b]>
            (<["port" := BInt 1234]>
            (<["token" := BStr "abcde"]>
            {[ "implied_port" := BInt 1 ]}))))
           (id_of_byte 9) id_b "abcde" 1234 (Some 1%Z));
    try (vm_compute; reflexivity).
  - apply reach_new.
  - vm_compute. discriminate.
  - intros no Hno. vm_compute in Hno. discriminate.
Defined.

(** X23: with no write failure ahead, a [ping] whose id passes the checks is
    answered on a reachable table by one response that echoes the
    transaction id of the request and carries the id that the node presents
    to the sender, and the sender is handed to [Insert] with the time of the
    request. *)
Theorem X23_ping_answered
    (now : Z) (rnd : string) (dht : DHT) (addr : net.UDPAddr) (p : payload)
    (t id : string) (args : payload) (own : bitmap.t) :
  reachable (routingTable_of dht) →
  failures (conn dht) = [] →
  p !! "t" = Some (BStr t) →
  p !! "q" = Some (BStr DHTQueryTypePing) →
  p !! "a" = Some (BDict args) →
  args !! "id" = Some (BStr id) →
  Node.id (node dht) = Some own →
  bitmap.RawString own ≠ id →
  String.length id = 20%nat →
  (∀ no, routingTable_.GetNodeByAddress (routingTable_of dht) (net.String_ addr)
         = Some no → Node.IDRawString no = Ok id) →
  ∃ idr isNew rt',
    DHT_.id dht id = Ok idr ∧
    routingTable_.Insert (blackList_of dht) (MaxNodes dht) now (routingTable_of dht)
      (Node.NewNode now id addr) = Ok (isNew, rt') ∧
    handleRequest now rnd dht addr p =
      Ok (true,
          DHT_.set_routingTable
            (DHT_.set_conn dht
               {| written := written (conn dht)
                             ++ [(addr, ToPayload (NewDHTQueryResponse t
                                                     {[ "id" := BStr idr ]}))];
                  failures := [] |})
            rt').
Proof.
  intros Hreach Hf Ht Hq Ha Hid Hown Hself Hlen Hno.
  rewrite (handleRequest_dispatch _ _ _ _ _ _ _ _ _ _ Ht Hq Ha Hid Hown Hself Hlen Hno).
  destruct (Insert_total (blackList_of dht) (MaxNodes dht) now (routingTable_of dht)
              (Node.NewNode now id addr) Hreach) as (isNew & rt' & Hins);
    [by eexists|].
  assert (∃ idr, DHT_.id dht id = Ok idr) as [idr Hidr].
  { unfold DHT_.id, Node.IDRawString, Node.deref. rewrite Hown. simpl.
    destruct (DHT_.IsStandardMode dht); by eexists. }
  exists idr, isNew, rt'. split; [done|]. split; [done|].
  unfold handleRequest_switch. cbn [QueryType NewDHTQuery q_Arguments q_TransactionID].
  rewrite (bool_decide_eq_true_2 (DHTQueryTypePing = DHTQueryTypePing)) by done.
  rewrite Hidr. cbn [mbind result_bind]. unfold send_response.
  rewrite send_no_failure by done. cbn. by rewrite Hins.
Qed.

Lemma X23_ping_answered_witness :
  ∃ idr isNew rt',
    DHT_.id dht_example id_a = Ok idr ∧
    routingTable_.Insert (blackList_of dht_example) (MaxNodes dht_example) 0
      (routingTable_of dht_example) (Node.NewNode 0 id_a addr_example)
    = Ok (isNew, rt') ∧
    handleRequest 0 "" dht_example addr_example (ping_from id_a) =
      Ok (true,
          DHT_.set_routingTable
            (DHT_.set_conn dht_example
               {| written := written (conn dht_example)
                             ++ [(addr_example,
                                  ToPayload (NewDHTQueryResponse "aa"
                                               {[ "id" := BStr idr ]}))];
                  failures := [] |})
            rt').
Proof.
  apply (X23_ping_answered 0 "" dht_example addr_example (ping_from id_a) "aa" id_a
           {[ "id" := BStr id_a ]} (id_of_byte 9));
    try (vm_compute; reflexivity).
  - apply reach_new.
  - vm_compute. discriminate.
  - intros no Hno. vm_compute in Hno. discriminate.
Defined.

(** ** Errors and responses *)

Lemma handleError_cases sent dht addr (p : payload) t :
  p !! "t" = Some (BStr t) →
  handleError sent dht addr p =
    Ok (match p !! "e" with
        | Some (BList [_; _]) =>
            match transactionManager_.filterOne (transactionManager_of dht) t addr with
            | Some trans =>
                match sent with
                | Delivered => Returns (true, Some trans)
                | Stuck => Blocks dht trans []
                end
            | None => Returns (true, None)
            end
        | _ => Returns (false, None)
        end).
Proof.
  intros Ht. unfold handleError, ParseKey.
  destruct (p !! "e") as [[z|s|l|d]|]; simpl; try done.
  destruct l as [|c [|m [|x l]]]; simpl; try done. rewrite Ht. simpl.
  by destruct (transactionManager_.filterOne _ t addr), sent.
Qed.

(** X24: on a message whose [t] is a string, as [parseMessage] lets
    through, [handleError] does not panic.  Unless [e] is a list of two
    elements, of whatever types, it returns false without a send.  When it
    is, and no live transaction has that id and address, it returns true
    without a send; when one has, it sends on the channel of that
    transaction: it returns true once the send is delivered, and stays
    blocked, in the state it was called in, when the send is not. *)
Theorem X24_handleError_signals
    (sent : delivery) (dht : DHT) (addr : net.UDPAddr) (p : payload) (t : string) :
  p !! "t" = Some (BStr t) →
  ∃ e,
    handleError sent dht addr p = Ok e ∧
    ((∀ c m, p !! "e" ≠ Some (BList [c; m])) → e = Returns (false, None)) ∧
    ((∃ c m, p !! "e" = Some (BList [c; m])) →
     match transactionManager_.filterOne (transactionManager_of dht) t addr with
     | None => e = Returns (true, None)
     | Some trans =>
         e = match sent with
             | Delivered => Returns (true, Some trans)
             | Stuck => Blocks dht trans []
             end
     end).
Proof.
  intros Ht. rewrite (handleError_cases _ _ _ _ _ Ht).
  eexists. split; [done|].
  destruct (p !! "e") as [[z|s|l|d]|];
    try (split; [done|by intros (? & ? & ?)]).
  destruct l as [|c [|m [|x l]]];
    try (split; [done|by intros (? & ? & ?)]).
  split; [intros Hno; by destruct (Hno c m)|].
  intros _. by destruct (transactionManager_.filterOne _ t addr).
Qed.

Lemma X24_handleError_signals_witness :
  (∃ e,
     handleError Delivered dht_pinging addr_example
       (ToPayload (NewDHTErrorResponse "aa" 201 "busy")) = Ok e ∧
     e = Returns (true, Some ping_aa)) ∧
  (∃ e,
     handleError Stuck dht_pinging addr_example
       (ToPayload (NewDHTErrorResponse "aa" 201 "busy")) = Ok e ∧
     e = Blocks dht_pinging ping_aa []).
Proof.
  split.
  - destruct (X24_handleError_signals Delivered dht_pinging addr_example
                (ToPayload (NewDHTErrorResponse "aa" 201 "busy")) "aa")
      as (e & He & _ & Hsig); [vm_compute; reflexivity|].
    exists e. split; [exact He|].
    apply (Hsig (ex_intro _ (BInt 201) (ex_intro _ (BStr "busy") eq_refl))).
  - destruct (X24_handleError_signals Stuck dht_pinging addr_example
                (ToPayload (NewDHTErrorResponse "aa" 201 "busy")) "aa")
      as (e & He & _ & Hsig); [vm_compute; reflexivity|].
    exists e. split; [exact He|].
    apply (Hsig (ex_intro _ (BInt 201) (ex_intro _ (BStr "busy") eq_refl))).
Defined.

(** X25: a response written by [DHTQueryResponse.ToPayload], which files its
    arguments under [e], is dropped by [handleResponse] whatever the state
    and the arguments are: it returns false before any send, no transaction
    is signalled and nothing changes. *)
Theorem X25_own_responses_dropped `{Codec}
    (OnGetPeersResponse : bool) (now : Z) (sent : delivery) (dht : DHT)
    (addr : net.UDPAddr) (r : DHTQueryResponse) :
  handleResponse OnGetPeersResponse now sent dht addr (ToPayload r)
  = Ok (Returns (dropped dht [])).
Proof.
  destruct r as [t args]. unfold handleResponse.
  assert (ToPayload {| r_TransactionID := t; r_Arguments := args |} !! "t"
          = Some (BStr t)) as -> by done.
  cbn [assert_string mbind result_bind].
  destruct (transactionManager_.filterOne _ t addr) as [trans|]; [|done].
  assert (ParseKey (ToPayload {| r_TransactionID := t; r_Arguments := args |}) "r" "map"
          = Ok (Some "lack of key")) as -> by done.
  done.
Qed.

Lemma handleResponse_prefix `{Codec} OnGetPeersResponse now sent dht addr
    (p : payload) t trans r id :
  p !! "t" = Some (BStr t) →
  transactionManager_.filterOne (transactionManager_of dht) t addr = Some trans →
  p !! "r" = Some (BDict r) →
  r !! "id" = Some (BStr id) →
  handleResponse OnGetPeersResponse now sent dht addr p =
    if match Node.id (q_Node (t_Query trans)) with
       | Some i => bool_decide (bitmap.RawString i ≠ id)
       | None => false
       end
    then
      rt ← routingTable_.RemoveByAddr now (routingTable_of dht) (net.String_ addr);
      Ok (Returns
            (dropped
               (DHT_.set_routingTable
                  (DHT_.set_blackList dht
                     (blackList.insert now (blackList_of dht)
                        (net.IP_String (net.IP_ addr)) (net.Port addr))) rt) []))
    else
      '(continue, dht1, reported) ←
        handleResponse_switch OnGetPeersResponse now dht trans r;
      if (continue : bool) then
        match sent with
        | Stuck => Ok (Blocks dht1 trans reported)
        | Delivered =>
            '(_, rt) ← routingTable_.Insert
                         (blackList.delete (blackList_of dht1)
                            (net.IP_String (net.IP_ addr)) (net.Port addr))
                         (MaxNodes dht1) now (routingTable_of dht1)
                         (Node.NewNode now id addr);
            Ok (Returns
                  {| success := true;
                     state := DHT_.set_routingTable
                                (DHT_.set_blackList dht1
                                   (blackList.delete (blackList_of dht1)
                                      (net.IP_String (net.IP_ addr)) (net.Port addr)))
                                rt;
                     signalled := Some trans; reported := reported |})
        end
      else Ok (Returns (dropped dht1 reported)).
Proof.
  intros Ht Htr Hr Hid. unfold handleResponse.
  rewrite Ht. cbn [assert_string mbind result_bind]. rewrite Htr.
  rewrite (ParseKey_map_ok _ _ _ Hr). cbn [mbind result_bind]. rewrite Hr.
  cbn [assert_map mbind result_bind].
  rewrite (ParseKey_string_ok _ _ _ Hid). cbn [mbind result_bind]. rewrite Hid.
  cbn [assert_string mbind result_bind].
  unfold Node.ID, Node.IDRawString, Node.deref.
  by destruct (Node.id (q_Node (t_Query trans))) as [i|] eqn:Hi;
    cbn [mbind result_bind].
Qed.



(** X27: a response to a live [ping] or [announce_peer] whose [r] carries a
    20 byte id that agrees with the id under which the queried node is
    known (or the node is known without an id) is accepted on a reachable
    table: [handleResponse] sends on the channel of the transaction with
    nothing written and no callback run.  Once the send is delivered, the
    blacklist entry of the sending endpoint is deleted, the sender is handed
    to [Insert] under the id of the response and true is returned.  When
    the send is not delivered the handler stays blocked in the state it was
    called in: the blacklist entry is not deleted and the sender is not
    inserted. *)
Theorem X27_response_accepted `{Codec}
    (OnGetPeersResponse : bool) (now : Z) (dht : DHT) (addr : net.UDPAddr)
    (p : payload) (t : string) (trans : Transaction) (r : payload) (id : string) :
  reachable (routingTable_of dht) →
  p !! "t" = Some (BStr t) →
  transactionManager_.filterOne (transactionManager_of dht) t addr = Some trans →
  p !! "r" = Some (BDict r) →
  r !! "id" = Some (BStr id) →
  String.length id = 20%nat →
  (∀ i, Node.id (q_Node (t_Query trans)) = Some i → bitmap.RawString i = id) →
  QueryType (q_Data (t_Query trans)) ∈ [DHTQueryTypePing; DHTQueryTypeAnnouncePeer] →
  ∃ isNew rt',
    routingTable_.Insert
      (blackList.delete (blackList_of dht)
         (net.IP_String (net.IP_ addr)) (net.Port addr))
      (MaxNodes dht) now (routingTable_of dht) (Node.NewNode now id addr)
    = Ok (isNew, rt') ∧
    handleResponse OnGetPeersResponse now Delivered dht addr p =
      Ok (Returns
            {| success := true;
               state := DHT_.set_routingTable
                          (DHT_.set_blackList dht
                             (blackList.delete (blackList_of dht)
                                (net.IP_String (net.IP_ addr)) (net.Port addr))) rt';
               signalled := Some trans; reported := [] |}) ∧
    handleResponse OnGetPeersResponse now Stuck dht addr p =
      Ok (Blocks dht trans []).
Proof.
  intros Hreach Ht Htr Hr Hid Hlen Hsame Hty.
  rewrite !(handleResponse_prefix _ _ _ _ _ _ _ _ _ _ Ht Htr Hr Hid).
  assert (match Node.id (q_Node (t_Query trans)) with
          | Some i => bool_decide (bitmap.RawString i ≠ id)
          | None => false
          end = false) as ->.
  { destruct (Node.id (q_Node (t_Query trans))) as [i|]; [|done].
    apply bool_decide_eq_false_2. intros Hne. by apply Hne, Hsame. }
  destruct (Insert_total
              (blackList.delete (blackList_of dht)
                 (net.IP_String (net.IP_ addr)) (net.Port addr))
              (MaxNodes dht) now (routingTable_of dht) (Node.NewNode now id addr)
              Hreach) as (isNew & rt' & Hins); [by eexists|].
  exists isNew, rt'. split; [done|].
  assert (handleResponse_switch OnGetPeersResponse now dht trans r = Ok (true, dht, []))
    as ->.
  { unfold handleResponse_switch.
    rewrite !elem_of_cons in Hty. destruct Hty as [-> | [-> | Hty]];
      [done|done|by apply elem_of_nil in Hty]. }
  cbn [mbind result_bind]. by rewrite Hins.
Qed.

Lemma X27_response_accepted_witness :
  ∃ isNew rt',
    routingTable_.Insert
      (blackList.delete (blackList_of dht_pinging)
         (net.IP_String (net.IP_ addr_example)) (net.Port addr_example))
      (MaxNodes dht_pinging) 1 (routingTable_of dht_pinging)
      (Node.NewNode 1 (bitmap.RawString (id_of_byte 7)) addr_example)
    = Ok (isNew, rt') ∧
    @handleResponse (codec_of None) false 1 Delivered dht_pinging addr_example
      (response_from "aa" {[ "id" := BStr (bitmap.RawString (id_of_byte 7)) ]}) =
      Ok (Returns
            {| success := true;
               state := DHT_.set_routingTable
                          (DHT_.set_blackList dht_pinging
                             (blackList.delete (blackList_of dht_pinging)
                                (net.IP_String (net.IP_ addr_example))
                                (net.Port addr_example))) rt';
               signalled := Some ping_aa; reported := [] |}) ∧
    @handleResponse (codec_of None) false 1 Stuck dht_pinging addr_example
      (response_from "aa" {[ "id" := BStr (bitmap.RawString (id_of_byte 7)) ]}) =
      Ok (Blocks dht_pinging ping_aa []).
Proof.
  apply (@X27_response_accepted (codec_of None) false 1 dht_pinging addr_example
           (response_from "aa" {[ "id" := BStr (bitmap.RawString (id_of_byte 7)) ]})
           "aa" ping_aa {[ "id" := BStr (bitmap.RawString (id_of_byte 7)) ]}
           (bitmap.RawString (id_of_byte 7)));
    try (vm_compute; reflexivity).
  - apply reach_new.
  - intros i Hi. vm_compute in Hi. injection Hi as <-. reflexivity.
  - apply list_elem_of_here.
Defined.

Lemma handleResponse_values_panics `{Codec} OnGetPeersResponse token infoHash
    (vs : list bval) (v : bval) (rest : list bval) : ∀ dht reported,
  Forall (λ x, ∃ s, x = BStr s) vs →
  (∀ s, v ≠ BStr s) →
  is_Panic (handleResponse_values OnGetPeersResponse dht reported
              (vs ++ v :: rest) token infoHash).
Proof.
  induction vs as [|x vs IH]; intros dht reported Hvs Hv; simpl.
  - destruct v as [z|s|l|d]; simpl; try by eexists. by destruct (Hv s).
  - inversion Hvs as [|? ? [s ->] Hvs']; subst. simpl.
    destruct (NewPeerFromCompactIPPortInfo s token); by apply IH.
Qed.

(** X28: a response to a live [get_peers] whose [values] list holds an
    element that is not a string, after strings only, makes
    [handleResponse] panic: the loop over [values] asserts the type of each
    element without a test, before any send on the channel of the
    transaction. *)
Theorem X28_values_not_string_panics `{Codec}
    (OnGetPeersResponse : bool) (now : Z) (sent : delivery) (dht : DHT)
    (addr : net.UDPAddr) (p : payload) (t : string) (trans : Transaction)
    (r : payload) (id tok : string) (vs : list bval) (v : bval)
    (rest : list bval) :
  p !! "t" = Some (BStr t) →
  transactionManager_.filterOne (transactionManager_of dht) t addr = Some trans →
  p !! "r" = Some (BDict r) →
  r !! "id" = Some (BStr id) →
  (∀ i, Node.id (q_Node (t_Query trans)) = Some i → bitmap.RawString i = id) →
  QueryType (q_Data (t_Query trans)) = DHTQueryTypeGetPeers →
  r !! "token" = Some (BStr tok) →
  r !! "values" = Some (BList (vs ++ v :: rest)) →
  Forall (λ x, ∃ s, x = BStr s) vs →
  (∀ s, v ≠ BStr s) →
  is_Panic (handleResponse OnGetPeersResponse now sent dht addr p).
Proof.
  intros Ht Htr Hr Hid Hsame Hty Htok Hvals Hvs Hv.
  rewrite (handleResponse_prefix _ _ _ _ _ _ _ _ _ _ Ht Htr Hr Hid).
  assert (match Node.id (q_Node (t_Query trans)) with
          | Some i => bool_decide (bitmap.RawString i ≠ id)
          | None => false
          end = false) as ->.
  { destruct (Node.id (q_Node (t_Query trans))) as [i|]; [|done].
    apply bool_decide_eq_false_2. intros Hne. by apply Hne, Hsame. }
  unfold handleResponse_switch. rewrite Hty.
  rewrite (bool_decide_eq_false_2 (DHTQueryTypeGetPeers = DHTQueryTypePing)) by done.
  rewrite (bool_decide_eq_false_2 (DHTQueryTypeGetPeers = DHTQueryTypeFindNode)) by done.
  rewrite (bool_decide_eq_true_2 (DHTQueryTypeGetPeers = DHTQueryTypeGetPeers)) by done.
  rewrite (ParseKey_string_ok _ _ _ Htok). cbn [mbind result_bind].
  rewrite Htok. cbn [assert_string mbind result_bind].
  destruct (q_Arguments (q_Data (t_Query trans)) !! "info_hash")
    as [[z|infoHash|l|d]|]; cbn [assert_string mbind result_bind]; try by eexists.
  assert (ParseKey r "values" "list" = Ok None) as ->
    by (unfold ParseKey; by rewrite Hvals).
  cbn [mbind result_bind]. rewrite Hvals. cbn [assert_list mbind result_bind].
  destruct (handleResponse_values_panics OnGetPeersResponse tok infoHash
              vs v rest dht [] Hvs Hv) as [msg ->].
  by eexists.
Qed.

Lemma X28_values_not_string_panics_witness :
  is_Panic (@handleResponse (codec_of None) false 1 Delivered dht_getting_peers
              addr_example
              (response_from "gp"
                 (<["id" := BStr (bitmap.RawString (id_of_byte 7))]>
                  (<["token" := BStr "tk"]> {[ "values" := BList [BInt 1] ]})))).
Proof.
  apply (@X28_values_not_string_panics (codec_of None) false 1 Delivered
           dht_getting_peers addr_example
           (response_from "gp"
              (<["id" := BStr (bitmap.RawString (id_of_byte 7))]>
               (<["token" := BStr "tk"]> {[ "values" := BList [BInt 1] ]})))
           "gp" get_peers_gp
           (<["id" := BStr (bitmap.RawString (id_of_byte 7))]>
            (<["token" := BStr "tk"]> {[ "values" := BList [BInt 1] ]}))
           (bitmap.RawString (id_of_byte 7)) "tk" [] (BInt 1) []);
    try (vm_compute; reflexivity).
  - intros i Hi. vm_compute in Hi. injection Hi as <-. reflexivity.
  - constructor.
  - intros s. discriminate.
Defined.

(** X29: a datagram that decodes to a dictionary whose [y] is [e] never
    makes [handle] panic and never changes the state, whatever else the
    dictionary holds, whoever sent it and however busy the workers are.  The
    handler either returns, and the worker token is given back, or it stays
    blocked holding its token; it blocks only in the send on the channel of
    a live transaction of the id and address of the packet, and only when
    that send is not delivered. *)
Theorem X29_error_packets_keep_state `{Codec}
    (OnGetPeersResponse : bool) (PacketWorkerLimit now : Z) (rnd : string)
    (sent : delivery) (workerTokens : Z) (dht : DHT) (raddr : net.UDPAddr)
    (data : string) (p : payload) :
  Decode data = Some (BDict p) →
  p !! "y" = Some (BStr "e") →
  ∃ e tokens,
    handle OnGetPeersResponse PacketWorkerLimit now rnd sent workerTokens dht
      raddr data = Ok (e, tokens) ∧
    match e with
    | Returns h => state h = dht ∧ reported h = [] ∧ tokens = workerTokens
    | Blocks dht' trans reported' =>
        sent = Stuck ∧ dht' = dht ∧ reported' = [] ∧
        tokens = (workerTokens + 1)%Z ∧
        ∃ t, p !! "t" = Some (BStr t) ∧
             transactionManager_.filterOne (transactionManager_of dht) t raddr
             = Some trans
    end.
Proof.
  intros Hdec Hy. unfold handle.
  case_bool_decide; [by eexists _, _|].
  destruct (blackList.in_ _ _ _); [by eexists _, _|].
  rewrite Hdec. unfold parseMessage, ParseKeys.
  assert (known_type "string") as Hs by (unfold known_type; set_solver).
  rewrite !(ParseKey_known _ _ _ Hs), Hy.
  destruct (p !! "t") as [[z|t|l|d]|] eqn:Ht; cbn [type_name mbind result_bind];
    try (by eexists _, _);
    try (rewrite (bool_decide_eq_false_2 (_ = "string")) by done;
         cbn [mbind result_bind]; by eexists _, _).
  rewrite !(bool_decide_eq_true_2 ("string" = "string")) by done.
  cbn [mbind result_bind]. rewrite Hy. cbn [assert_string mbind result_bind].
  rewrite (bool_decide_eq_false_2 ("e" = "q")) by done.
  rewrite (bool_decide_eq_false_2 ("e" = "r")) by done.
  rewrite (bool_decide_eq_true_2 ("e" = "e")) by done.
  rewrite (handleError_cases _ _ _ _ _ Ht). cbn [mbind result_bind].
  destruct (p !! "e") as [[| |[|? [|? [|? ?]]]|]|]; try (by eexists _, _).
  destruct (transactionManager_.filterOne _ t raddr) as [trans|] eqn:Htr;
    [|by eexists _, _].
  destruct sent; eexists _, _; (split; [done|]); cbn; [done|].
  repeat (split; [done|]). by exists t.
Qed.

Lemma X29_error_packets_keep_state_witness :
  ∃ e tokens,
    @handle (codec_of (Some (BDict (ToPayload (NewDHTErrorResponse "aa" 201 "busy")))))
      false 256 1 "" Stuck 0 dht_pinging addr_example
      "d1:eli201e4:busye1:t2:aa1:y1:ee"
      = Ok (e, tokens) ∧
    match e with
    | Returns h => state h = dht_pinging ∧ reported h = [] ∧ tokens = 0%Z
    | Blocks dht' trans reported' =>
        Stuck = Stuck ∧ dht' = dht_pinging ∧ reported' = [] ∧
        tokens = (0 + 1)%Z ∧
        ∃ t, ToPayload (NewDHTErrorResponse "aa" 201 "busy") !! "t" = Some (BStr t) ∧
             transactionManager_.filterOne (transactionManager_of dht_pinging) t
               addr_example
             = Some trans
    end.
Proof.
  apply (@X29_error_packets_keep_state
           (codec_of (Some (BDict (ToPayload (NewDHTErrorResponse "aa" 201 "busy")))))
           false 256 1 "" Stuck 0 dht_pinging addr_example
           "d1:eli201e4:busye1:t2:aa1:y1:ee"
           (ToPayload (NewDHTErrorResponse "aa" 201 "busy")));
    reflexivity.
Defined.

(** The handler of that error packet for the live [ping] stays blocked, with
    its token, when the send is not delivered, and returns it when the send
    is. *)
Lemma handle_error_packet_outcomes :
  let codec := codec_of (Some (BDict (ToPayload (NewDHTErrorResponse "aa" 201 "busy")))) in
  @handle codec false 256 1 "" Stuck 0 dht_pinging addr_example
    "d1:eli201e4:busye1:t2:aa1:y1:ee"
  = Ok (Blocks dht_pinging ping_aa [], 1%Z) ∧
  @handle codec false 256 1 "" Delivered 0 dht_pinging addr_example
    "d1:eli201e4:busye1:t2:aa1:y1:ee"
  = Ok (Returns {| success := true; state := dht_pinging;
                   signalled := Some ping_aa; reported := [] |}, 0%Z).
Proof. split; vm_compute; reflexivity. Qed.

(** ** A removed id is not found again *)

Lemma keyedDeque_Get_Delete {V} (key : V → string) (d : list V) (k0 : string) :
  keyedDeque.Get key (keyedDeque.Delete key d k0) k0 = None.
Proof.
  unfold keyedDeque.Get, keyedDeque.Delete.
  induction d as [|x d IH]; simpl; [done|].
  rewrite filter_cons. case_decide as Hx; [|done].
  simpl. by rewrite bool_decide_eq_false_2.
Qed.

Lemma find_some_key {V} (key : V → string) (d : list V) (k0 : string) (v : V) :
  keyedDeque.Get key d k0 = Some v → key v = k0.
Proof.
  unfold keyedDeque.Get. induction d as [|x d IH]; simpl; [done|].
  case_bool_decide as Hx; [by intros [= <-]|done].
Qed.

Lemma Remove_loop_gone iters : ∀ now id prefixLen root nd p root',
  no_candidates root →
  routingTable_.GetNodeKBucktByID_loop iters id prefixLen root = Ok (Some (nd, p)) →
  routingTable_.update_bucket p (λ bucket, kbucket_.Replace now bucket nd) root
    = Ok root' →
  routingTable_.GetNodeKBucktByID_loop iters id prefixLen root' = Ok None.
Proof.
  induction iters as [|iters IH]; intros now id prefixLen root nd p root' Hn Hg Hu.
  { done. }
  rewrite GetNodeKBucktByID_loop_S in Hg |- *.
  destruct (routingTableNode_.Child root (bitmap.Bit id (prefixLen - 1)))
    as [next|] eqn:Echild.
  - inv_bind Hg as r Er. destruct r as [[nd' path]|]; [|done]. inv_Ok Hg.
    unfold routingTable_.update_bucket in Hu. simpl in Hu. rewrite Echild in Hu.
    inv_bind Hu as c' Ec'. inv_Ok Hu.
    rewrite (Child_SetChild _ _ _ _ Echild).
    rewrite (IH now id (S prefixLen) next nd path c'
               (Child_no_candidates _ _ _ Hn Echild) Er Ec'). done.
  - inv_bind Hg as bucket Eb.
    destruct (keyedDeque.Get node_key (nodes bucket) (bitmap.RawString id))
      as [nd'|] eqn:Eget; [|done]. inv_Ok Hg.
    pose proof (find_some_key _ _ _ _ Eget) as Hkey.
    pose proof (KBucket_no_candidates _ _ Hn Eb) as Hcands.
    unfold routingTable_.update_bucket in Hu. simpl in Hu. rewrite Eb in Hu.
    simpl in Hu. inv_bind Hu as b' Eb'. inv_Ok Hu.
    rewrite Child_SetKBucket, Echild, KBucket_SetKBucket. simpl.
    unfold kbucket_.Replace in Eb'. inv_bind Eb' as raw Eraw.
    simpl in Eb'. rewrite Hcands in Eb'. simpl in Eb'. inv_Ok Eb'. simpl.
    assert (raw = bitmap.RawString id) as ->.
    { unfold Node.IDRawString, Node.deref in Eraw. unfold node_key in Hkey.
      destruct (Node.id nd) as [i|]; [|done]. simpl in Eraw. inv_Ok Eraw. done. }
    by rewrite keyedDeque_Get_Delete.
Qed.

(** X30: on a reachable table [Remove] of an id does not panic, and
    afterwards [GetNodeKBucktByID] finds no node under that id; the table it
    leaves is reachable again. *)
Theorem X30_removed_id_not_found
    (now : Z) (rt : routingTable) (id : bitmap.t) :
  reachable rt →
  ∃ rt',
    routingTable_.Remove now rt (Some id) = Ok rt' ∧
    routingTable_.GetNodeKBucktByID rt' (Some id) = Ok None ∧
    reachable rt'.
Proof.
  intros Hreach.
  pose proof (reachable_tree_ok _ Hreach) as Ht.
  destruct (reachable_no_candidates _ Hreach) as [Hn _].
  destruct (Remove_total now rt id Ht) as (rt' & found & Hrem & Hget & Hfound).
  exists rt'. split; [done|]. split; [|by eapply reach_Remove].
  destruct found as [[nd p]|]; [|by subst rt'].
  unfold routingTable_.Remove in Hrem. rewrite Hget in Hrem. simpl in Hrem.
  inv_bind Hrem as root' Eupd.
  destruct (_ ≫= routingTableNode_.KBucket) as [b|]; [|done]. inv_Ok Hrem.
  unfold routingTable_.GetNodeKBucktByID in *. simpl in *.
  by eapply Remove_loop_gone.
Qed.

Lemma X30_removed_id_not_found_witness :
  ∃ rt',
    routingTable_.Remove 1 rt_split (Some (id_of_first_byte 64)) = Ok rt' ∧
    routingTable_.GetNodeKBucktByID rt' (Some (id_of_first_byte 64)) = Ok None ∧
    reachable rt'.
Proof.
  apply X30_removed_id_not_found.
  apply insert_all_reachable. apply reach_new.
Defined.

(** * A request under a new id from a known address *)

(** ** What [Remove] leaves in the bucket *)


(** ** The blacklist entry, the table and the reply *)




